(** * Early-warning dashboards: data preparation pipeline

    A shallow embedding of the two Streamlit scripts of the repository,
    [streamlit_app.py] (hotspot dashboard) and [streamlit1_app.py]
    (integrated hotspot + mobility dashboard), and the properties of their
    load / merge / filter / render / export pipeline. *)

From Stdlib Require Import List String Ascii ZArith QArith Qround Qabs Qminmax Qpower.
From Stdlib Require Import Bool Lia Lqa Sorted Permutation.
From Stdlib Require Import DecimalString.
From stdpp Require Import base gmap.
From ExtLib Require Import Structures.Monad Structures.MonadExc Data.Monads.EitherMonad.
Import ListNotations.

Local Open Scope string_scope.
Local Open Scope Q_scope.

(** Sequencing in the exception monad [exn + _]: a raised exception skips the
    rest of the block. *)
Notation "'try!' x := c 'in' k" := (bind c (fun x => k))
  (at level 10, x name, c at level 100, k at level 200).

(** ** Floating-point values

    Every column the scripts compute with is a pandas [float64] column.  A
    finite double is a rational number, and comparison of doubles is exact, so
    a cell is a rational or [NaN] (a missing CSV entry, or the null produced by
    a left merge).  Arithmetic rounds: the result of an operation is the exact
    result passed through the rounding function of the format. *)

Module Float.

(** A floating-point environment: how the exact result of an operation is
    rounded, and how the library accumulates the sum of a column (numpy sums
    pairwise; nothing below depends on the order). *)
Record format : Type := Format {
  rnd : Q -> Q;
  sum : list Q -> Q
}.

(** What the scripts need of the rounding: it is compatible with [==],
    monotone, idempotent, and exact on 0 and 1. *)
Record lawful (F : format) : Prop := Lawful {
  rnd_compat : forall x y, x == y -> rnd F x == rnd F y;
  rnd_mono : forall x y, x <= y -> rnd F x <= rnd F y;
  rnd_idem : forall x, rnd F (rnd F x) == rnd F x;
  rnd_0 : rnd F 0 == 0;
  rnd_1 : rnd F 1 == 1
}.

(** [None] is NaN. *)
Definition fval : Type := option Q.

(** A value of the format: rounding leaves it unchanged. *)
Definition representable (F : format) (x : Q) : Prop := rnd F x == x.

(** A decimal literal of the source text denotes the rounded value. *)
Definition lit (F : format) (d : Q) : Q := rnd F d.

(** [x >= t] of a column cell against a scalar; every comparison with NaN is
    false. *)
Definition ge (x : fval) (t : Q) : bool :=
  match x with
  | Some v => Qle_bool t v
  | None => false
  end.

(** [x * y], NaN-propagating. *)
Definition mul (F : format) (x y : fval) : fval :=
  match x, y with
  | Some a, Some b => Some (rnd F (a * b))
  | _, _ => None
  end.

Definition add (F : format) (x y : Q) : Q := rnd F (x + y).
Definition div (F : format) (x y : Q) : Q := rnd F (x / y).

(** The non-NaN cells of a column. *)
Fixpoint valid (col : list fval) : list Q :=
  match col with
  | [] => []
  | Some v :: rest => v :: valid rest
  | None :: rest => valid rest
  end.

(** [Series.mean()], which skips NaN and is NaN on a column without values. *)
Definition mean (F : format) (col : list fval) : fval :=
  match valid col with
  | [] => None
  | vs => Some (div F (sum F vs) (inject_Z (Z.of_nat (length vs))))
  end.

(** *** Exact arithmetic: every rational is a value of the format. *)

Definition unrounded : format := Format (fun x => x) (fun l => fold_left Qplus l 0).

(** *** IEEE-754 binary64, round to nearest, ties to even

    Python's [float].  The exponent range is taken unbounded: overflow to an
    infinity and gradual underflow are out of the reach of probabilities and
    geographic coordinates. *)

Definition pow2 (e : Z) : Q := 2 ^ e.

(** The nearest integer, the even one on a tie. *)
Definition rne (q : Q) : Z :=
  let f := Qfloor q in
  match Qcompare (q - inject_Z f) (1 # 2) with
  | Lt => f
  | Gt => (f + 1)%Z
  | Eq => if Z.even f then f else (f + 1)%Z
  end.

(** For [q > 0], the exponent [e] with [2^e <= q < 2^(e+1)]. *)
Definition binade (q : Q) : Z :=
  let e := (Z.log2 (Qnum q) - Z.log2 (Z.pos (Qden q)))%Z in
  if Qle_bool (pow2 e) q then e else (e - 1)%Z.

(** A positive number rounded to 53 significant bits. *)
Definition round_pos (q : Q) : Q :=
  let u := (binade q - 52)%Z in
  inject_Z (rne (q / pow2 u)) * pow2 u.

Definition rnd64 (q : Q) : Q :=
  match Qcompare q 0 with
  | Eq => 0
  | Gt => round_pos q
  | Lt => - round_pos (- q)
  end.

Definition binary64 : format :=
  Format rnd64 (fun l => fold_left (fun acc x => rnd64 (acc + x)) l 0).

End Float.

(** ** Exceptions and the geospatial library *)

Inductive exn : Type :=
| FileNotFoundError (path : string)
| ParserError (path : string)
| CRSError
| GEOSException
| KeyError (column : string).

Module Geo.

(** A point geometry, [(x, y) = (lon, lat)]. *)
Definition point : Type := (Q * Q)%type.

(** [(minx, miny, maxx, maxy)], the layout of [total_bounds]. *)
Definition bbox : Type := (Q * Q * Q * Q)%type.

(** The operations of GEOS / PROJ the scripts call.  They are library code;
    the scripts are modelled over any implementation of them.  The union of
    geometries can raise (GEOS refuses some invalid rings). *)
Record lib : Type := Lib {
  polygon : Type;
  within : point -> polygon -> bool;
  unary_union : list polygon -> exn + polygon;
  bounds : polygon -> bbox;
  transform : Z -> point -> point;
  transform_polygon : Z -> polygon -> polygon
}.

(** A [GeoDataFrame]: its coordinate reference system (an EPSG code, absent
    for a naive frame) and its rows. *)
Record frame (A : Type) : Type := Frame {
  crs : option Z;
  features : list A
}.
Arguments Frame {A} _ _.
Arguments crs {A} _.
Arguments features {A} _.

(** [g.to_crs(4326)]: raises on a frame without CRS, otherwise reprojects
    every row. *)
Definition to_crs {A : Type} (reproject : Z -> A -> A) (g : frame A) : exn + frame A :=
  match crs g with
  | None => inl CRSError
  | Some c =>
      if Z.eqb c 4326 then inr g
      else inr (Frame (Some 4326%Z) (List.map (reproject c) (features g)))
  end.

(** [boundary.dissolve().reset_index(drop=True)]: all rows are merged into a
    single row holding the union of their geometries; an empty frame stays
    empty.  The call raises when the union does. *)
Definition dissolve (G : lib) (b : frame (polygon G)) : exn + frame (polygon G) :=
  match features b with
  | [] => inr b
  | ps => try! u := unary_union G ps in ret (Frame (crs b) [u])
  end.

(** The property columns of a frame read from a file are those of its
    features.  A file without features gives a frame without property
    columns, and selecting one of them raises. *)
Definition column {A : Type} (name : string) (g : frame A) : exn + unit :=
  match features g with
  | [] => inl (KeyError name)
  | _ :: _ => inr tt
  end.

Definition join_bbox (a b : bbox) : bbox :=
  let '(ax0, ay0, ax1, ay1) := a in
  let '(bx0, by0, bx1, by1) := b in
  (Qmin ax0 bx0, Qmin ay0 by0, Qmax ax1 bx1, Qmax ay1 by1).

Definition point_bbox (p : point) : bbox := (fst p, snd p, fst p, snd p).

(** [total_bounds] of a non-empty list of boxes. *)
Definition total_bounds (b : bbox) (bs : list bbox) : bbox :=
  fold_left join_bbox bs b.

(** [gpd.sjoin(left, right, predicate="within", how="inner")]: one output row
    per pair (left row, right row) whose geometries satisfy the predicate, in
    left order.  The attribute columns of the right row that the join appends
    are not read by the scripts and are left out; the right frame is taken
    to have no column named like a column of the left one, which the join
    would rename on both sides. *)
Definition sjoin_within {A : Type} (G : lib) (geom : A -> point)
  (left : list A) (right : list (polygon G)) : list A :=
  flat_map
    (fun r => List.map (fun _ => r) (List.filter (within G (geom r)) right))
    left.

End Geo.

(** Python's [str.lower()] on ASCII text. *)
Definition lower_ascii (c : ascii) : ascii :=
  let n := nat_of_ascii c in
  if andb (Nat.leb 65 n) (Nat.leb n 90) then ascii_of_nat (n + 32) else c.

Fixpoint lower (s : string) : string :=
  match s with
  | EmptyString => EmptyString
  | String c rest => String (lower_ascii c) (lower rest)
  end.

Definition base : string := "../data/processed".

(** [DataFrame.to_csv(index=False)] and [read_csv] on text, for frames of
    type [A].  Library code, like [Geo.lib]; module [Text] below gives the
    text that pandas writes. *)
Record csv (A : Type) : Type := Csv {
  to_csv : A -> string;
  read_csv : string -> option A
}.
Arguments Csv {A} _ _.
Arguments to_csv {A} _ _.
Arguments read_csv {A} _ _.

(** [sort_values(key, ascending=False)]: decreasing keys, NaN keys last.
    pandas leaves the order of equal keys to its sorting algorithm; here they
    keep the order of the frame. *)
Definition precedes (x y : Float.fval) : bool :=
  match x, y with
  | Some a, Some b => Qle_bool b a
  | Some _, None => true
  | None, Some _ => false
  | None, None => true
  end.

Fixpoint insert_desc {A : Type} (key : A -> Float.fval) (r : A) (l : list A) : list A :=
  match l with
  | [] => [r]
  | x :: rest =>
      if precedes (key x) (key r) then x :: insert_desc key r rest
      else r :: l
  end.

Definition sort_desc {A : Type} (key : A -> Float.fval) (l : list A) : list A :=
  fold_left (fun acc r => insert_desc key r acc) l [].

(** The order of the sorted table: [x] may stand before [y]. *)
Definition ranked {A : Type} (key : A -> Float.fval) (x y : A) : Prop :=
  precedes (key x) (key y) = true.

(** The sum of a boolean series: the number of [True] entries. *)
Fixpoint count_true (mask : list bool) : nat :=
  match mask with
  | [] => O
  | true :: rest => S (count_true rest)
  | false :: rest => count_true rest
  end.

(** ** The hotspot dashboard, [streamlit_app.py] *)

Module Hotspot.
Import Float.

(** A feature of [<county>_hotspot_forecast.geojson], with the properties
    the scripts read and a point geometry. *)
Record point_row : Type := PointRow {
  cell_id : Z;
  p_hotspot_next : fval;
  geometry : Geo.point;
  properties : list string
}.

(** A row of [<county>_hotspot_forecast.csv]. *)
Record table_row : Type := TableRow {
  t_cell_id : Z;
  t_mid_date : string;
  t_p_hotspot_next : fval;
  t_others : list string
}.

(** What [gpd.read_file] and [pd.read_csv] return, or raise, for each path. *)
Record disk (G : Geo.lib) : Type := Disk {
  points_at : string -> exn + Geo.frame point_row;
  table_at : string -> exn + list table_row;
  boundary_at : string -> exn + Geo.frame (Geo.polygon G)
}.
Arguments points_at {G} _ _.
Arguments table_at {G} _ _.
Arguments boundary_at {G} _ _.

Definition loaded (G : Geo.lib) : Type :=
  (Geo.frame point_row * list table_row * option (Geo.frame (Geo.polygon G)))%type.

(** Lines 35-40: the value of the variable [boundary] after the [try]
    statement, given what reading the boundary file returns or raises.  The
    variable is [None] before the block (line 35).  Line 37 assigns it the
    reprojected frame, line 38 the dissolved one.  The handler is [pass]: it
    leaves the variable as the block left it, so that an exception raised by
    line 38 leaves the frame of line 37, with all its rows. *)
Definition try_boundary (G : Geo.lib) (read : exn + Geo.frame (Geo.polygon G))
  : option (Geo.frame (Geo.polygon G)) :=
  let boundary := None in
  match (try! b := read in Geo.to_crs (Geo.transform_polygon G) b) with
  | inl _ => boundary
  | inr b =>
      let boundary := Some b in
      match Geo.dissolve G b with
      | inl _ => boundary
      | inr b => Some b
      end
  end.

(** [load_data], lines 25-42.  The two required reads are outside the [try]
    statement. *)
Definition load_data (G : Geo.lib) (d : disk G) (county_name : string) : exn + loaded G :=
  let key := lower county_name in
  try! gdf_points := points_at d (base ++ "/" ++ key ++ "_hotspot_forecast.geojson") in
  try! df_table := table_at d (base ++ "/" ++ key ++ "_hotspot_forecast.csv") in
  let boundary := try_boundary G (boundary_at d (base ++ "/" ++ key ++ "_boundary.geojson")) in
  ret (gdf_points, df_table, boundary).

Inductive map_style : Type := Heatmap | GridCells.

Definition reproject (G : Geo.lib) (c : Z) (r : point_row) : point_row :=
  PointRow (cell_id r) (p_hotspot_next r) (Geo.transform G c (geometry r)) (properties r).

(** [boundary is not None and len(boundary)]: the rows of a usable boundary. *)
Definition parts {G : Geo.lib} (boundary : option (Geo.frame (Geo.polygon G)))
  : list (Geo.polygon G) :=
  match boundary with
  | Some b => Geo.features b
  | None => []
  end.

(** Lines 59-61: keep only the points inside the boundary, if there is one. *)
Definition spatial_filter (G : Geo.lib) (boundary : option (Geo.frame (Geo.polygon G)))
  (gdf : list point_row) : list point_row :=
  match parts boundary with
  | [] => gdf
  | ps => Geo.sjoin_within G geometry gdf ps
  end.

(** Line 64. *)
Definition gdf_view (threshold : Q) (gdf : list point_row) : list point_row :=
  List.filter (fun r => ge (p_hotspot_next r) threshold) gdf.

(** Line 150: [(gdf['p_hotspot_next'] >= threshold).sum()]. *)
Definition flagged (threshold : Q) (gdf : list point_row) : nat :=
  count_true (List.map (fun r => ge (p_hotspot_next r) threshold) gdf).

(** Lines 66-72: the extent the view is centred on. *)
Definition extent (F : format) (G : Geo.lib)
  (boundary : option (Geo.frame (Geo.polygon G))) (gdf : list point_row) : Geo.bbox :=
  match parts boundary with
  | p :: ps => Geo.total_bounds (Geo.bounds G p) (List.map (Geo.bounds G) ps)
  | [] =>
      match gdf with
      | r :: rs =>
          Geo.total_bounds (Geo.point_bbox (geometry r))
            (List.map (fun q => Geo.point_bbox (geometry q)) rs)
      | [] => (lit F 35, lit F 2, lit F 37, lit F 5)
      end
  end.

Definition midpoint (F : format) (lo hi : Q) : Q := div F (add F lo hi) 2.

(** Lines 73-74: [(center_lat, center_lon)]. *)
Definition center (F : format) (e : Geo.bbox) : Q * Q :=
  let '(minx, miny, maxx, maxy) := e in
  (midpoint F miny maxy, midpoint F minx maxx).

(** The [get_fill_color] expression of the grid layer, lines 104-120. *)
Definition get_fill_color (F : format) (p : fval) : list Z :=
  [ if ge p (lit F (80 # 100)) then 220
    else if ge p (lit F (60 # 100)) then 255
    else if ge p (lit F (40 # 100)) then 255 else 150;
    if ge p (lit F (80 # 100)) then 50
    else if ge p (lit F (60 # 100)) then 127
    else if ge p (lit F (40 # 100)) then 215 else 150;
    if ge p (lit F (80 # 100)) then 47
    else if ge p (lit F (60 # 100)) then 0
    else if ge p (lit F (40 # 100)) then 0 else 150;
    200 ]%Z.

(** The [colorRange] of the heatmap layer, lines 90-93. *)
Definition colorRange : list (list Z) :=
  [ [150; 150; 150; 160]; [210; 210; 120; 190];
    [255; 215; 0; 220]; [255; 127; 0; 235]; [220; 50; 47; 255] ]%Z.

(** The legend, lines 154-164: the [background] of each swatch and the text
    of its label. *)
Definition legend : list (string * string) :=
  [ ("#969696", "&lt; 0.40 Low");
    ("#FFD700", "0.40–0.59 Moderate");
    ("#FF7F00", "0.60–0.79 High");
    ("#DC3230", "≥ 0.80 Very High") ].

Inductive layer : Type :=
| HeatmapLayer (positions : list Geo.point) (weights : list fval) (colors : list (list Z))
| GridCellLayer (positions : list Geo.point) (fill : list (list Z))
| PolygonLayer (outline : list Z).

(** Lines 79-142.  Of the outline layer only the stroke colour is kept. *)
Definition layers (F : format) (G : Geo.lib) (mode : map_style)
  (boundary : option (Geo.frame (Geo.polygon G))) (view : list point_row) : list layer :=
  (match mode with
   | Heatmap =>
       HeatmapLayer (List.map geometry view) (List.map p_hotspot_next view) colorRange
   | GridCells =>
       GridCellLayer (List.map geometry view)
         (List.map (fun r => get_fill_color F (p_hotspot_next r)) view)
   end)
  :: match parts boundary with
     | [] => []
     | _ => [PolygonLayer [180; 180; 180]%Z]
     end.

(** What one run of the script puts on the page. *)
Record page : Type := Page {
  subheader : nat;
  deck : list layer;
  view_state : Q * Q;
  table : list table_row;
  download : string * string
}.

(** The script body after [load_data], lines 44-176.  Line 64 is the first
    to select a property column of the points. *)
Definition render (F : format) (G : Geo.lib) (C : csv (list table_row))
  (county : string) (threshold : Q) (mode : map_style) (l : loaded G) : exn + page :=
  let '(gdf, df, boundary) := l in
  try! file := Geo.to_crs (reproject G) gdf in
  let gdf := spatial_filter G boundary (Geo.features file) in
  try! present := Geo.column "p_hotspot_next" file in
  let view := gdf_view threshold gdf in
  ret (Page (flagged threshold gdf)
         (layers F G mode boundary view)
         (center F (extent F G boundary gdf))
         (firstn 20 (sort_desc t_p_hotspot_next df))
         (to_csv C df, lower county ++ "_hotspot_forecast.csv")).

Definition run (F : format) (G : Geo.lib) (C : csv (list table_row)) (d : disk G)
  (county : string) (threshold : Q) (mode : map_style) : exn + page :=
  try! l := load_data G d county in
  render F G C county threshold mode l.

End Hotspot.

(** ** The integrated dashboard, [streamlit1_app.py] *)

Module Combined.
Import Float.

(** A row of [<county>_hotspot_enhanced.csv].  [others] stands for the
    remaining columns of the file, which the script carries along untouched. *)
Record risk_row : Type := RiskRow {
  cell_id : Z;
  mid_date : string;
  p_hotspot_next : fval;
  anomaly_prob_norm : fval;
  others : list string
}.

(** A row of [gdf[["cell_id", "lon", "lat"]]]. *)
Record geo_row : Type := GeoRow {
  g_cell_id : Z;
  g_lon : Q;
  g_lat : Q
}.

(** A row of [df] after the merge. *)
Record merged_row : Type := MergedRow {
  risk : risk_row;
  lon : fval;
  lat : fval
}.

(** What [pd.read_csv] and [gpd.read_file] return, or raise, for each path. *)
Record disk (G : Geo.lib) : Type := Disk {
  table_at : string -> exn + list risk_row;
  points_at : string -> exn + Geo.frame Hotspot.point_row;
  boundary_at : string -> exn + Geo.frame (Geo.polygon G)
}.
Arguments table_at {G} _ _.
Arguments points_at {G} _ _.
Arguments boundary_at {G} _ _.

Definition loaded (G : Geo.lib) : Type :=
  (list risk_row * Geo.frame Hotspot.point_row * option (Geo.frame (Geo.polygon G)))%type.

(** [load_data], lines 32-50.  Here the handler of the [try] statement
    assigns [None], whichever line raised. *)
Definition load_data (G : Geo.lib) (d : disk G) (county_name : string) : exn + loaded G :=
  let key := lower county_name in
  try! df := table_at d (base ++ "/" ++ key ++ "_hotspot_enhanced.csv") in
  try! gdf := points_at d (base ++ "/" ++ key ++ "_hotspot_forecast.geojson") in
  try! boundary :=
    catch
      (try! b := boundary_at d (base ++ "/" ++ key ++ "_boundary.geojson") in
       try! b := Geo.to_crs (Geo.transform_polygon G) b in
       try! b := Geo.dissolve G b in
       ret (Some b))
      (fun _ => ret None) in
  ret (df, gdf, boundary).

(** Lines 59-60 and the column selection of line 62. *)
Definition lonlat (gdf : list Hotspot.point_row) : list geo_row :=
  List.map
    (fun r => GeoRow (Hotspot.cell_id r) (fst (Hotspot.geometry r)) (snd (Hotspot.geometry r)))
    gdf.

Definition matches (r : risk_row) (g : list geo_row) : list geo_row :=
  List.filter (fun q => Z.eqb (g_cell_id q) (cell_id r)) g.

(** [df.merge(gdf[["cell_id", "lon", "lat"]], on="cell_id", how="left")]:
    left rows in order, one output row per matching right row, and one row
    with null coordinates when nothing matches. *)
Definition merge (df : list risk_row) (g : list geo_row) : list merged_row :=
  flat_map
    (fun r =>
       match matches r g with
       | [] => [MergedRow r None None]
       | ms => List.map (fun q => MergedRow r (Some (g_lon q)) (Some (g_lat q))) ms
       end) df.

Inductive layer_mode : Type := HotspotOnly | MobilityOnly | CombinedRisk.

Definition hot (t : Q) (r : merged_row) : bool := ge (p_hotspot_next (risk r)) t.
Definition mob (t : Q) (r : merged_row) : bool := ge (anomaly_prob_norm (risk r)) t.

(** The boolean mask of lines 83-93. *)
Definition mask (m : layer_mode) (hotspot_threshold anomaly_threshold : Q)
  (r : merged_row) : bool :=
  match m with
  | HotspotOnly => hot hotspot_threshold r
  | MobilityOnly => mob anomaly_threshold r
  | CombinedRisk => hot hotspot_threshold r && mob anomaly_threshold r
  end.

Definition filtered (m : layer_mode) (hotspot_threshold anomaly_threshold : Q)
  (df : list merged_row) : list merged_row :=
  List.filter (mask m hotspot_threshold anomaly_threshold) df.

(** [df_view]: its rows and, when the column has been assigned, its
    [compound_risk] column. *)
Record view : Type := View {
  rows : list merged_row;
  compound_risk : option (list fval)
}.

(** Line 108, the product of the two columns. *)
Definition product (F : format) (v : list merged_row) : list fval :=
  List.map (fun r => mul F (p_hotspot_next (risk r)) (anomaly_prob_norm (risk r))) v.

(** Lines 81-109. *)
Definition df_view (F : format) (m : layer_mode) (hotspot_threshold anomaly_threshold : Q)
  (df : list merged_row) : view :=
  let kept := filtered m hotspot_threshold anomaly_threshold df in
  match m with
  | HotspotOnly | MobilityOnly => View kept None
  | CombinedRisk => View kept (Some (product F kept))
  end.

Definition weight_field (m : layer_mode) : string :=
  match m with
  | HotspotOnly => "p_hotspot_next"
  | MobilityOnly => "anomaly_prob_norm"
  | CombinedRisk => "compound_risk"
  end.

(** The column [get_weight] names, read off [df_view]. *)
Definition weights (m : layer_mode) (v : view) : list fval :=
  match m with
  | HotspotOnly => List.map (fun r => p_hotspot_next (risk r)) (rows v)
  | MobilityOnly => List.map (fun r => anomaly_prob_norm (risk r)) (rows v)
  | CombinedRisk =>
      match compound_risk v with
      | Some col => col
      | None => []
      end
  end.

(** Lines 111-112: [(center_lat, center_lon)], over the merged table. *)
Definition center (F : format) (df : list merged_row) : fval * fval :=
  (mean F (List.map lat df), mean F (List.map lon df)).

(** A row of [df_view[display_cols]]. *)
Record display_row : Type := DisplayRow {
  d_cell_id : Z;
  d_mid_date : string;
  d_p_hotspot_next : fval;
  d_anomaly_prob_norm : fval;
  d_compound_risk : option fval
}.

Definition display_cols (v : view) : list display_row :=
  match compound_risk v with
  | None =>
      List.map
        (fun r => DisplayRow (cell_id (risk r)) (mid_date (risk r))
                    (p_hotspot_next (risk r)) (anomaly_prob_norm (risk r)) None)
        (rows v)
  | Some col =>
      List.map
        (fun rc => DisplayRow (cell_id (risk (fst rc))) (mid_date (risk (fst rc)))
                     (p_hotspot_next (risk (fst rc))) (anomaly_prob_norm (risk (fst rc)))
                     (Some (snd rc)))
        (combine (rows v) col)
  end.

(** What one run of the script puts on the page. *)
Record page : Type := Page {
  deck : view;
  get_weight : string;
  deck_weights : list fval;
  view_state : fval * fval;
  table : list display_row;
  download : string * string
}.

(** The script body after [load_data], lines 53-160.  [boundary] is bound
    and never read again.  Line 62 selects the [cell_id] column of the
    points. *)
Definition render (F : format) (G : Geo.lib) (C : csv view) (county : string)
  (hotspot_threshold anomaly_threshold : Q) (m : layer_mode) (l : loaded G) : exn + page :=
  let '(df, gdf_geo, boundary) := l in
  try! gdf := Geo.to_crs (Hotspot.reproject G) gdf_geo in
  try! present := Geo.column "cell_id" gdf in
  let df := merge df (lonlat (Geo.features gdf)) in
  let v := df_view F m hotspot_threshold anomaly_threshold df in
  ret (Page v (weight_field m) (weights m v) (center F df)
         (firstn 30 (sort_desc d_p_hotspot_next (display_cols v)))
         (to_csv C v, county ++ "_filtered_combined_risk.csv")).

Definition run (F : format) (G : Geo.lib) (C : csv view) (d : disk G) (county : string)
  (hotspot_threshold anomaly_threshold : Q) (m : layer_mode) : exn + page :=
  try! l := load_data G d county in
  render F G C county hotspot_threshold anomaly_threshold m l.

(** The set of [cell_id] values of a frame. *)
Definition ids (v : list merged_row) : gset Z :=
  list_to_set (List.map (fun r => cell_id (risk r)) v).

End Combined.

(** ** Instances of the libraries

    An executable instance of each library interface, used to run the
    scripts on concrete files. *)

(** Plane geometry with unions of open axis-parallel boxes as polygons, and a
    single coordinate system.  A box whose corners are not in order is an
    invalid ring: no point is within it, and a union over it raises. *)
Module Boxes.

Definition Qlt_bool (x y : Q) : bool := negb (Qle_bool y x).

Definition valid (b : Geo.bbox) : bool :=
  let '(x0, y0, x1, y1) := b in
  Qlt_bool x0 x1 && Qlt_bool y0 y1.

Definition union (gs : list (list Geo.bbox)) : exn + list Geo.bbox :=
  if forallb (forallb valid) gs then inr (List.concat gs) else inl GEOSException.

Definition inside (p : Geo.point) (b : Geo.bbox) : bool :=
  let '(x0, y0, x1, y1) := b in
  Qlt_bool x0 (fst p) && Qlt_bool (fst p) x1 && Qlt_bool y0 (snd p) && Qlt_bool (snd p) y1.

Definition hull (g : list Geo.bbox) : Geo.bbox :=
  match g with
  | [] => (0, 0, 0, 0)
  | b :: bs => Geo.total_bounds b bs
  end.

Definition geometry : Geo.lib :=
  Geo.Lib (list Geo.bbox) (fun p g => existsb (inside p) g) union hull
    (fun _ p => p) (fun _ g => g).

End Boxes.

(** Comma-separated text, as [DataFrame.to_csv(index=False)] writes a frame
    and as [read_csv] reads it back: a header line with the column names and
    one line per row, the fields separated by commas, every line ended by a
    line feed (the line end of a POSIX host).  A cell of an integer column
    is written in decimal, a cell of a float column with the fewest digits
    that read back as the same double, NaN as the empty field, a cell of a
    text column as it is.  The text is read back with the column types of
    the frame that was written. *)
Module Text.

(** *** Numbers *)

Definition digit_char (d : N) : ascii := ascii_of_N (48 + d).

Definition digit_value (c : ascii) : option N :=
  let n := N_of_ascii c in
  if ((48 <=? n) && (n <=? 57))%N then Some (n - 48)%N else None.

(** The decimal digits of a natural number, the least significant one
    first onto [acc]. *)
Fixpoint digits (fuel : nat) (n : N) (acc : string) : string :=
  match fuel with
  | O => acc
  | S fuel' =>
      let acc' := String (digit_char (n mod 10)) acc in
      if (n <? 10)%N then acc' else digits fuel' (n / 10) acc'
  end.

Definition show_N (n : N) : string := digits (S (N.to_nat (N.log2 n))) n "".

(** An integer of an [int64] column. *)
Definition show_Z (z : Z) : string :=
  if (z <? 0)%Z then String "-" (show_N (Z.abs_N z)) else show_N (Z.abs_N z).

(** Reads digits off the front of a text: the number read so far, how many
    digits were read, and the text from the first character that is not a
    digit. *)
Fixpoint scan (s : string) (acc : N) (count : nat) : N * nat * string :=
  match s with
  | EmptyString => (acc, count, s)
  | String c rest =>
      match digit_value c with
      | Some d => scan rest (10 * acc + d) (S count)
      | None => (acc, count, s)
      end
  end.

(** A text that is digits throughout, and at least one. *)
Definition read_N (s : string) : option N :=
  match scan s 0 0 with
  | (n, S _, EmptyString) => Some n
  | _ => None
  end.

Definition read_Z (s : string) : option Z :=
  match read_N s, s with
  | Some n, _ => Some (Z.of_N n)
  | None, String c rest =>
      if Ascii.eqb c "-" then option_map (fun n => (- Z.of_N n)%Z) (read_N rest) else None
  | None, EmptyString => None
  end.

(** *** Floating-point numbers

    A double is written with the fewest digits that read back as the same
    double ([repr] of a Python [float]), and read as the double nearest to
    the decimal number written. *)

(** [m * 10^e]. *)
Definition decimal (m e : Z) : Q := inject_Z m * 10 ^ e.

(** For [q > 0], the exponent [k] with [10^k <= q < 10^(k+1)]. *)
Definition decade (q : Q) : Z :=
  let k := (Z.of_nat (String.length (show_N (Z.to_N (Qnum q))))
            - Z.of_nat (String.length (show_N (Npos (Qden q)))))%Z in
  if Qle_bool (10 ^ k) q then k else (k - 1)%Z.

Definition reads_as (x : Q) (m e : Z) : bool :=
  (0 <? m)%Z && Qeq_bool (Float.rnd64 (decimal m e)) x.

(** The decimal with [k] significant digits that reads back as [x], if
    there is one: one of the two such decimals around [x], the nearer one
    when both do. *)
Definition shortest_at (x : Q) (k : nat) : option (Z * Z) :=
  let e := (decade x - Z.of_nat k + 1)%Z in
  let lo := Qfloor (x / 10 ^ e) in
  let hi := (lo + 1)%Z in
  match reads_as x lo e, reads_as x hi e with
  | true, true =>
      if Qle_bool (x - decimal lo e) (decimal hi e - x) then Some (lo, e) else Some (hi, e)
  | true, false => Some (lo, e)
  | false, true => Some (hi, e)
  | false, false => None
  end.

(** The first of [k], [k+1], ... ([n] attempts) that gives a decimal. *)
Fixpoint shortest (x : Q) (k n : nat) : option (Z * Z) :=
  match n with
  | O => None
  | S n' =>
      match shortest_at x k with
      | Some r => Some r
      | None => shortest x (S k) n'
      end
  end.

(** The exact decimal expansion of a double. *)
Definition exact (x : Q) : Z * Z :=
  let u := (Float.binade x - 52)%Z in
  let m := Float.rne (x / Float.pow2 u) in
  if (0 <=? u)%Z then ((m * 2 ^ u)%Z, 0%Z) else ((m * 5 ^ (- u))%Z, u).

(** Trailing zeros of the digits go into the exponent. *)
Fixpoint strip (fuel : nat) (m e : Z) : Z * Z :=
  match fuel with
  | O => (m, e)
  | S fuel' =>
      if ((0 <? m) && (m mod 10 =? 0))%Z then strip fuel' (m / 10)%Z (e + 1)%Z else (m, e)
  end.

(** The digits and the exponent of a double [x > 0].  Seventeen digits
    always suffice for a double; the exact expansion stands behind them. *)
Definition shortest_decimal (x : Q) : Z * Z :=
  let '(m, e) :=
    match shortest x 1 17 with
    | Some r => r
    | None => exact x
    end in
  strip (Z.to_nat (Z.log2 m)) m e.

Fixpoint zeros (n : nat) : string :=
  match n with
  | O => EmptyString
  | S n' => String "0" (zeros n')
  end.

Fixpoint before (n : nat) (s : string) : string :=
  match n, s with
  | S n', String c rest => String c (before n' rest)
  | _, _ => EmptyString
  end.

Fixpoint after (n : nat) (s : string) : string :=
  match n, s with
  | S n', String c rest => after n' rest
  | _, _ => s
  end.

(** The exponent of the scientific notation: a sign and at least two
    digits. *)
Definition show_exponent (ex : Z) : string :=
  String (if (ex <? 0)%Z then "-" else "+")%char
    ((if (Z.abs ex <? 10)%Z then "0" else "") ++ show_N (Z.abs_N ex)).

(** [m * 10^e], [m > 0], in the notation Python chooses: with the decimal
    point after [decpt] digits when [-4 < decpt <= 16], else in scientific
    notation. *)
Definition show_decimal (m e : Z) : string :=
  let ds := show_N (Z.to_N m) in
  let n := String.length ds in
  let decpt := (Z.of_nat n + e)%Z in
  if ((-4 <? decpt) && (decpt <=? 16))%Z then
    if (decpt <=? 0)%Z then "0." ++ zeros (Z.to_nat (- decpt)) ++ ds
    else if (decpt <? Z.of_nat n)%Z then
      before (Z.to_nat decpt) ds ++ "." ++ after (Z.to_nat decpt) ds
    else ds ++ zeros (Z.to_nat decpt - n) ++ ".0"
  else
    before 1 ds
    ++ (match after 1 ds with
        | EmptyString => EmptyString
        | rest => "." ++ rest
        end)
    ++ "e" ++ show_exponent (decpt - 1).

Definition float_repr (x : Q) : string :=
  match Qcompare x 0 with
  | Eq => "0.0"
  | Gt => let '(m, e) := shortest_decimal x in show_decimal m e
  | Lt => let '(m, e) := shortest_decimal (- x) in String "-" (show_decimal m e)
  end.

Definition read_exponent (s : string) : option Z :=
  match s with
  | String c rest =>
      if Ascii.eqb c "-" then option_map (fun n => (- Z.of_N n)%Z) (read_N rest)
      else if Ascii.eqb c "+" then option_map Z.of_N (read_N rest)
      else option_map Z.of_N (read_N s)
  | EmptyString => None
  end.

(** The decimal number an unsigned text denotes: digits, a fraction, an
    exponent. *)
Definition read_decimal (s : string) : option Q :=
  let '(i, ni, r1) := scan s 0 0 in
  let '(m, nf, r2) :=
    match r1 with
    | String c r => if Ascii.eqb c "." then scan r i 0 else (i, O, r1)
    | EmptyString => (i, O, r1)
    end in
  if (ni + nf =? 0)%nat then None
  else
    match r2 with
    | EmptyString => Some (decimal (Z.of_N m) (- Z.of_nat nf))
    | String c r =>
        if (Ascii.eqb c "e" || Ascii.eqb c "E")%bool then
          option_map (fun ex => decimal (Z.of_N m) (ex - Z.of_nat nf)) (read_exponent r)
        else None
    end.

(** [float(s)], the round-trip converter of [read_csv]: the double nearest
    to the number written. *)
Definition float_parse (s : string) : option Q :=
  match read_decimal s, s with
  | Some q, _ => Some (Float.rnd64 q)
  | None, String c rest =>
      if Ascii.eqb c "-" then option_map (fun q => Float.rnd64 (- q)) (read_decimal rest)
      else None
  | None, EmptyString => None
  end.

(** A cell of a [float64] column; NaN is the empty field. *)
Definition show_cell (x : Float.fval) : string :=
  match x with
  | Some q => float_repr q
  | None => EmptyString
  end.

Definition read_cell (s : string) : option Float.fval :=
  match s with
  | EmptyString => Some None
  | _ => option_map Some (float_parse s)
  end.

(** *** Lines and fields

    A field that holds a comma, a double quote or a line feed is written
    between double quotes, with every double quote in it doubled; any other
    field is written as it is.  The versions of Python's writer differ on
    a field that holds a carriage return: older ones, as here, write it as
    it is, and the reader takes the carriage return for a line end; newer
    ones quote it.  The statements about this text leave such fields
    out. *)

Definition quote : ascii := ascii_of_nat 34.
Definition LF : ascii := ascii_of_nat 10.
Definition CR : ascii := ascii_of_nat 13.

Definition newline : string := String LF EmptyString.

Definition eol (c : ascii) : bool := Ascii.eqb c LF || Ascii.eqb c CR.

Definition special (c : ascii) : bool :=
  Ascii.eqb c "," || Ascii.eqb c quote || Ascii.eqb c LF.

Fixpoint any (f : ascii -> bool) (s : string) : bool :=
  match s with
  | EmptyString => false
  | String c rest => f c || any f rest
  end.

Fixpoint escape (s : string) : string :=
  match s with
  | EmptyString => EmptyString
  | String c rest =>
      if Ascii.eqb c quote then String quote (String quote (escape rest))
      else String c (escape rest)
  end.

Definition field (s : string) : string :=
  if any special s then String quote (escape s ++ String quote EmptyString) else s.

Definition line (fields : list string) : string :=
  String.concat "," (List.map field fields) ++ newline.

Definition unlines (ls : list (list string)) : string :=
  String.concat "" (List.map line ls).

(** The reader goes through the text character by character.  It is at the
    start of a field, inside a bare field, inside a quoted field, or just
    after a double quote inside a quoted field. *)
Inductive state : Type := FieldStart | Bare | Quoted | QuoteSeen.

(** The state of the reader: the characters of the field being read, the
    fields of the line being read, and the lines read. *)
Record reader : Type := Reader {
  st : state;
  cur : string;
  row : list string;
  done : list (list string)
}.

Definition snoc (s : string) (c : ascii) : string := s ++ String c EmptyString.

Definition end_field (r : reader) : reader :=
  Reader FieldStart EmptyString (row r ++ [cur r])%list (done r).

Definition end_line (r : reader) : reader :=
  Reader FieldStart EmptyString [] (done r ++ [row r ++ [cur r]])%list.

Definition separator (r : reader) (c : ascii) : option reader :=
  if Ascii.eqb c "," then Some (end_field r)
  else if eol c then Some (end_line r)
  else None.

(** One character.  A blank line is skipped; a character other than a
    separator after the closing quote of a field is an error. *)
Definition step (r : reader) (c : ascii) : option reader :=
  match st r with
  | FieldStart =>
      if Ascii.eqb c quote then Some (Reader Quoted EmptyString (row r) (done r))
      else if eol c then
        match row r with
        | [] => Some r
        | _ => Some (end_line r)
        end
      else if Ascii.eqb c "," then Some (end_field r)
      else Some (Reader Bare (String c EmptyString) (row r) (done r))
  | Bare =>
      match separator r c with
      | Some r' => Some r'
      | None => Some (Reader Bare (snoc (cur r) c) (row r) (done r))
      end
  | Quoted =>
      if Ascii.eqb c quote then Some (Reader QuoteSeen (cur r) (row r) (done r))
      else Some (Reader Quoted (snoc (cur r) c) (row r) (done r))
  | QuoteSeen =>
      if Ascii.eqb c quote then Some (Reader Quoted (snoc (cur r) quote) (row r) (done r))
      else separator r c
  end.

(** The end of the text: a last line without a line end counts, an open
    quote is an error. *)
Definition finish (r : reader) : option (list (list string)) :=
  match st r, row r with
  | FieldStart, [] => Some (done r)
  | Quoted, _ => None
  | _, _ => Some (done (end_line r))
  end.

Fixpoint feed (s : string) (r : reader) : option (list (list string)) :=
  match s with
  | EmptyString => finish r
  | String c rest =>
      match step r c with
      | Some r' => feed rest r'
      | None => None
      end
  end.

(** The lines of a text, each as the list of its fields. *)
Definition records (s : string) : option (list (list string)) :=
  feed s (Reader FieldStart EmptyString [] []).

(** The text consists of digits. *)
Definition numeral (s : string) : Prop :=
  any (fun c => match digit_value c with Some _ => false | None => true end) s = false.

(** The number a numeral denotes, continuing from [acc]. *)
Fixpoint value (acc : N) (s : string) : N :=
  match s with
  | EmptyString => acc
  | String c rest =>
      match digit_value c with
      | Some d => value (10 * acc + d) rest
      | None => acc
      end
  end.

(** A line without fields, or with one empty field: the reader skips it. *)
Definition blank (fs : list string) : bool :=
  match fs with
  | [] => true
  | [f] => String.eqb f ""
  | _ => false
  end.

(** A text that holds no carriage return. *)
Definition carriage_free (s : string) : Prop :=
  any (fun c => Ascii.eqb c CR) s = false.

(** A line that reads back as it was written, whichever the version of the
    writer. *)
Definition plain_line (fs : list string) : Prop :=
  blank fs = false /\ Forall carriage_free fs.

Fixpoint traverse {A B : Type} (f : A -> option B) (l : list A) : option (list B) :=
  match l with
  | [] => Some []
  | x :: rest =>
      match f x, traverse f rest with
      | Some y, Some ys => Some (y :: ys)
      | _, _ => None
      end
  end.

(** *** The forecast table

    [extra] names the further columns of the file, whose cells a row holds
    as [t_others]. *)

Definition table_header (extra : list string) : list string :=
  (["cell_id"; "mid_date"; "p_hotspot_next"] ++ extra)%list.

Definition show_table_row (r : Hotspot.table_row) : list string :=
  show_Z (Hotspot.t_cell_id r) :: Hotspot.t_mid_date r
  :: show_cell (Hotspot.t_p_hotspot_next r) :: Hotspot.t_others r.

Definition read_table_row (f : list string) : option Hotspot.table_row :=
  match f with
  | c :: d :: p :: rest =>
      match read_Z c, read_cell p with
      | Some c', Some p' => Some (Hotspot.TableRow c' d p' rest)
      | _, _ => None
      end
  | _ => None
  end.

Definition table_with (extra : list string) : csv (list Hotspot.table_row) :=
  Csv
    (fun df => unlines (table_header extra :: List.map show_table_row df))
    (fun s =>
       match records s with
       | Some (h :: body) =>
           if List.list_eq_dec string_dec h (table_header extra)
           then traverse read_table_row body
           else None
       | _ => None
       end).

(** The forecast table as text, for a file without further columns. *)
Definition table : csv (list Hotspot.table_row) := table_with [].

(** *** The filtered view

    The columns of the enhanced table, then [lon] and [lat], which the merge
    appends, then [compound_risk] when the view has that column. *)

Definition view_header (extra : list string) (compound : bool) : list string :=
  (["cell_id"; "mid_date"; "p_hotspot_next"; "anomaly_prob_norm"] ++ extra
   ++ ["lon"; "lat"] ++ (if compound then ["compound_risk"] else []))%list.

Definition show_view_row (r : Combined.merged_row) (c : option Float.fval) : list string :=
  ([ show_Z (Combined.cell_id (Combined.risk r)); Combined.mid_date (Combined.risk r);
     show_cell (Combined.p_hotspot_next (Combined.risk r));
     show_cell (Combined.anomaly_prob_norm (Combined.risk r)) ]
   ++ Combined.others (Combined.risk r)
   ++ [show_cell (Combined.lon r); show_cell (Combined.lat r)]
   ++ match c with
      | Some x => [show_cell x]
      | None => []
      end)%list.

(** A line of the body.  The last two fields, or three with
    [compound_risk], are the columns the script appended; the fields between
    them and the first four belong to the further columns. *)
Definition read_view_row (compound : bool) (f : list string)
  : option (Combined.merged_row * option Float.fval) :=
  match f with
  | c :: d :: p :: a :: rest =>
      let k := (length rest - (if compound then 3 else 2))%nat in
      match read_Z c, read_cell p, read_cell a, skipn k rest with
      | Some c', Some p', Some a', x :: y :: last =>
          match read_cell x, read_cell y with
          | Some x', Some y' =>
              let r := Combined.MergedRow (Combined.RiskRow c' d p' a' (firstn k rest)) x' y' in
              match compound, last with
              | false, [] => Some (r, None)
              | true, [z] => option_map (fun z' => (r, Some z')) (read_cell z)
              | _, _ => None
              end
          | _, _ => None
          end
      | _, _, _, _ => None
      end
  | _ => None
  end.

Definition show_view (extra : list string) (v : Combined.view) : string :=
  match Combined.compound_risk v with
  | None =>
      unlines (view_header extra false
               :: List.map (fun r => show_view_row r None) (Combined.rows v))
  | Some col =>
      unlines (view_header extra true
               :: List.map (fun rc => show_view_row (fst rc) (Some (snd rc)))
                    (combine (Combined.rows v) col))
  end.

Definition read_view (extra : list string) (s : string) : option Combined.view :=
  match records s with
  | Some (h :: body) =>
      if List.list_eq_dec string_dec h (view_header extra false) then
        option_map (fun rs => Combined.View (List.map fst rs) None)
          (traverse (read_view_row false) body)
      else if List.list_eq_dec string_dec h (view_header extra true) then
        match traverse (read_view_row true) body with
        | Some rs =>
            option_map (fun col => Combined.View (List.map fst rs) (Some col))
              (traverse snd rs)
        | None => None
        end
      else None
  | _ => None
  end.

Definition view_with (extra : list string) : csv Combined.view :=
  Csv (show_view extra) (read_view extra).

(** The filtered view as text, for a table without further columns. *)
Definition view : csv Combined.view := view_with [].

(** *** Frames that hold the same values

    A number read back is the number written, possibly as another
    fraction. *)

Definition same_cell (x y : Float.fval) : Prop :=
  match x, y with
  | Some a, Some b => a == b
  | None, None => True
  | _, _ => False
  end.

Definition same_table_row (r r' : Hotspot.table_row) : Prop :=
  Hotspot.t_cell_id r = Hotspot.t_cell_id r' /\
  Hotspot.t_mid_date r = Hotspot.t_mid_date r' /\
  same_cell (Hotspot.t_p_hotspot_next r) (Hotspot.t_p_hotspot_next r') /\
  Hotspot.t_others r = Hotspot.t_others r'.

Definition same_row (r r' : Combined.merged_row) : Prop :=
  Combined.cell_id (Combined.risk r) = Combined.cell_id (Combined.risk r') /\
  Combined.mid_date (Combined.risk r) = Combined.mid_date (Combined.risk r') /\
  same_cell (Combined.p_hotspot_next (Combined.risk r))
    (Combined.p_hotspot_next (Combined.risk r')) /\
  same_cell (Combined.anomaly_prob_norm (Combined.risk r))
    (Combined.anomaly_prob_norm (Combined.risk r')) /\
  Combined.others (Combined.risk r) = Combined.others (Combined.risk r') /\
  same_cell (Combined.lon r) (Combined.lon r') /\
  same_cell (Combined.lat r) (Combined.lat r').

Definition same_view (v v' : Combined.view) : Prop :=
  Forall2 same_row (Combined.rows v) (Combined.rows v') /\
  match Combined.compound_risk v, Combined.compound_risk v' with
  | Some col, Some col' => Forall2 same_cell col col'
  | None, None => True
  | _, _ => False
  end.

(** A cell of a [float64] column holds a double or NaN. *)
Definition double (x : Float.fval) : Prop :=
  match x with
  | Some q => Float.representable Float.binary64 q
  | None => True
  end.

(** A row of the forecast table: its number is a double or NaN, and its
    text cells hold no carriage return. *)
Definition table_cells (r : Hotspot.table_row) : Prop :=
  double (Hotspot.t_p_hotspot_next r) /\
  carriage_free (Hotspot.t_mid_date r) /\
  Forall carriage_free (Hotspot.t_others r).

(** The same for a row of the merged table. *)
Definition view_cells (r : Combined.merged_row) : Prop :=
  double (Combined.p_hotspot_next (Combined.risk r)) /\
  double (Combined.anomaly_prob_norm (Combined.risk r)) /\
  double (Combined.lon r) /\ double (Combined.lat r) /\
  carriage_free (Combined.mid_date (Combined.risk r)) /\
  Forall carriage_free (Combined.others (Combined.risk r)).

End Text.

(** ** A small county

    Four cells, with the probabilities of the worked example of the
    documentation, as doubles. *)
Module Wajir.

(** The double denoted by a decimal. *)
Definition d (x : Q) : Q := Float.lit Float.binary64 x.

Definition points : Geo.frame Hotspot.point_row :=
  Geo.Frame (Some 4326%Z)
    [ Hotspot.PointRow 1 (Some (d 0.9)) (39, 1) [];
      Hotspot.PointRow 2 (Some (d 0.7)) (39, 1) [];
      Hotspot.PointRow 3 (Some (d 0.5)) (40, 2) [];
      Hotspot.PointRow 4 (Some (d 0.2)) (42, 4) [] ].

Definition forecast : list Hotspot.table_row :=
  [ Hotspot.TableRow 1 "2024-01-01" (Some (d 0.9)) [];
    Hotspot.TableRow 2 "2024-01-01" (Some (d 0.7)) [];
    Hotspot.TableRow 3 "2024-01-01" (Some (d 0.5)) [];
    Hotspot.TableRow 4 "2024-01-01" (Some (d 0.2)) [] ].

Definition enhanced : list Combined.risk_row :=
  [ Combined.RiskRow 1 "2024-01-01" (Some (d 0.9)) (Some (d 0.8)) [];
    Combined.RiskRow 2 "2024-01-01" (Some (d 0.7)) (Some (d 0.3)) [];
    Combined.RiskRow 3 "2024-01-01" (Some (d 0.5)) (Some (d 0.9)) [];
    Combined.RiskRow 4 "2024-01-01" (Some (d 0.2)) (Some (d 0.1)) [] ].

(** Two boxes that overlap around the first three cells. *)
Definition boundary : Geo.frame (Geo.polygon Boxes.geometry) :=
  Geo.Frame (Some 4326%Z) [ [(38, 0, 41, 3)]; [(38.5, 0.5, 41, 3)] ].

Definition at_path {A : Type} (path : string) (content : A) (p : string) : exn + A :=
  if String.eqb p path then inr content else inl (FileNotFoundError p).

Definition missing {A : Type} (p : string) : exn + A := inl (FileNotFoundError p).

Definition malformed {A : Type} (p : string) : exn + A := inl (ParserError p).

Definition hotspot_disk (with_boundary : bool) : Hotspot.disk Boxes.geometry :=
  Hotspot.Disk Boxes.geometry
    (at_path "../data/processed/wajir_hotspot_forecast.geojson" points)
    (at_path "../data/processed/wajir_hotspot_forecast.csv" forecast)
    (if with_boundary then at_path "../data/processed/wajir_boundary.geojson" boundary
     else missing).

Definition combined_disk (with_boundary : bool) : Combined.disk Boxes.geometry :=
  Combined.Disk Boxes.geometry
    (at_path "../data/processed/wajir_hotspot_enhanced.csv" enhanced)
    (at_path "../data/processed/wajir_hotspot_forecast.geojson" points)
    (if with_boundary then at_path "../data/processed/wajir_boundary.geojson" boundary
     else missing).

(** A boundary file with the same two parts and a third one whose ring is
    invalid. *)
Definition invalid_boundary : Geo.frame (Geo.polygon Boxes.geometry) :=
  Geo.Frame (Some 4326%Z) [ [(38, 0, 41, 3)]; [(38.5, 0.5, 41, 3)]; [(40, 2, 39, 1)] ].

Definition invalid_boundary_disk : Hotspot.disk Boxes.geometry :=
  Hotspot.Disk Boxes.geometry
    (at_path "../data/processed/wajir_hotspot_forecast.geojson" points)
    (at_path "../data/processed/wajir_hotspot_forecast.csv" forecast)
    (at_path "../data/processed/wajir_boundary.geojson" invalid_boundary).

(** A disk whose boundary file is not valid GeoJSON. *)
Definition malformed_boundary_disk : Hotspot.disk Boxes.geometry :=
  Hotspot.Disk Boxes.geometry
    (at_path "../data/processed/wajir_hotspot_forecast.geojson" points)
    (at_path "../data/processed/wajir_hotspot_forecast.csv" forecast)
    malformed.

(** A disk without the enhanced table. *)
Definition no_table_disk : Combined.disk Boxes.geometry :=
  Combined.Disk Boxes.geometry
    missing
    (at_path "../data/processed/wajir_hotspot_forecast.geojson" points)
    (at_path "../data/processed/wajir_boundary.geojson" boundary).

(** A disk whose point file has no features. *)
Definition no_features_disk : Combined.disk Boxes.geometry :=
  Combined.Disk Boxes.geometry
    (at_path "../data/processed/wajir_hotspot_enhanced.csv" enhanced)
    (at_path "../data/processed/wajir_hotspot_forecast.geojson" (Geo.Frame (Some 4326%Z) []))
    (at_path "../data/processed/wajir_boundary.geojson" boundary).

(** A cell of the table that has no geometry. *)
Definition orphan : Combined.risk_row :=
  Combined.RiskRow 9 "2024-01-01" (Some (d 0.4)) None [].

Definition with_orphan : list Combined.risk_row := (enhanced ++ [orphan])%list.

Definition coordinates : list Combined.geo_row :=
  Combined.lonlat (Geo.features points).

Definition merged : list Combined.merged_row := Combined.merge enhanced coordinates.

(** A table in which one cell is reported at two dates. *)
Definition two_dates : list Combined.risk_row :=
  [ Combined.RiskRow 1 "2024-01-01" (Some (d 0.9)) (Some (d 0.1)) [];
    Combined.RiskRow 1 "2024-01-17" (Some (d 0.1)) (Some (d 0.9)) [] ].

End Wajir.

(** ** Colours of the legend *)

Module Css.

Definition hex_digit (c : ascii) : option Z :=
  let n := Z.of_nat (nat_of_ascii c) in
  if (48 <=? n)%Z && (n <=? 57)%Z then Some (n - 48)%Z
  else if (65 <=? n)%Z && (n <=? 70)%Z then Some (n - 55)%Z
  else if (97 <=? n)%Z && (n <=? 102)%Z then Some (n - 87)%Z
  else None.

Definition hex_byte (hi lo : ascii) : option Z :=
  match hex_digit hi, hex_digit lo with
  | Some h, Some l => Some (16 * h + l)%Z
  | _, _ => None
  end.

(** The red, green and blue components of a [#RRGGBB] colour. *)
Definition rgb (s : string) : option (list Z) :=
  match s with
  | String "#" (String r1 (String r0 (String g1 (String g0 (String b1 (String b0 EmptyString)))))) =>
      match hex_byte r1 r0, hex_byte g1 g0, hex_byte b1 b0 with
      | Some r, Some g, Some b => Some [r; g; b]
      | _, _, _ => None
      end
  | _ => None
  end.

End Css.

(** The four risk classes of the legend, in its words: below 0.40, from 0.40,
    from 0.60, from 0.80. *)
Inductive bucket : Type := Low | Moderate | High | VeryHigh.

Definition spec_bucket (F : Float.format) (p : Float.fval) : bucket :=
  if Float.ge p (Float.lit F 0.80) then VeryHigh
  else if Float.ge p (Float.lit F 0.60) then High
  else if Float.ge p (Float.lit F 0.40) then Moderate
  else Low.

(** The swatch the legend shows for a class. *)
Definition legend_rgb (b : bucket) : option (list Z) :=
  let entry :=
    match b with
    | Low => nth_error Hotspot.legend 0
    | Moderate => nth_error Hotspot.legend 1
    | High => nth_error Hotspot.legend 2
    | VeryHigh => nth_error Hotspot.legend 3
    end in
  match entry with
  | Some (swatch, _) => Css.rgb swatch
  | None => None
  end.

(** ** The coordinate extent of a set of points, in the words of the
    documentation: the least and greatest longitude and latitude. *)

Definition minx (e : Geo.bbox) : Q := fst (fst (fst e)).
Definition miny (e : Geo.bbox) : Q := snd (fst (fst e)).
Definition maxx (e : Geo.bbox) : Q := snd (fst e).
Definition maxy (e : Geo.bbox) : Q := snd e.

Definition spec_extent (e : Geo.bbox) (pts : list Geo.point) : Prop :=
  (forall p, In p pts ->
     minx e <= fst p /\ fst p <= maxx e /\ miny e <= snd p /\ snd p <= maxy e) /\
  (exists p, In p pts /\ fst p = minx e) /\
  (exists p, In p pts /\ fst p = maxx e) /\
  (exists p, In p pts /\ snd p = miny e) /\
  (exists p, In p pts /\ snd p = maxy e).

(** The boundary a county ends up with in the integrated dashboard: not
    available as soon as reading, reprojecting or dissolving the boundary
    file raises. *)
Definition boundary_of (G : Geo.lib) (read : exn + Geo.frame (Geo.polygon G))
  : option (Geo.frame (Geo.polygon G)) :=
  match read with
  | inl _ => None
  | inr b =>
      match Geo.to_crs (Geo.transform_polygon G) b with
      | inl _ => None
      | inr b' =>
          match Geo.dissolve G b' with
          | inl _ => None
          | inr b'' => Some b''
          end
      end
  end.

(** * Properties *)

(** ** Comparisons and filters *)

Module FloatFacts.
Import Float.

Lemma ge_true (x : fval) (t : Q) :
  ge x t = true <-> exists v, x = Some v /\ t <= v.
Proof.
  destruct x as [v|]; simpl.
  - rewrite Qle_bool_iff. split.
    + intros H. exists v. split; [reflexivity | exact H].
    + intros (w & E & H). injection E as ->. exact H.
  - split; [discriminate | intros (w & E & _); discriminate].
Qed.

Lemma ge_nan (t : Q) : ge None t = false.
Proof. reflexivity. Qed.

(** Lowering the threshold keeps what was kept. *)
Lemma ge_weaken (x : fval) (t t' : Q) :
  t <= t' -> ge x t' = true -> ge x t = true.
Proof.
  intros Ht. rewrite !ge_true. intros (v & E & H).
  exists v. split; [exact E | apply Qle_trans with t'; assumption].
Qed.

(** The comparison is inclusive. *)
Lemma ge_boundary (v t : Q) : v == t -> ge (Some v) t = true.
Proof.
  intros E. simpl. apply Qle_bool_iff. rewrite E. apply Qle_refl.
Qed.

Lemma mul_bounds (F : format) (x y : Q) :
  lawful F ->
  representable F x -> representable F y ->
  0 <= x <= 1 -> 0 <= y <= 1 ->
  0 <= rnd F (x * y) <= 1 /\ rnd F (x * y) <= Qmin x y.
Proof.
  unfold representable. intros HF Rx Ry [Hx0 Hx1] [Hy0 Hy1].
  assert (P0 : 0 <= x * y) by nra.
  assert (Px : x * y <= x) by nra.
  assert (Py : x * y <= y) by nra.
  assert (Lx : rnd F (x * y) <= x).
  { rewrite <- Rx at 2. apply (rnd_mono F HF). exact Px. }
  assert (Ly : rnd F (x * y) <= y).
  { rewrite <- Ry at 2. apply (rnd_mono F HF). exact Py. }
  repeat split.
  - rewrite <- (rnd_0 F HF). apply (rnd_mono F HF). exact P0.
  - apply Qle_trans with x; assumption.
  - apply Q.min_glb; assumption.
Qed.

Lemma unrounded_lawful : lawful unrounded.
Proof.
  constructor; simpl; intros; try assumption; reflexivity.
Qed.

(** *** Rounding to binary64 *)

Lemma pow2_pos e : 0 < pow2 e.
Proof. apply Qpower_0_lt. reflexivity. Qed.

Lemma pow2_nz e : ~ pow2 e == 0.
Proof. intros H. pose proof (pow2_pos e) as P. rewrite H in P. discriminate. Qed.

Lemma pow2_add a b : pow2 (a + b) == pow2 a * pow2 b.
Proof. apply Qpower_plus. discriminate. Qed.

Lemma pow2_le a b : (a <= b)%Z -> pow2 a <= pow2 b.
Proof. intros H. apply Qpower_le_compat_l; [exact H | discriminate]. Qed.

Lemma pow2_lt_inv a b : pow2 a < pow2 b -> (a < b)%Z.
Proof. intros H. apply (Qpower_lt_compat_l_inv 2); [exact H | reflexivity]. Qed.

Lemma pow2_inject k : (0 <= k)%Z -> inject_Z (2 ^ k) == pow2 k.
Proof. intros H. apply (Zpower_Qpower 2 k H). Qed.

Lemma rne_cases q : 
  let f := Qfloor q in
  (rne q = f /\ q - inject_Z f <= 1#2 ) \/ (rne q = (f + 1)%Z /\ 1#2 <= q - inject_Z f).
Proof.
  intros f. unfold rne. fold f.
  destruct (Qcompare (q - inject_Z f) (1#2)) eqn:E.
  - apply Qeq_alt in E. destruct (Z.even f); [left | right]; split; auto; rewrite E; apply Qle_refl.
  - apply Qlt_alt in E. left. split; auto. apply Qlt_le_weak. exact E.
  - apply Qgt_alt in E. right. split; auto. apply Qlt_le_weak. exact E.
Qed.

Lemma rne_inject z : rne (inject_Z z) = z.
Proof.
  unfold rne. rewrite Qfloor_Z.
  assert (E : Qcompare (inject_Z z - inject_Z z) (1 # 2) = Lt).
  { apply Qlt_alt. assert (E0 : inject_Z z - inject_Z z == 0) by ring.
    rewrite E0. reflexivity. }
  rewrite E. reflexivity.
Qed.

Lemma rne_comp a b : a == b -> rne a = rne b.
Proof.
  intros E. unfold rne. rewrite (Qfloor_comp a b E).
  assert (E' : a - inject_Z (Qfloor b) == b - inject_Z (Qfloor b)) by (rewrite E; reflexivity).
  rewrite E'. reflexivity.
Qed.

Lemma rne_mono a b : a <= b -> (rne a <= rne b)%Z.
Proof.
  intros H. pose proof (Qfloor_resp_le a b H) as Hf.
  destruct (Z.eq_dec (Qfloor a) (Qfloor b)) as [Ef|Nf].
  - unfold rne. rewrite <- Ef. set (f := Qfloor a).
    assert (Hr : a - inject_Z f <= b - inject_Z f).
    { unfold Qminus. apply Qplus_le_compat; [exact H | apply Qle_refl]. }
    set (ra := a - inject_Z f) in *. set (rb := b - inject_Z f) in *.
    clearbody ra rb.
    destruct (Qcompare_spec ra (1 # 2)) as [Ea|Ea|Ea];
      destruct (Qcompare_spec rb (1 # 2)) as [Eb|Eb|Eb];
      destruct (Z.even f); try lia; exfalso; lra.
  - destruct (rne_cases a) as [[-> _]|[-> _]], (rne_cases b) as [[-> _]|[-> _]]; lia.
Qed.

Lemma binade_spec q : 0 < q -> pow2 (binade q) <= q /\ q < pow2 (binade q + 1).
Proof.
  intros Hq. destruct q as [n d]. unfold binade. cbn [Qnum Qden].
  assert (Hn : (0 < n)%Z).
  { unfold Qlt in Hq. simpl in Hq. lia. }
  set (ln := Z.log2 n). set (ld := Z.log2 (Z.pos d)).
  pose proof (Z.log2_spec n Hn) as [Ln Un]. fold ln in Ln, Un.
  pose proof (Z.log2_spec (Z.pos d) eq_refl) as [Ld Ud]. fold ld in Ld, Ud.
  assert (Hln : (0 <= ln)%Z) by apply Z.log2_nonneg.
  assert (Hld : (0 <= ld)%Z) by apply Z.log2_nonneg.
  assert (Eq : n # d == inject_Z n / inject_Z (Z.pos d)).
  { rewrite (Qmake_Qdiv n d). reflexivity. }
  assert (Dpos : 0 < inject_Z (Z.pos d)) by reflexivity.
  (* upper bound: q < 2^(ln - ld + 1) *)
  assert (Up : n # d < pow2 (ln - ld + 1)).
  { rewrite Eq. apply Qlt_shift_div_r; [exact Dpos|].
    apply Qlt_le_trans with (inject_Z (2 ^ Z.succ ln)).
    - rewrite <- Zlt_Qlt. exact Un.
    - rewrite pow2_inject by lia.
      apply Qle_trans with (pow2 (ln - ld + 1) * inject_Z (2 ^ ld)).
      + rewrite pow2_inject by lia. rewrite <- pow2_add.
        apply pow2_le. lia.
      + apply Qmult_le_l; [apply pow2_pos|]. rewrite <- Zle_Qle. exact Ld. }
  assert (Lo : pow2 (ln - ld - 1) <= n # d).
  { rewrite Eq. apply Qle_shift_div_l; [exact Dpos|].
    apply Qle_trans with (inject_Z (2 ^ ln)); [| rewrite <- Zle_Qle; exact Ln].
    rewrite pow2_inject by lia.
    apply Qle_trans with (pow2 (ln - ld - 1) * inject_Z (2 ^ Z.succ ld)).
    - apply Qmult_le_l; [apply pow2_pos|]. rewrite <- Zle_Qle. lia.
    - rewrite pow2_inject by lia. rewrite <- pow2_add. apply pow2_le. lia. }
  destruct (Qle_bool (pow2 (ln - ld)) (n # d)) eqn:E.
  - apply Qle_bool_iff in E. split; [exact E | exact Up].
  - split; [exact Lo|].
    replace (ln - ld - 1 + 1)%Z with (ln - ld)%Z by lia.
    apply Qnot_le_lt. intros C. apply Qle_bool_iff in C. congruence.
Qed.

Lemma binade_unique q e : 0 < q -> pow2 e <= q -> q < pow2 (e + 1) -> binade q = e.
Proof.
  intros Hq Lo Up. destruct (binade_spec q Hq) as [Lo' Up'].
  assert (H1 : (e < binade q + 1)%Z).
  { apply pow2_lt_inv. apply Qle_lt_trans with q; assumption. }
  assert (H2 : (binade q < e + 1)%Z).
  { apply pow2_lt_inv. apply Qle_lt_trans with q; assumption. }
  lia.
Qed.

Lemma binade_comp x y : 0 < x -> x == y -> binade x = binade y.
Proof.
  intros Hx E. symmetry. assert (Hy : 0 < y) by (rewrite <- E; exact Hx).
  destruct (binade_spec x Hx) as [Lo Up].
  apply binade_unique; [exact Hy | rewrite <- E; exact Lo | rewrite <- E; exact Up].
Qed.

Lemma pow2_split e : pow2 e == inject_Z (2 ^ 52) * pow2 (e - 52).
Proof.
  rewrite pow2_inject by lia. rewrite <- pow2_add.
  replace (52 + (e - 52))%Z with e by lia. reflexivity.
Qed.

Lemma pow2_split' e : pow2 (e + 1) == inject_Z (2 ^ 53) * pow2 (e - 52).
Proof.
  rewrite pow2_inject by lia. rewrite <- pow2_add.
  replace (53 + (e - 52))%Z with (e + 1)%Z by lia. reflexivity.
Qed.

Lemma scaled_bounds q :
  0 < q ->
  inject_Z (2 ^ 52) <= q / pow2 (binade q - 52) /\
  q / pow2 (binade q - 52) < inject_Z (2 ^ 53).
Proof.
  intros Hq. destruct (binade_spec q Hq) as [Lo Up]. split.
  - apply Qle_shift_div_l; [apply pow2_pos|]. rewrite <- pow2_split. exact Lo.
  - apply Qlt_shift_div_r; [apply pow2_pos|]. rewrite <- pow2_split'. exact Up.
Qed.

Lemma mantissa_bounds q :
  0 < q -> (2 ^ 52 <= rne (q / pow2 (binade q - 52)) <= 2 ^ 53)%Z.
Proof.
  intros Hq. destruct (scaled_bounds q Hq) as [Lo Up]. split.
  - rewrite <- (rne_inject (2 ^ 52)). apply rne_mono. exact Lo.
  - rewrite <- (rne_inject (2 ^ 53)). apply rne_mono. apply Qlt_le_weak. exact Up.
Qed.

Lemma round_pos_bounds q :
  0 < q -> pow2 (binade q) <= round_pos q /\ round_pos q <= pow2 (binade q + 1).
Proof.
  intros Hq. destruct (mantissa_bounds q Hq) as [Lo Up]. unfold round_pos. split.
  - rewrite (pow2_split (binade q)).
    apply Qmult_le_compat_r; [| apply Qlt_le_weak, pow2_pos].
    rewrite <- Zle_Qle. exact Lo.
  - rewrite (pow2_split' (binade q)).
    apply Qmult_le_compat_r; [| apply Qlt_le_weak, pow2_pos].
    rewrite <- Zle_Qle. exact Up.
Qed.

Lemma round_pos_pos q : 0 < q -> 0 < round_pos q.
Proof.
  intros Hq. apply Qlt_le_trans with (pow2 (binade q)); [apply pow2_pos|].
  apply round_pos_bounds. exact Hq.
Qed.

Lemma binade_mono x y : 0 < x -> x <= y -> (binade x <= binade y)%Z.
Proof.
  intros Hx Hxy. assert (Hy : 0 < y) by (apply Qlt_le_trans with x; assumption).
  destruct (binade_spec x Hx) as [Lo _]. destruct (binade_spec y Hy) as [_ Up].
  assert (H : (binade x < binade y + 1)%Z).
  { apply pow2_lt_inv. apply Qle_lt_trans with x; [exact Lo|].
    apply Qle_lt_trans with y; assumption. }
  lia.
Qed.

Lemma round_pos_mono x y : 0 < x -> x <= y -> round_pos x <= round_pos y.
Proof.
  intros Hx Hxy. assert (Hy : 0 < y) by (apply Qlt_le_trans with x; assumption).
  pose proof (binade_mono x y Hx Hxy) as Hb.
  destruct (Z.eq_dec (binade x) (binade y)) as [E|N].
  - unfold round_pos. rewrite E.
    apply Qmult_le_compat_r; [| apply Qlt_le_weak, pow2_pos].
    rewrite <- Zle_Qle. apply rne_mono.
    apply Qmult_le_compat_r; [exact Hxy|].
    apply Qlt_le_weak, Qinv_lt_0_compat, pow2_pos.
  - apply Qle_trans with (pow2 (binade x + 1)); [apply round_pos_bounds; exact Hx|].
    apply Qle_trans with (pow2 (binade y)); [apply pow2_le; lia|].
    apply round_pos_bounds. exact Hy.
Qed.

Lemma round_pos_comp x y : 0 < x -> x == y -> round_pos x == round_pos y.
Proof.
  intros Hx E. unfold round_pos. rewrite (binade_comp x y Hx E).
  assert (E' : x / pow2 (binade y - 52) == y / pow2 (binade y - 52)) by (rewrite E; reflexivity).
  rewrite (rne_comp _ _ E'). reflexivity.
Qed.

Lemma round_pos_idem q : 0 < q -> round_pos (round_pos q) == round_pos q.
Proof.
  intros Hq. pose proof (round_pos_pos q Hq) as Hr.
  destruct (mantissa_bounds q Hq) as [Lo Up].
  set (e := binade q) in *. set (m := rne (q / pow2 (e - 52))) in *.
  assert (Er : round_pos q = inject_Z m * pow2 (e - 52)) by reflexivity.
  destruct (Z.eq_dec m (2 ^ 53)%Z) as [Em|Nm].
  - (* the mantissa rounded up to the next binade *)
    assert (Ev : round_pos q == pow2 (e + 1)).
    { rewrite Er, Em. symmetry. apply pow2_split'. }
    assert (Eb : binade (round_pos q) = (e + 1)%Z).
    { apply binade_unique; [exact Hr | rewrite Ev; apply Qle_refl |].
      rewrite Ev. apply Qpower_lt_compat_l; [lia | reflexivity]. }
    unfold round_pos at 1. rewrite Eb.
    assert (Es : round_pos q / pow2 (e + 1 - 52) == inject_Z (2 ^ 52)).
    { rewrite Ev. rewrite (pow2_split (e + 1)).
      apply Qdiv_mult_l. apply pow2_nz. }
    rewrite (rne_comp _ _ Es), rne_inject. rewrite <- pow2_split. symmetry. exact Ev.
  - assert (Eb : binade (round_pos q) = e).
    { apply binade_unique; [exact Hr | apply round_pos_bounds; exact Hq |].
      rewrite Er, (pow2_split' e).
      apply Qmult_lt_compat_r; [apply pow2_pos|]. rewrite <- Zlt_Qlt. lia. }
    unfold round_pos at 1. rewrite Eb.
    assert (Es : round_pos q / pow2 (e - 52) == inject_Z m).
    { rewrite Er. apply Qdiv_mult_l. apply pow2_nz. }
    rewrite (rne_comp _ _ Es), rne_inject. rewrite Er. reflexivity.
Qed.

Lemma rnd64_pos q : 0 < q -> rnd64 q = round_pos q.
Proof.
  intros H. unfold rnd64.
  assert (E : Qcompare q 0 = Gt) by (apply Qgt_alt; exact H).
  rewrite E. reflexivity.
Qed.

Lemma rnd64_neg q : q < 0 -> rnd64 q = - round_pos (- q).
Proof.
  intros H. unfold rnd64.
  assert (E : Qcompare q 0 = Lt) by (apply Qlt_alt; exact H).
  rewrite E. reflexivity.
Qed.

Lemma rnd64_zero q : q == 0 -> rnd64 q = 0.
Proof.
  intros H. unfold rnd64.
  assert (E : Qcompare q 0 = Eq) by (apply Qeq_alt; exact H).
  rewrite E. reflexivity.
Qed.

Lemma rnd64_sign q :
  (0 < q /\ 0 < rnd64 q) \/ (q == 0 /\ rnd64 q = 0) \/ (q < 0 /\ rnd64 q < 0).
Proof.
  destruct (Qcompare_spec q 0) as [E|L|G].
  - right. left. split; [exact E | apply rnd64_zero; exact E].
  - right. right. split; [exact L|]. rewrite (rnd64_neg q L).
    assert (P : 0 < round_pos (- q)) by (apply round_pos_pos; lra). lra.
  - left. split; [exact G|]. rewrite (rnd64_pos q G). apply round_pos_pos. exact G.
Qed.

Lemma rnd64_compat x y : x == y -> rnd64 x == rnd64 y.
Proof.
  intros E. destruct (Qcompare_spec x 0) as [Z|L|G].
  - rewrite (rnd64_zero x Z), (rnd64_zero y); [reflexivity | rewrite <- E; exact Z].
  - rewrite (rnd64_neg x L), (rnd64_neg y) by (rewrite <- E; exact L).
    apply Qopp_comp. apply round_pos_comp; [lra | rewrite E; reflexivity].
  - rewrite (rnd64_pos x G), (rnd64_pos y) by (rewrite <- E; exact G).
    apply round_pos_comp; assumption.
Qed.

Lemma rnd64_mono x y : x <= y -> rnd64 x <= rnd64 y.
Proof.
  intros H.
  destruct (rnd64_sign x) as [[Hx Rx]|[[Hx Rx]|[Hx Rx]]],
           (rnd64_sign y) as [[Hy Ry]|[[Hy Ry]|[Hy Ry]]]; try lra.
  - rewrite (rnd64_pos x Hx), (rnd64_pos y Hy). apply round_pos_mono; assumption.
  - rewrite Rx. lra.
  - rewrite Rx, Ry. lra.
  - rewrite Ry. lra.
  - rewrite (rnd64_neg x Hx), (rnd64_neg y Hy). apply Qopp_le_compat.
    apply round_pos_mono; lra.
Qed.

Lemma rnd64_idem x : rnd64 (rnd64 x) == rnd64 x.
Proof.
  destruct (rnd64_sign x) as [[Hx Rx]|[[Hx Rx]|[Hx Rx]]].
  - rewrite (rnd64_pos _ Rx), (rnd64_pos x Hx). apply round_pos_idem. exact Hx.
  - rewrite Rx. reflexivity.
  - rewrite (rnd64_neg _ Rx), (rnd64_neg x Hx).
    assert (P : 0 < - x) by lra.
    assert (E : - - round_pos (- x) == round_pos (- x)) by ring.
    apply Qopp_comp.
    rewrite (round_pos_comp (- - round_pos (- x)) (round_pos (- x))).
    + apply round_pos_idem. exact P.
    + rewrite E. apply round_pos_pos. exact P.
    + exact E.
Qed.

Lemma rnd64_0 : rnd64 0 == 0.
Proof. reflexivity. Qed.

Lemma rnd64_1 : rnd64 1 == 1.
Proof. vm_compute. reflexivity. Qed.

(** Rounding to nearest-even with 53 significant bits has the properties the
    scripts rely on. *)
Lemma binary64_lawful : lawful binary64.
Proof.
  constructor; simpl.
  - exact rnd64_compat.
  - exact rnd64_mono.
  - exact rnd64_idem.
  - exact rnd64_0.
  - exact rnd64_1.
Qed.

(** Every rounded number is a value of the format. *)
Lemma lit_representable (F : format) (x : Q) : lawful F -> representable F (lit F x).
Proof.
  intros HF. apply (rnd_idem F HF).
Qed.

End FloatFacts.

Module ListFacts.

Lemma filter_length_mono {A : Type} (f g : A -> bool) (l : list A) :
  (forall x, In x l -> f x = true -> g x = true) ->
  (length (List.filter f l) <= length (List.filter g l))%nat.
Proof.
  induction l as [|a l IH]; intros H; simpl.
  - lia.
  - assert (IH' : (length (List.filter f l) <= length (List.filter g l))%nat).
    { apply IH. intros x Hx. apply H. right. exact Hx. }
    destruct (f a) eqn:Fa.
    + rewrite (H a (or_introl eq_refl) Fa). simpl. lia.
    + destruct (g a); simpl; lia.
Qed.

Lemma filter_filter {A : Type} (f g : A -> bool) (l : list A) :
  List.filter g (List.filter f l) = List.filter (fun x => f x && g x) l.
Proof.
  induction l as [|a l IH]; simpl.
  - reflexivity.
  - destruct (f a); simpl.
    + destruct (g a); simpl; rewrite IH; reflexivity.
    + exact IH.
Qed.

Lemma count_true_filter {A : Type} (f : A -> bool) (l : list A) :
  count_true (List.map f l) = length (List.filter f l).
Proof.
  induction l as [|a l IH]; simpl.
  - reflexivity.
  - destruct (f a); simpl; rewrite IH; reflexivity.
Qed.

Lemma NoDup_filter_keeps {A : Type} (f : A -> bool) (l : list A) :
  List.NoDup l -> List.NoDup (List.filter f l).
Proof.
  induction 1 as [|a l Hin Hnd IH]; simpl.
  - constructor.
  - destruct (f a).
    + constructor; [| exact IH].
      intros H. apply Hin. apply filter_In in H. tauto.
    + exact IH.
Qed.

(** Rows with a unique key are determined by their key. *)
Lemma NoDup_map_eq {A B : Type} (f : A -> B) (l : list A) (x y : A) :
  List.NoDup (List.map f l) -> In x l -> In y l -> f x = f y -> x = y.
Proof.
  induction l as [|a l IH]; simpl; intros Hnd Hx Hy E.
  - destruct Hx.
  - inversion Hnd as [|? ? Hnotin Hnd']; subst.
    destruct Hx as [<-|Hx], Hy as [<-|Hy].
    + reflexivity.
    + exfalso. apply Hnotin. rewrite E. apply in_map. exact Hy.
    + exfalso. apply Hnotin. rewrite <- E. apply in_map. exact Hx.
    + apply IH; assumption.
Qed.

(** Membership in a spatial join. *)
Lemma in_sjoin {A : Type} (G : Geo.lib) (geom : A -> Geo.point) (l : list A)
  (ps : list (Geo.polygon G)) (r : A) :
  In r (Geo.sjoin_within G geom l ps) <->
  In r l /\ exists u, In u ps /\ Geo.within G (geom r) u = true.
Proof.
  unfold Geo.sjoin_within. rewrite in_flat_map. split.
  - intros (x & Hx & Hr). apply in_map_iff in Hr. destruct Hr as (u & <- & Hu).
    apply filter_In in Hu. split; [exact Hx|]. exists u. exact Hu.
  - intros (Hr & u & Hu & Hw). exists r. split; [exact Hr|].
    apply in_map_iff. exists u. split; [reflexivity|]. apply filter_In. auto.
Qed.

End ListFacts.

(** ** The integrated dashboard *)

Module CombinedSpec.
Import Float Combined FloatFacts ListFacts.

Lemma matches_none (r : risk_row) (g : list geo_row) :
  matches r g = [] <-> (forall q, In q g -> g_cell_id q <> cell_id r).
Proof.
  unfold matches. split.
  - intros E q Hq Hid.
    assert (H : In q (List.filter (fun q => Z.eqb (g_cell_id q) (cell_id r)) g)).
    { apply filter_In. split; [exact Hq | apply Z.eqb_eq; exact Hid]. }
    rewrite E in H. destruct H.
  - intros H. induction g as [|q g IH]; simpl.
    + reflexivity.
    + destruct (Z.eqb_spec (g_cell_id q) (cell_id r)) as [E|E].
      * exfalso. apply (H q); [left; reflexivity | exact E].
      * apply IH. intros q' Hq'. apply H. right. exact Hq'.
Qed.

(** The rows of the merged table: a left row with the coordinates of one of
    its matches, or with null coordinates when it has none. *)
Lemma in_merge (df : list risk_row) (g : list geo_row) (m : merged_row) :
  In m (merge df g) <->
  In (risk m) df /\
  ((exists q, In q g /\ g_cell_id q = cell_id (risk m) /\
              lon m = Some (g_lon q) /\ lat m = Some (g_lat q)) \/
   ((forall q, In q g -> g_cell_id q <> cell_id (risk m)) /\
    lon m = None /\ lat m = None)).
Proof.
  unfold merge. rewrite in_flat_map. split.
  - intros (r & Hr & Hm).
    destruct (matches r g) as [|q0 ms] eqn:E.
    + destruct Hm as [<-|[]]. simpl. split; [exact Hr|].
      right. split; [apply matches_none; exact E | split; reflexivity].
    + rewrite <- E in Hm. apply in_map_iff in Hm. destruct Hm as (q & <- & Hq).
      simpl. split; [exact Hr|]. left. exists q.
      apply filter_In in Hq. destruct Hq as [Hq Hid].
      apply Z.eqb_eq in Hid. repeat split; assumption.
  - intros (Hr & H). exists (risk m). split; [exact Hr|].
    destruct m as [r x y]. simpl in *.
    destruct H as [(q & Hq & Hid & -> & ->) | (Hno & -> & ->)].
    + assert (Hin : In q (matches r g)).
      { apply filter_In. split; [exact Hq | apply Z.eqb_eq; exact Hid]. }
      destruct (matches r g) as [|q0 ms] eqn:E; [destruct Hin|].
      exact (in_map (fun q => MergedRow r (Some (g_lon q)) (Some (g_lat q))) _ _ Hin).
    + apply matches_none in Hno. rewrite Hno. left. reflexivity.
Qed.

(** With one geometry per cell the merge neither drops nor repeats a row. *)
Lemma merge_unique_geometry (df : list risk_row) (g : list geo_row) :
  List.NoDup (List.map g_cell_id g) -> List.map risk (merge df g) = df.
Proof.
  intros Hnd.
  assert (Hone : forall r, (length (matches r g) <= 1)%nat).
  { intros r. unfold matches. induction g as [|q g IH]; simpl; [lia|].
    inversion Hnd as [|? ? Hnotin Hnd']; subst.
    destruct (Z.eqb_spec (g_cell_id q) (cell_id r)) as [E|E].
    - simpl. specialize (IH Hnd').
      destruct (List.filter (fun q0 => Z.eqb (g_cell_id q0) (cell_id r)) g) as [|q' rest] eqn:Ef.
      + simpl. lia.
      + exfalso. apply Hnotin.
        assert (Hq' : In q' (List.filter (fun q0 => Z.eqb (g_cell_id q0) (cell_id r)) g)).
        { rewrite Ef. left. reflexivity. }
        apply filter_In in Hq'. destruct Hq' as [Hq' Hid].
        apply Z.eqb_eq in Hid. rewrite E, <- Hid. apply in_map. exact Hq'.
    - apply IH. exact Hnd'. }
  unfold merge. induction df as [|r df IH]; cbn [flat_map].
  - reflexivity.
  - rewrite map_app, IH. specialize (Hone r).
    destruct (matches r g) as [|q [|q' ms]]; simpl in *; [reflexivity | reflexivity | lia].
Qed.

(** C7. The merge of line 62 is a left join on [cell_id]: every row of the
    tabular dataset appears in the merged table, a row whose [cell_id] has no
    geometry appears with null [lon] and [lat] (and only so), and a row whose
    [cell_id] has a geometry appears with its coordinates. *)
Theorem merge_is_left_join (df : list risk_row) (g : list geo_row) (r : risk_row) :
  In r df ->
  (exists m, In m (merge df g) /\ risk m = r) /\
  ((forall q, In q g -> g_cell_id q <> cell_id r) ->
   In (MergedRow r None None) (merge df g) /\
   (forall m, In m (merge df g) -> risk m = r -> lon m = None /\ lat m = None)) /\
  (forall q, In q g -> g_cell_id q = cell_id r ->
   In (MergedRow r (Some (g_lon q)) (Some (g_lat q))) (merge df g)).
Proof.
  intros Hr.
  assert (Hnone : (forall q, In q g -> g_cell_id q <> cell_id r) ->
                  In (MergedRow r None None) (merge df g)).
  { intros Hno. apply in_merge. simpl. split; [exact Hr|]. right. auto. }
  assert (Hsome : forall q, In q g -> g_cell_id q = cell_id r ->
                  In (MergedRow r (Some (g_lon q)) (Some (g_lat q))) (merge df g)).
  { intros q Hq Hid. apply in_merge. simpl. split; [exact Hr|]. left. exists q. auto. }
  split; [|split].
  - destruct (matches r g) as [|q ms] eqn:E.
    + exists (MergedRow r None None). split; [|reflexivity].
      apply Hnone. apply matches_none. exact E.
    + assert (Hq : In q (matches r g)) by (rewrite E; left; reflexivity).
      apply filter_In in Hq. destruct Hq as [Hq Hid]. apply Z.eqb_eq in Hid.
      exists (MergedRow r (Some (g_lon q)) (Some (g_lat q))). split; [|reflexivity].
      apply Hsome; assumption.
  - intros Hno. split; [apply Hnone; exact Hno|].
    intros m Hm <-. apply in_merge in Hm.
    destruct Hm as [_ [(q & Hq & Hid & _) | (_ & Hl)]]; [|exact Hl].
    exfalso. exact (Hno q Hq Hid).
  - exact Hsome.
Qed.

Lemma merge_is_left_join_witness :
  In Wajir.orphan Wajir.with_orphan /\
  In (MergedRow Wajir.orphan None None) (merge Wajir.with_orphan Wajir.coordinates) /\
  length (merge Wajir.with_orphan Wajir.coordinates) = 5%nat.
Proof.
  assert (Hr : In Wajir.orphan Wajir.with_orphan) by (do 4 right; left; reflexivity).
  split; [exact Hr|]. split.
  - refine (proj1 (proj1 (proj2
      (merge_is_left_join Wajir.with_orphan Wajir.coordinates Wajir.orphan Hr)) _)).
    intros q Hq. vm_compute in Hq.
    destruct Hq as [<-|[<-|[<-|[<-|[]]]]]; vm_compute; discriminate.
  - reflexivity.
Defined.

(** *** Threshold filter *)

Lemma mask_true (m : layer_mode) (t1 t2 : Q) (r : merged_row) :
  mask m t1 t2 r = true <->
  match m with
  | HotspotOnly => ge (p_hotspot_next (risk r)) t1 = true
  | MobilityOnly => ge (anomaly_prob_norm (risk r)) t2 = true
  | CombinedRisk =>
      ge (p_hotspot_next (risk r)) t1 = true /\ ge (anomaly_prob_norm (risk r)) t2 = true
  end.
Proof.
  destruct m; simpl; unfold hot, mob; try tauto.
  apply andb_true_iff.
Qed.

Lemma in_ids (v : list merged_row) (c : Z) :
  c ∈ ids v <-> exists r, In r v /\ cell_id (risk r) = c.
Proof.
  unfold ids. rewrite elem_of_list_to_set, list_elem_of_In, in_map_iff.
  split; intros (r & H1 & H2); exists r; tauto.
Qed.

(** Rows of the merged table come from the tabular dataset. *)
Lemma merge_risk (table : list risk_row) (g : list geo_row) (m : merged_row) :
  In m (merge table g) -> In (risk m) table.
Proof.
  intros H. apply in_merge in H. tauto.
Qed.

(** A counterexample to set equality on [cell_id]: a table with two rows for
    the same cell, one passing only the hotspot test and one passing only the
    mobility test.  The combined view is empty, while both single views
    contain the cell. *)
Lemma combined_ids_not_intersection :
  ids (filtered CombinedRisk (Wajir.d 0.5) (Wajir.d 0.5)
         (merge Wajir.two_dates Wajir.coordinates)) <>
  ids (filtered HotspotOnly (Wajir.d 0.5) (Wajir.d 0.5)
         (merge Wajir.two_dates Wajir.coordinates))
  ∩ ids (filtered MobilityOnly (Wajir.d 0.5) (Wajir.d 0.5)
           (merge Wajir.two_dates Wajir.coordinates)).
Proof.
  intros E.
  assert (H : 1%Z ∈ ids (filtered CombinedRisk (Wajir.d 0.5) (Wajir.d 0.5)
                           (merge Wajir.two_dates Wajir.coordinates))).
  { rewrite E. apply elem_of_intersection. split; apply in_ids.
    - exists (MergedRow (RiskRow 1 "2024-01-01" (Some (Wajir.d 0.9)) (Some (Wajir.d 0.1)) [])
                (Some 39) (Some 1)).
      split; [vm_compute; left; reflexivity | reflexivity].
    - exists (MergedRow (RiskRow 1 "2024-01-17" (Some (Wajir.d 0.1)) (Some (Wajir.d 0.9)) [])
                (Some 39) (Some 1)).
      split; [vm_compute; left; reflexivity | reflexivity]. }
  apply in_ids in H. destruct H as (r & Hr & _). vm_compute in Hr. exact Hr.
Qed.

(** C1 (amended). In combined mode the view holds exactly the rows with
    [p_hotspot_next >= t1] and [anomaly_prob_norm >= t2]: it is the
    mobility filter at [t2] applied to the hotspot-only output at [t1]
    (rows, order and multiplicity).  Its [cell_id] set is included in the
    intersection of the [cell_id] sets of the two single-mode outputs, and
    equals it when [cell_id] is unique in the tabular dataset. *)
Theorem combined_is_intersection (table : list risk_row) (g : list geo_row) (t1 t2 : Q) :
  (forall r, In r (filtered CombinedRisk t1 t2 (merge table g)) <->
     In r (merge table g) /\
     exists p a, p_hotspot_next (risk r) = Some p /\ anomaly_prob_norm (risk r) = Some a /\
                 t1 <= p /\ t2 <= a) /\
  (forall r, In r (filtered CombinedRisk t1 t2 (merge table g)) <->
     In r (filtered HotspotOnly t1 t2 (merge table g)) /\
     In r (filtered MobilityOnly t1 t2 (merge table g))) /\
  filtered CombinedRisk t1 t2 (merge table g)
  = List.filter (mob t2) (filtered HotspotOnly t1 t2 (merge table g)) /\
  ids (filtered CombinedRisk t1 t2 (merge table g))
    ⊆ ids (filtered HotspotOnly t1 t2 (merge table g))
      ∩ ids (filtered MobilityOnly t1 t2 (merge table g)) /\
  (List.NoDup (List.map cell_id table) ->
   ids (filtered CombinedRisk t1 t2 (merge table g))
   = ids (filtered HotspotOnly t1 t2 (merge table g))
     ∩ ids (filtered MobilityOnly t1 t2 (merge table g))).
Proof.
  set (df := merge table g).
  assert (Hrows : forall r, In r (filtered CombinedRisk t1 t2 df) <->
            In r (filtered HotspotOnly t1 t2 df) /\ In r (filtered MobilityOnly t1 t2 df)).
  { intros r. unfold filtered. rewrite !filter_In, !mask_true. tauto. }
  assert (Hsub : ids (filtered CombinedRisk t1 t2 df)
            ⊆ ids (filtered HotspotOnly t1 t2 df) ∩ ids (filtered MobilityOnly t1 t2 df)).
  { intros c Hc. apply in_ids in Hc. destruct Hc as (r & Hr & Hid).
    apply Hrows in Hr. apply elem_of_intersection.
    split; apply in_ids; exists r; tauto. }
  split; [|split; [exact Hrows | split; [|split; [exact Hsub|]]]].
  - intros r. unfold filtered. rewrite filter_In, mask_true, !ge_true. split.
    + intros (Hr & (p & Ep & Hp) & (a & Ea & Ha)). split; [exact Hr|].
      exists p, a. tauto.
    + intros (Hr & p & a & Ep & Ea & Hp & Ha). split; [exact Hr|].
      split; [exists p | exists a]; tauto.
  - unfold filtered. rewrite filter_filter. reflexivity.
  - intros Hnd. apply set_eq. intros c. split; [apply Hsub|].
    rewrite elem_of_intersection, !in_ids.
    intros [(r & Hr & Hid) (r' & Hr' & Hid')].
    unfold filtered in Hr, Hr'. apply filter_In in Hr, Hr'.
    destruct Hr as [Hin Hm], Hr' as [Hin' Hm'].
    assert (Er : risk r = risk r').
    { apply (NoDup_map_eq cell_id table _ _ Hnd);
        [apply (merge_risk table g); exact Hin | apply (merge_risk table g); exact Hin'
        | congruence]. }
    exists r. split; [|exact Hid].
    apply filter_In. split; [exact Hin|].
    apply mask_true. apply mask_true in Hm. apply mask_true in Hm'.
    rewrite Er at 2. split; assumption.
Qed.

Lemma combined_is_intersection_witness :
  List.NoDup (List.map cell_id Wajir.enhanced) /\
  ids (filtered CombinedRisk (Wajir.d 0.6) (Wajir.d 0.5) (merge Wajir.enhanced Wajir.coordinates))
  = ids (filtered HotspotOnly (Wajir.d 0.6) (Wajir.d 0.5)
           (merge Wajir.enhanced Wajir.coordinates))
    ∩ ids (filtered MobilityOnly (Wajir.d 0.6) (Wajir.d 0.5)
             (merge Wajir.enhanced Wajir.coordinates)).
Proof.
  assert (Hnd : List.NoDup (List.map cell_id Wajir.enhanced)).
  { vm_compute. repeat constructor; simpl; intuition discriminate. }
  split; [exact Hnd|].
  exact (proj2 (proj2 (proj2 (proj2
    (combined_is_intersection Wajir.enhanced Wajir.coordinates (Wajir.d 0.6) (Wajir.d 0.5)))))
    Hnd).
Defined.

(** The worked example of the documentation: thresholds 0.6 and 0.5 keep
    cell 1 only; its compound risk is the double 0.7200000000000001. *)
Example worked_example :
  df_view binary64 CombinedRisk (Wajir.d 0.6) (Wajir.d 0.5) Wajir.merged
  = View [MergedRow (RiskRow 1 "2024-01-01" (Some (Wajir.d 0.9)) (Some (Wajir.d 0.8)) [])
            (Some 39) (Some 1)]
         (Some [Some (6485183463413515 # 9007199254740992)]).
Proof. vm_compute. reflexivity. Qed.

(** In exact arithmetic the compound risk of that cell is 0.72. *)
Example worked_example_unrounded :
  mul unrounded (Some 0.9) (Some 0.8) = Some 0.72.
Proof. reflexivity. Qed.

Lemma filtered_weaken (m : layer_mode) (t1 t1' t2 t2' : Q) (r : merged_row) :
  t1 <= t1' -> t2 <= t2' -> mask m t1' t2' r = true -> mask m t1 t2 r = true.
Proof.
  intros H1 H2. rewrite !mask_true. destruct m.
  - apply ge_weaken. exact H1.
  - apply ge_weaken. exact H2.
  - intros [Hp Ha]. split; [apply (ge_weaken _ _ _ H1 Hp) | apply (ge_weaken _ _ _ H2 Ha)].
Qed.

(** C4. In every mode of the integrated dashboard, and in the hotspot
    dashboard, raising a threshold never increases the number of rows kept
    (the rows kept at the higher thresholds are among those kept at the lower
    ones), and the test is inclusive: a row whose value equals the threshold
    is kept (in combined mode, when it also passes the other test). *)
Theorem raising_threshold_shrinks (m : layer_mode) (df : list merged_row)
  (gdf : list Hotspot.point_row) (t1 t1' t2 t2' t t' : Q) :
  t1 <= t1' -> t2 <= t2' -> t <= t' ->
  ((length (filtered m t1' t2' df) <= length (filtered m t1 t2 df))%nat /\
   (forall r, In r (filtered m t1' t2' df) -> In r (filtered m t1 t2 df))) /\
  ((length (Hotspot.gdf_view t' gdf) <= length (Hotspot.gdf_view t gdf))%nat /\
   (Hotspot.flagged t' gdf <= Hotspot.flagged t gdf)%nat /\
   (forall r, In r (Hotspot.gdf_view t' gdf) -> In r (Hotspot.gdf_view t gdf))) /\
  (forall r v, In r df -> p_hotspot_next (risk r) = Some v -> v == t1 ->
     In r (filtered HotspotOnly t1 t2 df) /\
     (ge (anomaly_prob_norm (risk r)) t2 = true -> In r (filtered CombinedRisk t1 t2 df))) /\
  (forall r v, In r df -> anomaly_prob_norm (risk r) = Some v -> v == t2 ->
     In r (filtered MobilityOnly t1 t2 df) /\
     (ge (p_hotspot_next (risk r)) t1 = true -> In r (filtered CombinedRisk t1 t2 df))) /\
  (forall r v, In r gdf -> Hotspot.p_hotspot_next r = Some v -> v == t ->
     In r (Hotspot.gdf_view t gdf)).
Proof.
  intros H1 H2 H.
  split; [|split; [|split; [|split]]].
  - split.
    + apply filter_length_mono. intros r _. apply filtered_weaken; assumption.
    + intros r. unfold filtered. rewrite !filter_In. intros [Hr Hm].
      split; [exact Hr | apply (filtered_weaken m t1 t1' t2 t2'); assumption].
  - assert (Hlen : (length (Hotspot.gdf_view t' gdf) <= length (Hotspot.gdf_view t gdf))%nat).
    { apply filter_length_mono. intros r _. apply ge_weaken. exact H. }
    split; [exact Hlen | split].
    + unfold Hotspot.flagged. rewrite !count_true_filter. exact Hlen.
    + intros r. unfold Hotspot.gdf_view. rewrite !filter_In. intros [Hr Hm].
      split; [exact Hr | apply (ge_weaken _ t t'); assumption].
  - intros r v Hr Ep Ev.
    assert (Hp : ge (p_hotspot_next (risk r)) t1 = true).
    { rewrite Ep. apply ge_boundary. exact Ev. }
    split.
    + apply filter_In. split; [exact Hr | exact Hp].
    + intros Ha. apply filter_In. split; [exact Hr|]. apply mask_true. tauto.
  - intros r v Hr Ea Ev.
    assert (Ha : ge (anomaly_prob_norm (risk r)) t2 = true).
    { rewrite Ea. apply ge_boundary. exact Ev. }
    split.
    + apply filter_In. split; [exact Hr | exact Ha].
    + intros Hp. apply filter_In. split; [exact Hr|]. apply mask_true. tauto.
  - intros r v Hr Ep Ev. apply filter_In. split; [exact Hr|].
    rewrite Ep. apply ge_boundary. exact Ev.
Qed.

Lemma raising_threshold_shrinks_witness :
  (Wajir.d 0.5 <= Wajir.d 0.7 /\ Wajir.d 0.5 <= Wajir.d 0.5 /\ Wajir.d 0.7 <= Wajir.d 0.9) /\
  (length (filtered CombinedRisk (Wajir.d 0.7) (Wajir.d 0.5) Wajir.merged)
   <= length (filtered CombinedRisk (Wajir.d 0.5) (Wajir.d 0.5) Wajir.merged))%nat /\
  In (Hotspot.PointRow 2 (Some (Wajir.d 0.7)) (39, 1) [])
     (Hotspot.gdf_view (Wajir.d 0.7) (Geo.features Wajir.points)).
Proof.
  assert (H1 : Wajir.d 0.5 <= Wajir.d 0.7) by (vm_compute; discriminate).
  assert (H2 : Wajir.d 0.5 <= Wajir.d 0.5) by (vm_compute; discriminate).
  assert (H3 : Wajir.d 0.7 <= Wajir.d 0.9) by (vm_compute; discriminate).
  pose proof (raising_threshold_shrinks CombinedRisk Wajir.merged
                (Geo.features Wajir.points) (Wajir.d 0.5) (Wajir.d 0.7) (Wajir.d 0.5)
                (Wajir.d 0.5) (Wajir.d 0.7) (Wajir.d 0.9) H1 H2 H3) as W.
  split; [tauto|]. split.
  - exact (proj1 (proj1 W)).
  - refine (proj2 (proj2 (proj2 (proj2 W)))
              (Hotspot.PointRow 2 (Some (Wajir.d 0.7)) (39, 1) []) (Wajir.d 0.7) _ eq_refl
              (Qeq_refl _)).
    right. left. reflexivity.
Defined.

(** *** Compound score *)

Lemma nth_error_product (F : format) (v : list merged_row) (i : nat) (r : merged_row) :
  nth_error v i = Some r ->
  nth_error (product F v) i
  = Some (mul F (p_hotspot_next (risk r)) (anomaly_prob_norm (risk r))).
Proof.
  intros H. unfold product. rewrite nth_error_map, H. reflexivity.
Qed.

(** C2. In combined mode the view carries a [compound_risk] column, one
    entry per surviving row, whose entry is the floating-point product
    [p_hotspot_next * anomaly_prob_norm] of that row; when both factors are
    values in [[0, 1]] the entry is a number in [[0, 1]], at most
    [min(p_hotspot_next, anomaly_prob_norm)]. *)
Theorem compound_risk_bounded (F : format) (df : list merged_row) (t1 t2 : Q) :
  lawful F ->
  exists col,
    compound_risk (df_view F CombinedRisk t1 t2 df) = Some col /\
    rows (df_view F CombinedRisk t1 t2 df) = filtered CombinedRisk t1 t2 df /\
    length col = length (rows (df_view F CombinedRisk t1 t2 df)) /\
    forall i r, nth_error (rows (df_view F CombinedRisk t1 t2 df)) i = Some r ->
      nth_error col i = Some (mul F (p_hotspot_next (risk r)) (anomaly_prob_norm (risk r))) /\
      forall x y,
        p_hotspot_next (risk r) = Some x -> anomaly_prob_norm (risk r) = Some y ->
        representable F x -> representable F y ->
        0 <= x <= 1 -> 0 <= y <= 1 ->
        nth_error col i = Some (Some (rnd F (x * y))) /\
        0 <= rnd F (x * y) <= 1 /\ rnd F (x * y) <= Qmin x y.
Proof.
  intros HF. exists (product F (filtered CombinedRisk t1 t2 df)). simpl.
  split; [reflexivity | split; [reflexivity | split]].
  - unfold product. apply length_map.
  - intros i r Hr. pose proof (nth_error_product F _ i r Hr) as Hc.
    split; [exact Hc|].
    intros x y Ex Ey Rx Ry Hx Hy. rewrite Hc, Ex, Ey. simpl.
    split; [reflexivity | apply mul_bounds; assumption].
Qed.

Lemma compound_risk_bounded_witness :
  nth_error (rows (df_view binary64 CombinedRisk (Wajir.d 0.6) (Wajir.d 0.5) Wajir.merged)) 0
  = Some (MergedRow (RiskRow 1 "2024-01-01" (Some (Wajir.d 0.9)) (Some (Wajir.d 0.8)) [])
            (Some 39) (Some 1)) /\
  (representable binary64 (Wajir.d 0.9) /\ representable binary64 (Wajir.d 0.8)) /\
  (0 <= Wajir.d 0.9 <= 1 /\ 0 <= Wajir.d 0.8 <= 1) /\
  0 <= rnd binary64 (Wajir.d 0.9 * Wajir.d 0.8) <= 1 /\
  rnd binary64 (Wajir.d 0.9 * Wajir.d 0.8) <= Qmin (Wajir.d 0.9) (Wajir.d 0.8).
Proof.
  assert (Rx : representable binary64 (Wajir.d 0.9)) by (vm_compute; reflexivity).
  assert (Ry : representable binary64 (Wajir.d 0.8)) by (vm_compute; reflexivity).
  assert (Hx : 0 <= Wajir.d 0.9 <= 1) by (split; vm_compute; discriminate).
  assert (Hy : 0 <= Wajir.d 0.8 <= 1) by (split; vm_compute; discriminate).
  assert (Hr : nth_error
                 (rows (df_view binary64 CombinedRisk (Wajir.d 0.6) (Wajir.d 0.5) Wajir.merged)) 0
               = Some (MergedRow
                         (RiskRow 1 "2024-01-01" (Some (Wajir.d 0.9)) (Some (Wajir.d 0.8)) [])
                         (Some 39) (Some 1))) by (vm_compute; reflexivity).
  destruct (compound_risk_bounded binary64 Wajir.merged (Wajir.d 0.6) (Wajir.d 0.5)
              binary64_lawful) as (col & _ & _ & _ & H).
  destruct (H 0%nat _ Hr) as [_ B].
  destruct (B (Wajir.d 0.9) (Wajir.d 0.8) eq_refl eq_refl Rx Ry Hx Hy) as [_ B'].
  split; [exact Hr|]. split; [split; assumption|]. split; [tauto|]. exact B'.
Defined.

End CombinedSpec.

(** ** Comma-separated text *)

Module TextFacts.
Import Float FloatFacts Text.

#[local] Arguments String.append !s1 s2.

(** *** Strings *)

Lemma append_nil (s : string) : s ++ "" = s.
Proof. induction s as [|c s IH]; simpl; [reflexivity | rewrite IH; reflexivity]. Qed.

Lemma append_cons (c : ascii) (a b : string) : String c a ++ b = String c (a ++ b).
Proof. reflexivity. Qed.

Lemma append_assoc (a b c : string) : (a ++ b) ++ c = a ++ (b ++ c).
Proof. induction a as [|x a IH]; simpl; [reflexivity | rewrite IH; reflexivity]. Qed.

Lemma length_append (a b : string) :
  String.length (a ++ b) = (String.length a + String.length b)%nat.
Proof. induction a as [|x a IH]; simpl; [reflexivity | rewrite IH; reflexivity]. Qed.

Lemma before_after (n : nat) (s : string) : before n s ++ after n s = s.
Proof.
  revert s. induction n as [|n IH]; intros [|c s]; simpl; try reflexivity.
  rewrite IH. reflexivity.
Qed.

Lemma length_before (n : nat) (s : string) :
  (n <= String.length s)%nat -> String.length (before n s) = n.
Proof.
  revert s. induction n as [|n IH]; intros [|c s]; simpl; intros H; try lia.
  rewrite IH by lia. reflexivity.
Qed.

Lemma length_zeros (n : nat) : String.length (zeros n) = n.
Proof. induction n as [|n IH]; simpl; [reflexivity | rewrite IH; reflexivity]. Qed.

(** *** Digits *)

Lemma digit_value_char (d : N) : (d < 10)%N -> digit_value (digit_char d) = Some d.
Proof.
  intros H.
  assert (C : (d = 0 \/ d = 1 \/ d = 2 \/ d = 3 \/ d = 4 \/ d = 5 \/ d = 6 \/ d = 7 \/
               d = 8 \/ d = 9)%N) by lia.
  repeat (destruct C as [-> | C]; [reflexivity|]). subst d. reflexivity.
Qed.

Lemma numeral_cons (c : ascii) (s : string) :
  numeral (String c s) <-> (exists d, digit_value c = Some d) /\ numeral s.
Proof.
  unfold numeral. simpl. destruct (digit_value c) as [d|]; simpl.
  - split; [intros H; split; [exists d; reflexivity | exact H] | intros [_ H]; exact H].
  - split; [discriminate | intros [[d H] _]; discriminate].
Qed.

Lemma numeral_app (a b : string) : numeral (a ++ b) <-> numeral a /\ numeral b.
Proof.
  induction a as [|c a IH]; simpl.
  - split; [intros H; split; [reflexivity | exact H] | intros [_ H]; exact H].
  - rewrite !numeral_cons, IH. tauto.
Qed.

Lemma numeral_zeros (n : nat) : numeral (zeros n).
Proof. induction n as [|n IH]; [reflexivity | exact IH]. Qed.

Lemma numeral_before_after (n : nat) (s : string) :
  numeral s -> numeral (before n s) /\ numeral (after n s).
Proof. intros H. apply numeral_app. rewrite before_after. exact H. Qed.

Lemma scan_numeral (ds rest : string) (acc : N) (count : nat) :
  numeral ds ->
  scan (ds ++ rest) acc count = scan rest (value acc ds) (count + String.length ds).
Proof.
  revert acc count. induction ds as [|c ds IH]; intros acc count H; simpl.
  - rewrite Nat.add_0_r. reflexivity.
  - apply numeral_cons in H. destruct H as [[d Hd] H]. rewrite Hd.
    rewrite IH by exact H. f_equal. lia.
Qed.

Lemma value_app (a b : string) (acc : N) :
  numeral a -> value acc (a ++ b) = value (value acc a) b.
Proof.
  revert acc. induction a as [|c a IH]; intros acc H; simpl; [reflexivity|].
  apply numeral_cons in H. destruct H as [[d Hd] H]. rewrite Hd. apply IH. exact H.
Qed.

Lemma value_zeros (n : nat) (acc : N) : value acc (zeros n) = (acc * 10 ^ N.of_nat n)%N.
Proof.
  revert acc. induction n as [|n IH]; intros acc.
  - simpl. lia.
  - cbn [zeros value]. change (digit_value "0") with (Some 0%N). cbv iota.
    rewrite IH. rewrite Nat2N.inj_succ, N.pow_succ_r'. lia.
Qed.

Lemma digits_app (fuel : nat) (n : N) (acc : string) :
  digits fuel n acc = digits fuel n "" ++ acc.
Proof.
  revert n acc. induction fuel as [|fuel IH]; intros n acc; simpl; [reflexivity|].
  destruct (n <? 10)%N; [reflexivity|].
  rewrite (IH _ (String _ acc)), (IH _ (String _ "")), append_assoc. reflexivity.
Qed.

Lemma numeral_digits (fuel : nat) (n : N) (acc : string) :
  numeral acc -> numeral (digits fuel n acc).
Proof.
  revert n acc. induction fuel as [|fuel IH]; intros n acc H; simpl; [exact H|].
  assert (Hc : numeral (String (digit_char (n mod 10)) acc)).
  { apply numeral_cons. split; [|exact H]. exists (n mod 10)%N.
    apply digit_value_char. apply N.mod_lt. discriminate. }
  destruct (n <? 10)%N; [exact Hc | apply IH; exact Hc].
Qed.

Lemma value_digits (fuel : nat) (n : N) (rest : string) (acc : N) :
  (n < 2 ^ N.of_nat fuel)%N ->
  value acc (digits fuel n rest)
  = value (acc * 10 ^ N.of_nat (String.length (digits fuel n "")) + n) rest.
Proof.
  revert n rest acc. induction fuel as [|fuel IH]; intros n rest acc Hn.
  - simpl in *. f_equal. lia.
  - cbn [digits]. destruct (N.ltb_spec n 10) as [Hlt|Hge].
    + cbn [value String.length].
      rewrite digit_value_char by (apply N.mod_lt; discriminate).
      rewrite N.mod_small by exact Hlt. f_equal. simpl. lia.
    + assert (Hq : (n / 10 < 2 ^ N.of_nat fuel)%N).
      { rewrite Nat2N.inj_succ, N.pow_succ_r' in Hn.
        apply N.Div0.div_lt_upper_bound. lia. }
      rewrite (IH _ _ _ Hq). cbn [value].
      rewrite digit_value_char by (apply N.mod_lt; discriminate).
      rewrite (digits_app fuel (n / 10) (String _ "")), length_append.
      cbn [String.length]. f_equal.
      rewrite Nat.add_1_r, Nat2N.inj_succ, N.pow_succ_r'.
      pose proof (N.div_mod n 10 ltac:(discriminate)). lia.
Qed.

Lemma show_N_fuel (n : N) : (n < 2 ^ N.of_nat (S (N.to_nat (N.log2 n))))%N.
Proof.
  rewrite Nat2N.inj_succ, N2Nat.id. destruct n as [|p]; [reflexivity|].
  apply N.log2_spec. reflexivity.
Qed.

Lemma numeral_show_N (n : N) : numeral (show_N n).
Proof. apply numeral_digits. reflexivity. Qed.

Lemma value_show_N (n acc : N) :
  value acc (show_N n) = (acc * 10 ^ N.of_nat (String.length (show_N n)) + n)%N.
Proof.
  unfold show_N. rewrite (value_digits _ _ "" acc (show_N_fuel n)). reflexivity.
Qed.

Lemma length_show_N (n : N) : (0 < String.length (show_N n))%nat.
Proof.
  unfold show_N. cbn [digits]. destruct (n <? 10)%N; [simpl; lia|].
  rewrite digits_app, length_append. simpl. lia.
Qed.

Lemma read_N_numeral (ds : string) :
  numeral ds -> (0 < String.length ds)%nat -> read_N ds = Some (value 0 ds).
Proof.
  intros H L. unfold read_N. rewrite <- (append_nil ds) at 1.
  rewrite (scan_numeral ds "" 0 0 H). simpl.
  destruct (String.length ds); [lia | reflexivity].
Qed.

Lemma read_show_N (n : N) : read_N (show_N n) = Some n.
Proof.
  rewrite read_N_numeral by (apply numeral_show_N || apply length_show_N).
  rewrite value_show_N. reflexivity.
Qed.

(** An integer reads back as itself. *)
Lemma read_show_Z (z : Z) : read_Z (show_Z z) = Some z.
Proof.
  unfold show_Z, read_Z. destruct (Z.ltb_spec z 0) as [Hneg|Hpos].
  - change (read_N (String "-" (show_N (Z.abs_N z)))) with (@None N).
    change (Ascii.eqb "-" "-") with true. cbv iota.
    rewrite read_show_N. simpl. f_equal. lia.
  - rewrite read_show_N. f_equal. lia.
Qed.

(** *** Decimal numbers *)

Lemma ten_pos (e : Z) : 0 < 10 ^ e.
Proof. apply Qpower_0_lt. reflexivity. Qed.

Lemma ten_add (a b : Z) : 10 ^ (a + b) == 10 ^ a * 10 ^ b.
Proof. apply Qpower_plus. discriminate. Qed.

Lemma decimal_pos (m e : Z) : (0 < m)%Z -> 0 < decimal m e.
Proof.
  intros H. unfold decimal. apply Qmult_lt_0_compat; [|apply ten_pos].
  change 0 with (inject_Z 0). rewrite <- Zlt_Qlt. exact H.
Qed.

Lemma decimal_shift (m k e : Z) :
  (0 <= k)%Z -> decimal (m * 10 ^ k) e == decimal m (e + k).
Proof.
  intros H. unfold decimal. rewrite inject_Z_mult, ten_add.
  rewrite (Zpower_Qpower 10 k H). change (inject_Z 10) with 10. ring.
Qed.

Lemma strip_spec (fuel : nat) (m e : Z) :
  (0 < m)%Z ->
  (0 < fst (strip fuel m e))%Z /\
  decimal (fst (strip fuel m e)) (snd (strip fuel m e)) == decimal m e.
Proof.
  revert m e. induction fuel as [|fuel IH]; intros m e Hm; cbn [strip].
  - split; [exact Hm | reflexivity].
  - destruct ((0 <? m) && (m mod 10 =? 0))%Z eqn:C; [|split; [exact Hm | reflexivity]].
    apply andb_true_iff in C. destruct C as [_ C]. apply Z.eqb_eq in C.
    assert (E : (m = m / 10 * 10 ^ 1)%Z).
    { change (10 ^ 1)%Z with 10%Z. pose proof (Z.div_mod m 10 ltac:(discriminate)). lia. }
    assert (Hq : (0 < m / 10)%Z) by (change (10 ^ 1)%Z with 10%Z in E; lia).
    destruct (IH (m / 10)%Z (e + 1)%Z Hq) as [P V]. split; [exact P|].
    rewrite V. rewrite E at 2. symmetry. apply decimal_shift. lia.
Qed.

Lemma reads_as_spec (x : Q) (m e : Z) :
  reads_as x m e = true -> (0 < m)%Z /\ rnd64 (decimal m e) == x.
Proof.
  unfold reads_as. intros H. apply andb_true_iff in H. destruct H as [P E].
  split; [apply Z.ltb_lt; exact P | apply Qeq_bool_iff; exact E].
Qed.

Lemma shortest_at_spec (x : Q) (k : nat) (m e : Z) :
  shortest_at x k = Some (m, e) -> (0 < m)%Z /\ rnd64 (decimal m e) == x.
Proof.
  unfold shortest_at.
  set (e0 := (decade x - Z.of_nat k + 1)%Z). set (lo := Qfloor (x / 10 ^ e0)).
  destruct (reads_as x lo e0) eqn:L, (reads_as x (lo + 1) e0) eqn:H;
    [destruct (Qle_bool _ _)| | |discriminate];
    intros E; injection E as <- <-; apply reads_as_spec; assumption.
Qed.

Lemma shortest_spec (x : Q) (k n : nat) (m e : Z) :
  shortest x k n = Some (m, e) -> (0 < m)%Z /\ rnd64 (decimal m e) == x.
Proof.
  revert k. induction n as [|n IH]; intros k; cbn [shortest]; [discriminate|].
  destruct (shortest_at x k) as [[m' e']|] eqn:A.
  - intros E. injection E as <- <-. exact (shortest_at_spec x k m' e' A).
  - apply IH.
Qed.

(** The exact expansion of a double is the double. *)
Lemma exact_spec (x : Q) :
  0 < x -> rnd64 x == x ->
  (0 < fst (exact x))%Z /\ decimal (fst (exact x)) (snd (exact x)) == x.
Proof.
  intros Hx Hr. rewrite (rnd64_pos x Hx) in Hr. unfold round_pos in Hr. unfold exact.
  set (u := (binade x - 52)%Z) in *. set (m := rne (x / pow2 u)) in *.
  assert (Hm : (0 < m)%Z).
  { rewrite Zlt_Qlt. change (inject_Z 0) with 0.
    pose proof (pow2_pos u) as P. rewrite <- Hr in Hx.
    destruct (Qlt_le_dec 0 (inject_Z m)) as [G|L]; [exact G|]. exfalso.
    assert (B : inject_Z m * pow2 u <= 0).
    { rewrite <- (Qmult_0_l (pow2 u)). apply Qmult_le_compat_r; [exact L|].
      apply Qlt_le_weak. exact P. }
    apply (Qlt_irrefl 0). apply Qlt_le_trans with (inject_Z m * pow2 u); assumption. }
  destruct (Z.leb_spec 0 u) as [Hu|Hu]; cbn [fst snd].
  - split; [apply Z.mul_pos_pos; [exact Hm | apply Z.pow_pos_nonneg; lia]|].
    unfold decimal. rewrite inject_Z_mult, (pow2_inject u Hu). rewrite <- Hr.
    change (10 ^ 0) with 1. ring.
  - split; [apply Z.mul_pos_pos; [exact Hm | apply Z.pow_pos_nonneg; lia]|].
    unfold decimal. rewrite inject_Z_mult. rewrite <- Hr.
    rewrite (Zpower_Qpower 5 (- u)) by lia. change (inject_Z 5) with 5.
    assert (E : 5 ^ (- u) * 10 ^ u == pow2 u).
    { unfold pow2. replace u with (- (- u))%Z at 2 3 by lia.
      rewrite !(Qpower_opp _ (- u)).
      assert (T : (10 : Q) ^ (- u) == 5 ^ (- u) * 2 ^ (- u)).
      { rewrite <- Qmult_power. reflexivity. }
      rewrite T.
      assert (P5 : 0 < (5 : Q) ^ (- u)) by (apply Qpower_0_lt; reflexivity).
      assert (P2 : 0 < (2 : Q) ^ (- u)) by (apply Qpower_0_lt; reflexivity).
      field. split; intros Z0; [rewrite Z0 in P2 | rewrite Z0 in P5]; discriminate. }
    rewrite <- E. ring.
Qed.

(** The decimal printed for a double reads back as the double. *)
Lemma shortest_decimal_spec (x : Q) :
  0 < x -> rnd64 x == x ->
  (0 < fst (shortest_decimal x))%Z /\
  rnd64 (decimal (fst (shortest_decimal x)) (snd (shortest_decimal x))) == x.
Proof.
  intros Hx Hr. unfold shortest_decimal.
  assert (H : exists m e,
            match shortest x 1 17 with Some r => r | None => exact x end = (m, e) /\
            (0 < m)%Z /\ rnd64 (decimal m e) == x).
  { destruct (shortest x 1 17) as [[m e]|] eqn:S.
    - exists m, e. split; [reflexivity|]. exact (shortest_spec x 1 17 m e S).
    - destruct (exact_spec x Hx Hr) as [P V]. destruct (exact x) as [m e].
      exists m, e. split; [reflexivity|]. split; [exact P|].
      rewrite (rnd64_compat _ _ V). exact Hr. }
  destruct H as (m & e & -> & P & V).
  destruct (strip_spec (Z.to_nat (Z.log2 m)) m e P) as [P' V'].
  split; [exact P'|]. rewrite (rnd64_compat _ _ V'). exact V.
Qed.

(** *** Reading a decimal back *)

Lemma scan_stop (c : ascii) (r : string) (acc : N) (count : nat) :
  digit_value c = None -> scan (String c r) acc count = (acc, count, String c r).
Proof. intros H. cbn [scan]. rewrite H. reflexivity. Qed.

Lemma read_fixed (i f : string) :
  numeral i -> numeral f -> (0 < String.length i + String.length f)%nat ->
  read_decimal (i ++ "." ++ f)
  = Some (decimal (Z.of_N (value 0 (i ++ f))) (- Z.of_nat (String.length f))).
Proof.
  intros Hi Hf L. unfold read_decimal.
  rewrite (scan_numeral i _ 0 0 Hi). simpl (String.append "." f).
  rewrite scan_stop by reflexivity. change (Ascii.eqb "." ".") with true. cbv iota.
  rewrite <- (append_nil f) at 1. rewrite (scan_numeral f "" _ 0 Hf).
  cbn [scan]. rewrite <- (value_app i f 0 Hi).
  destruct (Nat.eqb_spec (0 + String.length i + (0 + String.length f)) 0) as [E|_]; [lia|].
  reflexivity.
Qed.

Lemma read_scientific (i f x : string) (ex : Z) :
  numeral i -> numeral f -> (0 < String.length i + String.length f)%nat ->
  read_exponent x = Some ex ->
  read_decimal (i ++ "." ++ f ++ "e" ++ x)
  = Some (decimal (Z.of_N (value 0 (i ++ f))) (ex - Z.of_nat (String.length f))).
Proof.
  intros Hi Hf L Hx. unfold read_decimal.
  rewrite (scan_numeral i _ 0 0 Hi). simpl (String.append "." _).
  rewrite scan_stop by reflexivity. change (Ascii.eqb "." ".") with true. cbv iota.
  rewrite (scan_numeral f _ _ 0 Hf). simpl (String.append "e" x).
  rewrite scan_stop by reflexivity. rewrite <- (value_app i f 0 Hi).
  destruct (Nat.eqb_spec (0 + String.length i + (0 + String.length f)) 0) as [E|_]; [lia|].
  change (Ascii.eqb "e" "e") with true. cbn [orb]. rewrite Hx. reflexivity.
Qed.

Lemma read_scientific_short (i x : string) (ex : Z) :
  numeral i -> (0 < String.length i)%nat ->
  read_exponent x = Some ex ->
  read_decimal (i ++ "e" ++ x) = Some (decimal (Z.of_N (value 0 i)) ex).
Proof.
  intros Hi L Hx. unfold read_decimal.
  rewrite (scan_numeral i _ 0 0 Hi). simpl (String.append "e" x).
  rewrite scan_stop by reflexivity. change (Ascii.eqb "e" ".") with false. cbv iota.
  destruct (Nat.eqb_spec (0 + String.length i + 0) 0) as [E|_]; [lia|].
  change (Ascii.eqb "e" "e") with true. cbn [orb]. rewrite Hx. simpl.
  rewrite Z.sub_0_r. reflexivity.
Qed.

Lemma read_show_exponent (ex : Z) : read_exponent (show_exponent ex) = Some ex.
Proof.
  unfold show_exponent, read_exponent.
  assert (R : read_N ((if (Z.abs ex <? 10)%Z then "0" else "") ++ show_N (Z.abs_N ex))
              = Some (Z.abs_N ex)).
  { destruct (Z.abs ex <? 10)%Z.
    - rewrite read_N_numeral.
      + rewrite value_app by reflexivity. simpl (value 0 "0").
        rewrite value_show_N. reflexivity.
      + apply numeral_app. split; [reflexivity | apply numeral_show_N].
      + simpl. lia.
    - apply read_show_N. }
  destruct (Z.ltb_spec ex 0) as [Hn|Hp].
  - change (Ascii.eqb "-" "-") with true. cbv iota. rewrite R. simpl. f_equal. lia.
  - change (Ascii.eqb "+" "-") with false. change (Ascii.eqb "+" "+") with true.
    cbv iota. rewrite R. simpl. f_equal. lia.
Qed.

(** What is read is the decimal that was written. *)
Lemma read_show_decimal (m e : Z) :
  (0 < m)%Z ->
  exists q, read_decimal (show_decimal m e) = Some q /\ q == decimal m e.
Proof.
  intros Hm. unfold show_decimal.
  set (ds := show_N (Z.to_N m)). set (n := String.length ds).
  assert (Hds : numeral ds) by apply numeral_show_N.
  assert (Hn : (0 < n)%nat) by apply length_show_N.
  assert (Hv : Z.of_N (value 0 ds) = m).
  { unfold ds. rewrite value_show_N. simpl. lia. }
  set (decpt := (Z.of_nat n + e)%Z).
  destruct ((-4 <? decpt) && (decpt <=? 16))%Z.
  - destruct (Z.leb_spec decpt 0) as [H0|H0]; [|destruct (Z.ltb_spec decpt (Z.of_nat n)) as [H1|H1]].
    + (* 0.000ddd *)
      change ("0." ++ zeros (Z.to_nat (- decpt)) ++ ds)
        with ("0" ++ "." ++ (zeros (Z.to_nat (- decpt)) ++ ds)).
      rewrite read_fixed.
      * eexists. split; [reflexivity|].
        simpl ("0" ++ _). cbn [value]. change (digit_value "0") with (Some 0%N). cbv iota.
        rewrite value_app by apply numeral_zeros. rewrite value_zeros.
        simpl (10 * 0 + 0)%N. rewrite N.mul_0_l. rewrite Hv.
        rewrite length_append, length_zeros. fold n.
        replace (- Z.of_nat (Z.to_nat (- decpt) + n))%Z with e by (unfold decpt in *; lia).
        reflexivity.
      * reflexivity.
      * apply numeral_app. split; [apply numeral_zeros | exact Hds].
      * simpl. lia.
    + (* ddd.ddd *)
      destruct (numeral_before_after (Z.to_nat decpt) ds Hds) as [Ht Hd].
      rewrite read_fixed; [|exact Ht | exact Hd | rewrite <- length_append, before_after; exact Hn].
      eexists. split; [reflexivity|]. rewrite before_after, Hv.
      assert (L : String.length (after (Z.to_nat decpt) ds) = (n - Z.to_nat decpt)%nat).
      { pose proof (length_append (before (Z.to_nat decpt) ds) (after (Z.to_nat decpt) ds)) as A.
        rewrite before_after in A. fold n in A. rewrite length_before in A by (fold n; lia). lia. }
      rewrite L. replace (- Z.of_nat (n - Z.to_nat decpt))%Z with e by (unfold decpt in *; lia).
      reflexivity.
    + (* ddd000.0 *)
      change (ds ++ zeros (Z.to_nat decpt - n) ++ ".0")
        with (ds ++ zeros (Z.to_nat decpt - n) ++ "." ++ "0").
      rewrite <- append_assoc. rewrite read_fixed.
      * eexists. split; [reflexivity|].
        rewrite value_app by (apply numeral_app; split; [exact Hds | apply numeral_zeros]).
        rewrite value_app by exact Hds. rewrite value_zeros.
        cbn [value]. change (digit_value "0") with (Some 0%N). cbv iota.
        simpl (String.length "0").
        replace (Z.of_N (10 * (value 0 ds * 10 ^ N.of_nat (Z.to_nat decpt - n)) + 0))
          with (m * 10 ^ (e + 1))%Z.
        { rewrite decimal_shift by (unfold decpt in *; lia).
          replace (- Z.of_nat 1 + (e + 1))%Z with e by lia. reflexivity. }
        rewrite <- Hv. rewrite N2Z.inj_add, !N2Z.inj_mul, N2Z.inj_pow, nat_N_Z.
        replace (Z.of_nat (Z.to_nat decpt - n)) with e by (unfold decpt in *; lia).
        rewrite Z.pow_add_r by (unfold decpt in *; lia). simpl (Z.of_N 10). simpl (Z.of_N 0).
        change (10 ^ 1)%Z with 10%Z. ring.
      * apply numeral_app. split; [exact Hds | apply numeral_zeros].
      * reflexivity.
      * rewrite length_append. fold n. lia.
  - (* d.ddde+XX *)
    destruct (numeral_before_after 1 ds Hds) as [Ht Hd].
    assert (Lt : String.length (before 1 ds) = 1%nat) by (apply length_before; fold n; lia).
    assert (Ld : String.length (after 1 ds) = (n - 1)%nat).
    { pose proof (length_append (before 1 ds) (after 1 ds)) as A.
      rewrite before_after in A. fold n in A. lia. }
    destruct (after 1 ds) as [|c rest] eqn:D.
    + change (before 1 ds ++ "" ++ "e" ++ show_exponent (decpt - 1))
        with (before 1 ds ++ "e" ++ show_exponent (decpt - 1)).
      rewrite (read_scientific_short _ _ _ Ht ltac:(lia) (read_show_exponent _)).
      eexists. split; [reflexivity|].
      pose proof (before_after 1 ds) as T. rewrite D, append_nil in T. rewrite T, Hv.
      simpl in Ld. replace (decpt - 1)%Z with e by (unfold decpt; lia). reflexivity.
    + change (before 1 ds ++ ("." ++ String c rest) ++ "e" ++ show_exponent (decpt - 1))
        with (before 1 ds ++ "." ++ String c rest ++ "e" ++ show_exponent (decpt - 1)).
      rewrite (read_scientific _ _ _ _ Ht Hd ltac:(lia) (read_show_exponent _)).
      eexists. split; [reflexivity|].
      rewrite <- D, before_after, Hv. rewrite D, Ld.
      replace (decpt - 1 - Z.of_nat (n - 1))%Z with e by (unfold decpt; lia). reflexivity.
Qed.

(** A double written and read back is the same double. *)
Lemma float_parse_repr (x : Q) :
  representable binary64 x ->
  exists y, float_parse (float_repr x) = Some y /\ y == x.
Proof.
  unfold representable. cbn [rnd binary64]. intros Hr. unfold float_repr.
  destruct (Qcompare_spec x 0) as [E|L|G].
  - exists (rnd64 (decimal 0 (-1))). split; [reflexivity|]. rewrite E. reflexivity.
  - assert (Hp : 0 < - x) by lra.
    assert (Hr' : rnd64 (- x) == - x).
    { rewrite (rnd64_neg x L) in Hr. rewrite (rnd64_pos _ Hp). lra. }
    destruct (shortest_decimal_spec (- x) Hp Hr') as [P V].
    destruct (shortest_decimal (- x)) as [m e]. cbn [fst snd] in P, V.
    destruct (read_show_decimal m e P) as (q & R & Eq).
    exists (rnd64 (- q)). split.
    + unfold float_parse.
      assert (N : read_decimal (String "-" (show_decimal m e)) = None).
      { unfold read_decimal. rewrite scan_stop by reflexivity. reflexivity. }
      rewrite N. change (Ascii.eqb "-" "-") with true. cbv iota. rewrite R. reflexivity.
    + assert (Dp : 0 < decimal m e) by (apply decimal_pos; exact P).
      assert (Qp : 0 < q) by (rewrite Eq; exact Dp).
      rewrite (rnd64_neg (- q)) by lra.
      assert (C : round_pos (- - q) == round_pos (decimal m e)).
      { apply round_pos_comp; [lra | rewrite Eq; ring]. }
      rewrite C. rewrite <- (rnd64_pos _ Dp), V. ring.
  - destruct (shortest_decimal_spec x G Hr) as [P V].
    destruct (shortest_decimal x) as [m e]. cbn [fst snd] in P, V.
    destruct (read_show_decimal m e P) as (q & R & Eq).
    exists (rnd64 q). split.
    + unfold float_parse. rewrite R. reflexivity.
    + rewrite (rnd64_compat _ _ Eq). exact V.
Qed.

(** The same for a cell: NaN is written as the empty field and read back as
    NaN. *)
Lemma read_show_cell (x : fval) :
  double x -> exists y, read_cell (show_cell x) = Some y /\ same_cell y x.
Proof.
  destruct x as [q|]; intros H; [|exists None; split; reflexivity].
  destruct (float_parse_repr q H) as (y & R & E).
  exists (Some y). split; [|exact E]. unfold show_cell, read_cell.
  destruct (float_repr q) as [|c r]; [discriminate R|]. rewrite R. reflexivity.
Qed.

(** *** Lines and fields *)

Lemma carriage_free_cons (c : ascii) (s : string) :
  carriage_free (String c s) <-> Ascii.eqb c CR = false /\ carriage_free s.
Proof. unfold carriage_free. cbn [any]. apply orb_false_iff. Qed.

Lemma carriage_free_app (a b : string) :
  carriage_free (a ++ b) <-> carriage_free a /\ carriage_free b.
Proof.
  induction a as [|c a IH]; simpl.
  - split; [intros H; split; [reflexivity | exact H] | intros [_ H]; exact H].
  - rewrite !carriage_free_cons, IH. tauto.
Qed.

Lemma carriage_free_numeral (s : string) : numeral s -> carriage_free s.
Proof.
  induction s as [|c s IH]; intros H; [reflexivity|].
  apply numeral_cons in H. destruct H as [[d Hd] H]. apply carriage_free_cons.
  split; [|apply IH; exact H].
  destruct (Ascii.eqb_spec c CR) as [->|]; [discriminate Hd | reflexivity].
Qed.

Lemma carriage_free_show_Z (z : Z) : carriage_free (show_Z z).
Proof.
  unfold show_Z. destruct (z <? 0)%Z.
  - apply carriage_free_cons. split; [reflexivity|].
    apply carriage_free_numeral, numeral_show_N.
  - apply carriage_free_numeral, numeral_show_N.
Qed.

Lemma carriage_free_show_decimal (m e : Z) : carriage_free (show_decimal m e).
Proof.
  unfold show_decimal.
  set (ds := show_N (Z.to_N m)).
  assert (Hds : numeral ds) by apply numeral_show_N.
  assert (Hex : forall ex, carriage_free (show_exponent ex)).
  { intros ex. unfold show_exponent. apply carriage_free_cons. split.
    - destruct (ex <? 0)%Z; reflexivity.
    - apply carriage_free_app. split; [destruct (Z.abs ex <? 10)%Z; reflexivity|].
      apply carriage_free_numeral, numeral_show_N. }
  destruct ((-4 <? _) && _)%Z; [destruct (_ <=? 0)%Z; [|destruct (_ <? _)%Z]|].
  - apply (carriage_free_app "0."). split; [reflexivity|]. apply carriage_free_numeral.
    apply numeral_app. split; [apply numeral_zeros | exact Hds].
  - destruct (numeral_before_after (Z.to_nat (Z.of_nat (String.length ds) + e)) ds Hds)
      as [Hb Ha].
    apply carriage_free_app. split; [apply carriage_free_numeral; exact Hb|].
    apply (carriage_free_app "."). split; [reflexivity|].
    apply carriage_free_numeral. exact Ha.
  - apply carriage_free_app. split; [apply carriage_free_numeral; exact Hds|].
    apply carriage_free_app. split; [apply carriage_free_numeral, numeral_zeros | reflexivity].
  - destruct (numeral_before_after 1 ds Hds) as [Hb Ha].
    apply carriage_free_app. split; [apply carriage_free_numeral; exact Hb|].
    apply carriage_free_app. split.
    + destruct (after 1 ds) as [|c r]; [reflexivity|].
      apply (carriage_free_app "."). split; [reflexivity|].
      apply carriage_free_numeral. exact Ha.
    + apply (carriage_free_app "e"). split; [reflexivity | apply Hex].
Qed.

Lemma carriage_free_show_cell (x : fval) : carriage_free (show_cell x).
Proof.
  destruct x as [q|]; [|reflexivity]. unfold show_cell, float_repr.
  destruct (Qcompare q 0).
  - reflexivity.
  - destruct (shortest_decimal (- q)) as [m e]. apply carriage_free_cons.
    split; [reflexivity | apply carriage_free_show_decimal].
  - destruct (shortest_decimal q) as [m e]. apply carriage_free_show_decimal.
Qed.

Lemma separator_plain (r : reader) (c : ascii) :
  special c = false -> Ascii.eqb c CR = false -> separator r c = None.
Proof.
  unfold special, separator, eol. intros H Hr.
  apply orb_false_iff in H. destruct H as [H Hl].
  apply orb_false_iff in H. destruct H as [Hc _]. rewrite Hc, Hl, Hr. reflexivity.
Qed.

Lemma feed_bare (s rest cur : string) (row : list string) (done : list (list string)) :
  any special s = false -> carriage_free s ->
  feed (s ++ rest) (Reader Bare cur row done) = feed rest (Reader Bare (cur ++ s) row done).
Proof.
  revert cur. induction s as [|c s IH]; intros cur H Hcr.
  - rewrite append_nil. reflexivity.
  - simpl in H. apply orb_false_iff in H. destruct H as [Hc Hs].
    apply carriage_free_cons in Hcr. destruct Hcr as [Hr Hcr].
    simpl (String c s ++ rest). cbn [feed step st].
    rewrite (separator_plain _ c Hc Hr). cbn [Text.cur Text.row Text.done].
    rewrite (IH _ Hs Hcr). unfold snoc. rewrite append_assoc. reflexivity.
Qed.

Lemma feed_quoted (s rest cur : string) (row : list string) (done : list (list string)) :
  feed (escape s ++ rest) (Reader Quoted cur row done)
  = feed rest (Reader Quoted (cur ++ s) row done).
Proof.
  revert cur. induction s as [|c s IH]; intros cur.
  - rewrite append_nil. reflexivity.
  - cbn [escape]. destruct (Ascii.eqb_spec c quote) as [->|Hc].
    + simpl (String quote (String quote (escape s)) ++ rest). cbn [feed step st].
      change (Ascii.eqb quote quote) with true. cbv iota. cbn [feed step st].
      change (Ascii.eqb quote quote) with true. cbv iota. cbn [Text.cur Text.row Text.done].
      rewrite IH. unfold snoc. rewrite append_assoc. reflexivity.
    + simpl (String c (escape s) ++ rest). cbn [feed step st].
      apply Ascii.eqb_neq in Hc. rewrite Hc. cbn [Text.cur Text.row Text.done].
      rewrite IH. unfold snoc. rewrite append_assoc. reflexivity.
Qed.

(** After a field the reader is in a state in which a separator ends the
    field with the text of the field; [sep] is a comma or a line feed. *)
Lemma feed_field (s rest : string) (sep : ascii) (row : list string)
  (done : list (list string)) :
  sep = ","%char \/ sep = LF ->
  carriage_free s ->
  (s = "" -> sep = LF -> row <> []) ->
  feed (field s ++ String sep rest) (Reader FieldStart "" row done)
  = feed rest (if Ascii.eqb sep "," then Reader FieldStart "" (row ++ [s])%list done
               else Reader FieldStart "" [] (done ++ [row ++ [s]])%list).
Proof.
  intros Hsep Hcr Hblank.
  assert (Hq : Ascii.eqb sep quote = false) by (destruct Hsep as [-> | ->]; reflexivity).
  assert (Hs : forall cur,
            separator (Reader Bare cur row done) sep
            = Some (if Ascii.eqb sep ","
                    then Reader FieldStart "" (row ++ [cur])%list done
                    else Reader FieldStart "" [] (done ++ [row ++ [cur]])%list)).
  { intros cur. destruct Hsep as [-> | ->]; reflexivity. }
  unfold field. destruct (any special s) eqn:A.
  - simpl (String quote _ ++ _). cbn [feed step st].
    change (Ascii.eqb quote quote) with true. cbv iota. cbn [Text.row Text.done].
    rewrite append_assoc. rewrite feed_quoted. simpl ("" ++ s).
    simpl (String quote "" ++ String sep rest). cbn [feed step st].
    change (Ascii.eqb quote quote) with true. cbv iota.
    cbn [feed step st Text.cur Text.row Text.done]. rewrite Hq.
    change (separator (Reader QuoteSeen s row done) sep)
      with (separator (Reader Bare s row done) sep).
    rewrite Hs. reflexivity.
  - destruct s as [|c s].
    + simpl ("" ++ _). cbn [feed step st]. rewrite Hq.
      destruct Hsep as [-> | ->].
      * reflexivity.
      * change (eol LF) with true. cbv iota.
        destruct row as [|f row]; [exfalso; exact (Hblank eq_refl eq_refl eq_refl)|].
        reflexivity.
    + simpl in A. apply orb_false_iff in A. destruct A as [Hc A].
      apply carriage_free_cons in Hcr. destruct Hcr as [Hr Hcr].
      simpl (String c s ++ _). cbn [feed step st].
      pose proof Hc as Hc'. unfold special in Hc'.
      apply orb_false_iff in Hc'. destruct Hc' as [Hc' Hl].
      apply orb_false_iff in Hc'. destruct Hc' as [Hcomma Hquote].
      unfold eol. rewrite Hquote, Hl, Hr, Hcomma. cbn [orb Text.row Text.done].
      rewrite (feed_bare s _ _ _ _ A Hcr). simpl (String c "" ++ s).
      cbn [feed step st]. rewrite Hs. reflexivity.
Qed.

Lemma feed_fields (fs : list string) (rest : string) (row : list string)
  (done : list (list string)) :
  fs <> [] -> (row = [] -> blank fs = false) -> Forall carriage_free fs ->
  feed (String.concat "," (List.map field fs) ++ String LF rest)
    (Reader FieldStart "" row done)
  = feed rest (Reader FieldStart "" [] (done ++ [row ++ fs])%list).
Proof.
  revert row. induction fs as [|f fs IH]; intros row Hne Hb Hcr; [congruence|].
  apply List.Forall_cons_iff in Hcr. destruct Hcr as [Hf Hcr].
  destruct fs as [|g fs].
  - cbn [List.map String.concat]. rewrite feed_field; [reflexivity | right; reflexivity | exact Hf |].
    intros -> _ ->. specialize (Hb eq_refl). discriminate.
  - change (String.concat "," (List.map field (f :: g :: fs)))
      with (field f ++ String "," (String.concat "," (List.map field (g :: fs)))).
    rewrite append_assoc, append_cons.
    rewrite feed_field; [|left; reflexivity | exact Hf | discriminate].
    change (Ascii.eqb "," ",") with true. cbv iota.
    rewrite IH; [|discriminate | intros E; destruct row; discriminate | exact Hcr].
    rewrite <- List.app_assoc. reflexivity.
Qed.

Lemma unlines_cons (l : list string) (ls : list (list string)) :
  unlines (l :: ls) = line l ++ unlines ls.
Proof.
  unfold unlines. destruct ls as [|l' ls]; cbn [List.map String.concat].
  - rewrite append_nil. reflexivity.
  - reflexivity.
Qed.

Lemma feed_unlines (ls : list (list string)) (done : list (list string)) :
  Forall plain_line ls ->
  feed (unlines ls) (Reader FieldStart "" [] done) = Some (done ++ ls)%list.
Proof.
  intros H. revert done. induction H as [|l ls [Hl Hcr] _ IH]; intros done.
  - simpl. rewrite List.app_nil_r. reflexivity.
  - rewrite unlines_cons. unfold line, newline. rewrite append_assoc.
    simpl (String LF "" ++ _). rewrite feed_fields.
    + rewrite IH. rewrite <- List.app_assoc. reflexivity.
    + destruct l; [discriminate Hl | discriminate].
    + intros _. exact Hl.
    + exact Hcr.
Qed.

(** The lines written are the lines read. *)
Lemma records_unlines (ls : list (list string)) :
  Forall plain_line ls -> records (unlines ls) = Some ls.
Proof. intros H. unfold records. rewrite (feed_unlines ls [] H). reflexivity. Qed.

(** A carriage return in a field that the writer leaves bare ends the line
    for the reader: one line written, two lines read. *)
Example carriage_return_splits_a_line :
  records (unlines [["1"; String "a" (String CR "b")]])
  = Some [["1"; "a"]; ["b"]].
Proof. reflexivity. Qed.

(** *** Tables *)

Lemma traverse_map {A B C : Type} (show : A -> C) (read : C -> option B)
  (P : A -> Prop) (R : B -> A -> Prop) (l : list A) :
  (forall a, P a -> exists b, read (show a) = Some b /\ R b a) ->
  Forall P l ->
  exists l', traverse read (List.map show l) = Some l' /\ Forall2 R l' l.
Proof.
  intros H Hl. induction Hl as [|a l Ha _ IH].
  - exists []. split; [reflexivity | constructor].
  - destruct (H a Ha) as (b & Eb & Rb). destruct IH as (l' & El & Rl).
    exists (b :: l'). split; [|constructor; assumption].
    cbn [List.map traverse]. rewrite Eb, El. reflexivity.
Qed.

Lemma read_show_table_row (r : Hotspot.table_row) :
  table_cells r ->
  exists r', read_table_row (show_table_row r) = Some r' /\ same_table_row r' r.
Proof.
  intros (H & _ & _). destruct (read_show_cell _ H) as (p & Ep & Sp).
  exists (Hotspot.TableRow (Hotspot.t_cell_id r) (Hotspot.t_mid_date r) p (Hotspot.t_others r)).
  split; [|repeat split; exact Sp].
  unfold show_table_row, read_table_row. rewrite read_show_Z, Ep. reflexivity.
Qed.

Lemma table_lines_plain (extra : list string) (df : list Hotspot.table_row) :
  Forall carriage_free extra -> Forall table_cells df ->
  Forall plain_line (table_header extra :: List.map show_table_row df).
Proof.
  intros He Hdf. constructor.
  - split; [reflexivity|]. unfold table_header. apply List.Forall_app.
    split; [repeat constructor | exact He].
  - apply List.Forall_forall. intros fs Hfs. apply in_map_iff in Hfs.
    destruct Hfs as (r & <- & Hr).
    destruct (proj1 (List.Forall_forall _ _) Hdf r Hr) as (_ & Hd & Ho).
    split; [reflexivity|]. unfold show_table_row.
    repeat constructor; try assumption;
      [apply carriage_free_show_Z | apply carriage_free_show_cell].
Qed.

(** The lines of the forecast table as text: the header and one line per
    row. *)
Lemma table_lines (extra : list string) (df : list Hotspot.table_row) :
  Forall carriage_free extra -> Forall table_cells df ->
  exists body,
    records (to_csv (table_with extra) df) = Some (table_header extra :: body) /\
    List.length body = List.length df.
Proof.
  intros He Hdf. eexists. split.
  - cbn [to_csv table_with]. apply records_unlines, table_lines_plain; assumption.
  - apply List.length_map.
Qed.

(** The forecast table written as text reads back as the same table: the
    same columns, and row for row the same values. *)
Lemma table_round_trip (extra : list string) (df : list Hotspot.table_row) :
  Forall carriage_free extra -> Forall table_cells df ->
  exists df',
    read_csv (table_with extra) (to_csv (table_with extra) df) = Some df' /\
    Forall2 same_table_row df' df.
Proof.
  intros He H.
  destruct (traverse_map show_table_row read_table_row _ same_table_row df
              read_show_table_row H) as (df' & E & S).
  exists df'. split; [|exact S]. cbn [to_csv read_csv table_with].
  rewrite records_unlines by (apply table_lines_plain; assumption).
  destruct (List.list_eq_dec string_dec (table_header extra) (table_header extra))
    as [_|N]; [exact E | congruence].
Qed.

Lemma plain_view_row (r : Combined.merged_row) (c : option fval) :
  view_cells r -> plain_line (show_view_row r c).
Proof.
  intros (_ & _ & _ & _ & Hd & Ho). split; [reflexivity|]. unfold show_view_row.
  repeat (apply List.Forall_app; split); try exact Ho.
  - repeat constructor; try exact Hd;
      [apply carriage_free_show_Z | apply carriage_free_show_cell
       | apply carriage_free_show_cell].
  - repeat constructor; apply carriage_free_show_cell.
  - destruct c; repeat constructor. apply carriage_free_show_cell.
Qed.

Lemma plain_view_header (extra : list string) (compound : bool) :
  Forall carriage_free extra -> plain_line (view_header extra compound).
Proof.
  intros He. split; [reflexivity|]. unfold view_header.
  repeat (apply List.Forall_app; split); try exact He.
  - repeat constructor.
  - repeat constructor.
  - destruct compound; repeat constructor.
Qed.

Lemma read_show_view_row (r : Combined.merged_row) (c : option fval) :
  view_cells r ->
  match c with Some x => double x | None => True end ->
  exists r' c',
    read_view_row (match c with Some _ => true | None => false end) (show_view_row r c)
    = Some (r', c') /\
    same_row r' r /\
    match c', c with
    | Some x', Some x => same_cell x' x
    | None, None => True
    | _, _ => False
    end.
Proof.
  intros (Hp & Ha & Hx & Hy & _ & _) Hc.
  destruct (read_show_cell _ Hp) as (p & Ep & Sp).
  destruct (read_show_cell _ Ha) as (a & Ea & Sa).
  destruct (read_show_cell _ Hx) as (x & Ex & Sx).
  destruct (read_show_cell _ Hy) as (y & Ey & Sy).
  set (r' := Combined.MergedRow
               (Combined.RiskRow (Combined.cell_id (Combined.risk r))
                  (Combined.mid_date (Combined.risk r)) p a
                  (Combined.others (Combined.risk r))) x y).
  assert (Sr : same_row r' r) by (repeat split; assumption).
  unfold show_view_row, read_view_row. cbn [List.app].
  set (others := Combined.others (Combined.risk r)).
  rewrite read_show_Z, Ep, Ea.
  destruct c as [z|].
  - destruct (read_show_cell z Hc) as (z' & Ez & Sz).
    exists r', (Some z').
    replace (List.length (others ++ [show_cell (Combined.lon r); show_cell (Combined.lat r);
                                show_cell z])%list - 3)%nat
      with (List.length others) by (rewrite List.length_app; simpl; lia).
    rewrite List.skipn_app, List.skipn_all, Nat.sub_diag. cbn [List.app skipn].
    rewrite Ex, Ey, Ez. cbn [option_map].
    rewrite List.firstn_app, List.firstn_all, Nat.sub_diag. cbn [firstn].
    rewrite List.app_nil_r. split; [reflexivity|]. split; [exact Sr | exact Sz].
  - exists r', None.
    replace (List.length (others ++ [show_cell (Combined.lon r); show_cell (Combined.lat r)])%list
             - 2)%nat
      with (List.length others) by (rewrite List.length_app; simpl; lia).
    rewrite List.skipn_app, List.skipn_all, Nat.sub_diag. cbn [List.app skipn].
    rewrite Ex, Ey.
    rewrite List.firstn_app, List.firstn_all, Nat.sub_diag. cbn [firstn].
    rewrite List.app_nil_r. split; [reflexivity|]. split; [exact Sr | exact I].
Qed.

Lemma combine_columns {A B : Type} (l : list A) (col : list B) :
  List.length col = List.length l ->
  List.map fst (combine l col) = l /\ List.map snd (combine l col) = col.
Proof.
  revert col. induction l as [|a l IH]; intros [|b col] H; simpl in H; try discriminate.
  - split; reflexivity.
  - destruct (IH col ltac:(lia)) as [E1 E2]. cbn [combine List.map fst snd].
    rewrite E1, E2. split; reflexivity.
Qed.

Lemma Forall_combine {A B : Type} (P : A -> Prop) (Q : B -> Prop) (l : list A)
  (col : list B) :
  Forall P l -> Forall Q col -> Forall (fun rc => P (fst rc) /\ Q (snd rc)) (combine l col).
Proof.
  intros Hl. revert col. induction Hl as [|a l Ha _ IH]; intros col Hc; [constructor|].
  destruct Hc as [|b col Hb Hc]; [constructor|].
  cbn [combine]. constructor; [split; assumption | apply IH; exact Hc].
Qed.

Lemma Forall2_fst {A B C : Type} (R : A -> C -> Prop) (rs : list (A * B)) (l : list C) :
  Forall2 (fun b r => R (fst b) r) rs l -> Forall2 R (List.map fst rs) l.
Proof. intros S. induction S; cbn [List.map]; constructor; assumption. Qed.

Lemma header_differs (extra : list string) : view_header extra true <> view_header extra false.
Proof.
  intros E. apply (f_equal (@List.length string)) in E. unfold view_header in E.
  rewrite !List.length_app in E. simpl in E. lia.
Qed.

Lemma view_lines_plain (extra : list string) (v : Combined.view) :
  Forall carriage_free extra -> Forall view_cells (Combined.rows v) ->
  match Combined.compound_risk v with
  | None =>
      Forall plain_line
        (view_header extra false
         :: List.map (fun r => show_view_row r None) (Combined.rows v))
  | Some col =>
      Forall plain_line
        (view_header extra true
         :: List.map (fun rc => show_view_row (fst rc) (Some (snd rc)))
              (combine (Combined.rows v) col))
  end.
Proof.
  intros He Hrows. destruct (Combined.compound_risk v) as [col|].
  - constructor; [apply plain_view_header; exact He|].
    apply List.Forall_forall. intros fs Hfs. apply in_map_iff in Hfs.
    destruct Hfs as ([r c] & <- & Hrc). apply plain_view_row.
    apply in_combine_l in Hrc. exact (proj1 (List.Forall_forall _ _) Hrows r Hrc).
  - constructor; [apply plain_view_header; exact He|].
    apply List.Forall_forall. intros fs Hfs. apply in_map_iff in Hfs.
    destruct Hfs as (r & <- & Hr). apply plain_view_row.
    exact (proj1 (List.Forall_forall _ _) Hrows r Hr).
Qed.

(** The filtered view written as text reads back as the same view: the
    same columns, and row for row the same values. *)
Lemma view_round_trip (extra : list string) (v : Combined.view) :
  Forall carriage_free extra ->
  Forall view_cells (Combined.rows v) ->
  match Combined.compound_risk v with
  | Some col => Forall double col /\ List.length col = List.length (Combined.rows v)
  | None => True
  end ->
  exists v',
    read_csv (view_with extra) (to_csv (view_with extra) v) = Some v' /\ same_view v' v.
Proof.
  intros He Hrows Hcol. pose proof (view_lines_plain extra v He Hrows) as Hplain.
  cbn [to_csv read_csv view_with]. unfold show_view, read_view, same_view.
  destruct (Combined.compound_risk v) as [col|].
  - destruct Hcol as [Hcol Hlen].
    destruct (traverse_map (fun rc => show_view_row (fst rc) (Some (snd rc)))
                (read_view_row true)
                (fun rc => view_cells (fst rc) /\ double (snd rc))
                (fun b rc => same_row (fst b) (fst rc) /\
                             exists x, snd b = Some x /\ same_cell x (snd rc))
                (combine (Combined.rows v) col)) as (rs & E & S).
    { intros [r c] [Hr Hc]. cbn [fst snd] in *.
      destruct (read_show_view_row r (Some c) Hr Hc) as (r' & c' & Er & Sr & Sc).
      exists (r', c'). split; [exact Er|]. split; [exact Sr|].
      destruct c' as [x|]; [|destruct Sc]. exists x. auto. }
    { apply Forall_combine; assumption. }
    rewrite records_unlines by exact Hplain.
    destruct (List.list_eq_dec string_dec (view_header extra true) (view_header extra false))
      as [D|_]; [destruct (header_differs extra D)|].
    destruct (List.list_eq_dec string_dec (view_header extra true) (view_header extra true))
      as [_|N]; [|congruence].
    rewrite E.
    destruct (combine_columns (Combined.rows v) col Hlen) as [E1 E2].
    assert (T : exists col', traverse snd rs = Some col' /\
                  Forall2 same_row (List.map fst rs)
                    (List.map fst (combine (Combined.rows v) col)) /\
                  Forall2 same_cell col' (List.map snd (combine (Combined.rows v) col))).
    { clear -S. induction S as [|b rc rs l [Sr (x & Ex & Sx)] _ IH].
      - exists []. repeat split; constructor.
      - destruct IH as (col' & Ec & F1 & F2). exists (x :: col').
        cbn [traverse List.map]. rewrite Ex, Ec.
        repeat split; constructor; assumption. }
    rewrite E1, E2 in T.
    destruct T as (col' & Ec & F1 & F2). rewrite Ec. cbn [option_map].
    eexists. split; [reflexivity|]. cbn [Combined.rows Combined.compound_risk].
    split; assumption.
  - destruct (traverse_map (fun r => show_view_row r None) (read_view_row false)
                view_cells (fun b r => same_row (fst b) r) (Combined.rows v))
      as (rs & E & S).
    { intros r Hr. destruct (read_show_view_row r None Hr I) as (r' & c' & Er & Sr & _).
      exists (r', c'). split; [exact Er | exact Sr]. }
    { exact Hrows. }
    rewrite records_unlines by exact Hplain.
    destruct (List.list_eq_dec string_dec (view_header extra false) (view_header extra false))
      as [_|N]; [|congruence].
    rewrite E. cbn [option_map]. eexists. split; [reflexivity|].
    cbn [Combined.rows Combined.compound_risk]. split; [|exact I].
    apply Forall2_fst. exact S.
Qed.

(** The lines of the text, without reading the cells: the header and one
    line per row. *)
Lemma view_lines (extra : list string) (v : Combined.view) :
  Forall carriage_free extra ->
  Forall view_cells (Combined.rows v) ->
  match Combined.compound_risk v with
  | Some col => List.length col = List.length (Combined.rows v)
  | None => True
  end ->
  exists body,
    records (to_csv (view_with extra) v)
    = Some (view_header extra
              (match Combined.compound_risk v with Some _ => true | None => false end)
            :: body) /\
    List.length body = List.length (Combined.rows v).
Proof.
  intros He Hrows Hlen. pose proof (view_lines_plain extra v He Hrows) as Hplain.
  cbn [to_csv view_with]. unfold show_view.
  destruct (Combined.compound_risk v) as [col|].
  - eexists. split; [apply records_unlines; exact Hplain|].
    rewrite List.length_map.
    rewrite <- (proj1 (combine_columns (Combined.rows v) col Hlen)) at 2.
    rewrite List.length_map. reflexivity.
  - eexists. split; [apply records_unlines; exact Hplain|].
    apply List.length_map.
Qed.

End TextFacts.

(** ** The data loaders *)

Module LoaderSpec.

Lemma hotspot_load_data (G : Geo.lib) (d : Hotspot.disk G) (county : string) :
  Hotspot.load_data G d county =
  match Hotspot.points_at d (base ++ "/" ++ lower county ++ "_hotspot_forecast.geojson") with
  | inl e => inl e
  | inr gdf =>
      match Hotspot.table_at d (base ++ "/" ++ lower county ++ "_hotspot_forecast.csv") with
      | inl e => inl e
      | inr df =>
          inr (gdf, df,
               Hotspot.try_boundary G
                 (Hotspot.boundary_at d (base ++ "/" ++ lower county ++ "_boundary.geojson")))
      end
  end.
Proof.
  unfold Hotspot.load_data.
  destruct (Hotspot.points_at d _) as [e|gdf]; [reflexivity|].
  destruct (Hotspot.table_at d _) as [e|df]; reflexivity.
Qed.

(** What the [try] statement of the hotspot loader leaves in [boundary]. *)
Lemma try_boundary_cases (G : Geo.lib) (read : exn + Geo.frame (Geo.polygon G)) :
  match read with
  | inl _ => Hotspot.try_boundary G read = None
  | inr b0 =>
      match Geo.to_crs (Geo.transform_polygon G) b0 with
      | inl _ => Hotspot.try_boundary G read = None
      | inr b1 =>
          match Geo.features b1 with
          | [] => Hotspot.try_boundary G read = Some b1
          | ps =>
              match Geo.unary_union G ps with
              | inl _ => Hotspot.try_boundary G read = Some b1
              | inr u => Hotspot.try_boundary G read = Some (Geo.Frame (Geo.crs b1) [u])
              end
          end
      end
  end.
Proof.
  unfold Hotspot.try_boundary, Geo.dissolve.
  destruct read as [e|b0]; simpl; [reflexivity|].
  destruct (Geo.to_crs (Geo.transform_polygon G) b0) as [e|b1]; [reflexivity|].
  destruct (Geo.features b1) as [|p ps]; [reflexivity|].
  simpl. destruct (Geo.unary_union G (p :: ps)); reflexivity.
Qed.

Lemma combined_load_data (G : Geo.lib) (d : Combined.disk G) (county : string) :
  Combined.load_data G d county =
  match Combined.table_at d (base ++ "/" ++ lower county ++ "_hotspot_enhanced.csv") with
  | inl e => inl e
  | inr df =>
      match Combined.points_at d (base ++ "/" ++ lower county ++ "_hotspot_forecast.geojson") with
      | inl e => inl e
      | inr gdf =>
          inr (df, gdf,
               boundary_of G
                 (Combined.boundary_at d (base ++ "/" ++ lower county ++ "_boundary.geojson")))
      end
  end.
Proof.
  unfold Combined.load_data, boundary_of.
  destruct (Combined.table_at d _) as [e|df]; [reflexivity|].
  destruct (Combined.points_at d _) as [e|gdf]; [reflexivity|].
  destruct (Combined.boundary_at d _) as [e|b]; [reflexivity|].
  simpl. destruct (Geo.to_crs (Geo.transform_polygon G) b) as [e|b']; [reflexivity|].
  simpl. destruct (Geo.dissolve G b'); reflexivity.
Qed.

(** C9. In both loaders a failure of the boundary read (a missing or a
    malformed file, or a boundary that cannot be reprojected) never surfaces:
    the loader returns normally with the boundary "not available".  A failure
    of a required read (tabular or point data) is the result of the loader. *)
Theorem loader_error_policy (G : Geo.lib) (dh : Hotspot.disk G) (dc : Combined.disk G)
  (county : string) :
  ((forall e, Hotspot.points_at dh (base ++ "/" ++ lower county ++ "_hotspot_forecast.geojson")
              = inl e ->
              Hotspot.load_data G dh county = inl e) /\
   (forall gdf e,
      Hotspot.points_at dh (base ++ "/" ++ lower county ++ "_hotspot_forecast.geojson")
      = inr gdf ->
      Hotspot.table_at dh (base ++ "/" ++ lower county ++ "_hotspot_forecast.csv") = inl e ->
      Hotspot.load_data G dh county = inl e) /\
   (forall gdf df,
      Hotspot.points_at dh (base ++ "/" ++ lower county ++ "_hotspot_forecast.geojson")
      = inr gdf ->
      Hotspot.table_at dh (base ++ "/" ++ lower county ++ "_hotspot_forecast.csv") = inr df ->
      exists boundary,
        Hotspot.load_data G dh county = inr (gdf, df, boundary) /\
        (forall e, Hotspot.boundary_at dh (base ++ "/" ++ lower county ++ "_boundary.geojson")
                   = inl e -> boundary = None) /\
        (forall b e, Hotspot.boundary_at dh (base ++ "/" ++ lower county ++ "_boundary.geojson")
                     = inr b ->
                     Geo.to_crs (Geo.transform_polygon G) b = inl e -> boundary = None))) /\
  ((forall e, Combined.table_at dc (base ++ "/" ++ lower county ++ "_hotspot_enhanced.csv")
              = inl e ->
              Combined.load_data G dc county = inl e) /\
   (forall df e,
      Combined.table_at dc (base ++ "/" ++ lower county ++ "_hotspot_enhanced.csv") = inr df ->
      Combined.points_at dc (base ++ "/" ++ lower county ++ "_hotspot_forecast.geojson")
      = inl e ->
      Combined.load_data G dc county = inl e) /\
   (forall df gdf,
      Combined.table_at dc (base ++ "/" ++ lower county ++ "_hotspot_enhanced.csv") = inr df ->
      Combined.points_at dc (base ++ "/" ++ lower county ++ "_hotspot_forecast.geojson")
      = inr gdf ->
      exists boundary,
        Combined.load_data G dc county = inr (df, gdf, boundary) /\
        (forall e, Combined.boundary_at dc (base ++ "/" ++ lower county ++ "_boundary.geojson")
                   = inl e -> boundary = None) /\
        (forall b e, Combined.boundary_at dc (base ++ "/" ++ lower county ++ "_boundary.geojson")
                     = inr b ->
                     Geo.to_crs (Geo.transform_polygon G) b = inl e -> boundary = None))).
Proof.
  split.
  - rewrite hotspot_load_data. repeat split.
    + intros e ->. reflexivity.
    + intros gdf e -> ->. reflexivity.
    + intros gdf df -> ->. eexists. split; [reflexivity|]. split.
      * intros e ->. reflexivity.
      * intros b e -> E. unfold Hotspot.try_boundary. simpl. rewrite E. reflexivity.
  - rewrite combined_load_data. repeat split.
    + intros e ->. reflexivity.
    + intros df e -> ->. reflexivity.
    + intros df gdf -> ->. eexists. split; [reflexivity|]. split.
      * intros e ->. reflexivity.
      * intros b e -> E. unfold boundary_of. rewrite E. reflexivity.
Qed.

Lemma loader_error_policy_witness :
  Hotspot.load_data Boxes.geometry Wajir.malformed_boundary_disk "Wajir"
  = inr (Wajir.points, Wajir.forecast, None) /\
  Combined.load_data Boxes.geometry Wajir.no_table_disk "Wajir"
  = inl (FileNotFoundError "../data/processed/wajir_hotspot_enhanced.csv").
Proof.
  destruct (loader_error_policy Boxes.geometry Wajir.malformed_boundary_disk
              Wajir.no_table_disk "Wajir") as [(_ & _ & Hh) (Hc & _)].
  split.
  - destruct (Hh Wajir.points Wajir.forecast eq_refl eq_refl) as (b & E & Hnone & _).
    rewrite (Hnone (ParserError "../data/processed/wajir_boundary.geojson") eq_refl) in E.
    exact E.
  - exact (Hc (FileNotFoundError "../data/processed/wajir_hotspot_enhanced.csv") eq_refl).
Defined.

End LoaderSpec.

(** ** The hotspot dashboard *)

Module HotspotSpec.
Import Float Hotspot FloatFacts ListFacts LoaderSpec.

(** Joining against a single polygon is a filter. *)
Lemma sjoin_single {A : Type} (G : Geo.lib) (geom : A -> Geo.point) (l : list A)
  (u : Geo.polygon G) :
  Geo.sjoin_within G geom l [u] = List.filter (fun r => Geo.within G (geom r) u) l.
Proof.
  unfold Geo.sjoin_within. induction l as [|a l IH]; cbn [flat_map].
  - reflexivity.
  - rewrite IH. simpl. destruct (Geo.within G (geom a) u); reflexivity.
Qed.

(** Against several overlapping parts the join repeats a point: the dissolve
    of the loader is what keeps the points unique. *)
Example undissolved_parts_repeat_points :
  Geo.sjoin_within Boxes.geometry geometry (Geo.features Wajir.points)
    (Geo.features Wajir.boundary)
  = [ PointRow 1 (Some (Wajir.d 0.9)) (39, 1) []; PointRow 1 (Some (Wajir.d 0.9)) (39, 1) [];
      PointRow 2 (Some (Wajir.d 0.7)) (39, 1) []; PointRow 2 (Some (Wajir.d 0.7)) (39, 1) [];
      PointRow 3 (Some (Wajir.d 0.5)) (40, 2) []; PointRow 3 (Some (Wajir.d 0.5)) (40, 2) [] ].
Proof. vm_compute. reflexivity. Qed.

(** C8. Without a boundary (none loaded, or an empty one) the spatial filter
    returns its input unchanged, and whatever the boundary every row it
    returns is a row of its input.  When the parts of the boundary file have
    been dissolved, the loaded boundary is their union alone and the filter
    returns, in order, exactly the input points within it: no point is
    repeated or lost.  When the dissolve raises, the loader keeps the
    reprojected parts of the file, and the filter returns one row for every
    pair of an input point and a part that contains it.  On the last path the
    points are not kept apart: for a boundary file with two overlapping parts
    and a third, invalid one, the cells 1, 2 and 3 lie in both valid parts
    and come out twice each. *)
Theorem spatial_filter_subset :
  (forall (G : Geo.lib) (d : disk G) (county : string) (pts : Geo.frame point_row)
          (df : list table_row) (boundary : option (Geo.frame (Geo.polygon G)))
          (gdf : list point_row),
     load_data G d county = inr (pts, df, boundary) ->
     spatial_filter G None gdf = gdf /\
     (parts boundary = [] -> spatial_filter G boundary gdf = gdf) /\
     (forall r, In r (spatial_filter G boundary gdf) -> In r gdf) /\
     (forall b0 b1,
        boundary_at d (base ++ "/" ++ lower county ++ "_boundary.geojson") = inr b0 ->
        Geo.to_crs (Geo.transform_polygon G) b0 = inr b1 ->
        Geo.features b1 <> [] ->
        (forall u, Geo.unary_union G (Geo.features b1) = inr u ->
           parts boundary = [u] /\
           spatial_filter G boundary gdf
           = List.filter (fun r => Geo.within G (geometry r) u) gdf /\
           (length (spatial_filter G boundary gdf) <= length gdf)%nat /\
           (List.NoDup gdf -> List.NoDup (spatial_filter G boundary gdf))) /\
        (forall e, Geo.unary_union G (Geo.features b1) = inl e ->
           boundary = Some b1 /\
           spatial_filter G boundary gdf
           = Geo.sjoin_within G geometry gdf (Geo.features b1)))) /\
  (load_data Boxes.geometry Wajir.invalid_boundary_disk "Wajir"
   = inr (Wajir.points, Wajir.forecast, Some Wajir.invalid_boundary) /\
   List.NoDup (Geo.features Wajir.points) /\
   List.map cell_id
     (spatial_filter Boxes.geometry (Some Wajir.invalid_boundary) (Geo.features Wajir.points))
   = [1; 1; 2; 2; 3; 3]%Z /\
   (length (Geo.features Wajir.points)
    < length (spatial_filter Boxes.geometry (Some Wajir.invalid_boundary)
                (Geo.features Wajir.points)))%nat /\
   ~ List.NoDup
       (spatial_filter Boxes.geometry (Some Wajir.invalid_boundary)
          (Geo.features Wajir.points))).
Proof.
  split.
  - intros G d county pts df boundary gdf. rewrite hotspot_load_data.
    destruct (points_at d _) as [e|pts']; [discriminate|].
    destruct (table_at d _) as [e|df']; [discriminate|].
    intros E. injection E as _ _ <-.
    set (read := boundary_at d _).
    split; [reflexivity|]. split; [|split].
    + unfold spatial_filter. intros ->. reflexivity.
    + intros r. unfold spatial_filter.
      destruct (parts (try_boundary G read)) as [|p ps]; [tauto|].
      rewrite in_sjoin. tauto.
    + intros b0 b1 E0 E1 Hne. subst read. rewrite E0.
      pose proof (try_boundary_cases G (inr b0)) as H. cbv beta iota in H.
      rewrite E1 in H.
      destruct (Geo.features b1) as [|p ps] eqn:Ef; [congruence|]. split.
      * intros u Eu. rewrite Eu in H. rewrite H. unfold spatial_filter. simpl.
        split; [reflexivity|]. rewrite sjoin_single.
        split; [reflexivity|]. split; [apply filter_length_le|].
        apply NoDup_filter_keeps.
      * intros e Ee. rewrite Ee in H. rewrite H. split; [reflexivity|].
        unfold spatial_filter. simpl. rewrite Ef. reflexivity.
  - assert (E : spatial_filter Boxes.geometry (Some Wajir.invalid_boundary)
                  (Geo.features Wajir.points)
                = [ PointRow 1 (Some (Wajir.d 0.9)) (39, 1) [];
                    PointRow 1 (Some (Wajir.d 0.9)) (39, 1) [];
                    PointRow 2 (Some (Wajir.d 0.7)) (39, 1) [];
                    PointRow 2 (Some (Wajir.d 0.7)) (39, 1) [];
                    PointRow 3 (Some (Wajir.d 0.5)) (40, 2) [];
                    PointRow 3 (Some (Wajir.d 0.5)) (40, 2) [] ])
      by (vm_compute; reflexivity).
    split; [reflexivity|]. split; [|split; [|split]].
    + repeat (constructor; [simpl; intuition discriminate|]). constructor.
    + rewrite E. reflexivity.
    + rewrite E. simpl. lia.
    + rewrite E. intros H. inversion H as [|x l Hnin _]. apply Hnin. left. reflexivity.
Qed.

Lemma spatial_filter_subset_witness :
  load_data Boxes.geometry (Wajir.hotspot_disk true) "Wajir"
  = inr (Wajir.points, Wajir.forecast,
         Some (Geo.Frame (Some 4326%Z) [[(38, 0, 41, 3); (38.5, 0.5, 41, 3)]])) /\
  spatial_filter Boxes.geometry
    (Some (Geo.Frame (Some 4326%Z) [[(38, 0, 41, 3); (38.5, 0.5, 41, 3)]]))
    (Geo.features Wajir.points)
  = List.filter
      (fun r => Geo.within Boxes.geometry (geometry r) [(38, 0, 41, 3); (38.5, 0.5, 41, 3)])
      (Geo.features Wajir.points) /\
  spatial_filter Boxes.geometry (Some Wajir.invalid_boundary) (Geo.features Wajir.points)
  = Geo.sjoin_within Boxes.geometry geometry (Geo.features Wajir.points)
      (Geo.features Wajir.invalid_boundary).
Proof.
  split; [reflexivity|].
  pose proof (proj1 spatial_filter_subset) as W. split.
  - destruct (W Boxes.geometry (Wajir.hotspot_disk true) "Wajir" _ _ _
                (Geo.features Wajir.points) eq_refl) as (_ & _ & _ & Hb).
    destruct (Hb Wajir.boundary Wajir.boundary eq_refl eq_refl ltac:(discriminate))
      as [Hok _].
    exact (proj1 (proj2 (Hok _ eq_refl))).
  - destruct (W Boxes.geometry Wajir.invalid_boundary_disk "Wajir" _ _ _
                (Geo.features Wajir.points) eq_refl) as (_ & _ & _ & Hb).
    destruct (Hb Wajir.invalid_boundary Wajir.invalid_boundary eq_refl eq_refl
                ltac:(discriminate)) as [_ Hfail].
    exact (proj2 (Hfail GEOSException eq_refl)).
Defined.

End HotspotSpec.

(** ** The rendered page *)

Module PageSpec.
Import Float FloatFacts LoaderSpec.

Lemma fold_min_spec (l : list Q) (a : Q) :
  (forall x, In x (a :: l) -> fold_left Qmin l a <= x) /\ In (fold_left Qmin l a) (a :: l).
Proof.
  revert a. induction l as [|b l IH]; intros a.
  - simpl. split; [intros x [<-|[]]; apply Qle_refl | left; reflexivity].
  - cbn [fold_left]. destruct (IH (Qmin a b)) as [Hle Hin]. split.
    + intros x [<-|[<-|Hx]].
      * apply Qle_trans with (Qmin a b); [apply Hle; left; reflexivity | apply Q.le_min_l].
      * apply Qle_trans with (Qmin a b); [apply Hle; left; reflexivity | apply Q.le_min_r].
      * apply Hle. right. exact Hx.
    + destruct Hin as [E|Hin].
      * rewrite <- E.
        unfold Qmin, GenericMinMax.gmin.
        destruct (a ?= b); [left | left | right; left]; reflexivity.
      * right. right. exact Hin.
Qed.

Lemma fold_max_spec (l : list Q) (a : Q) :
  (forall x, In x (a :: l) -> x <= fold_left Qmax l a) /\ In (fold_left Qmax l a) (a :: l).
Proof.
  revert a. induction l as [|b l IH]; intros a.
  - simpl. split; [intros x [<-|[]]; apply Qle_refl | left; reflexivity].
  - cbn [fold_left]. destruct (IH (Qmax a b)) as [Hle Hin]. split.
    + intros x [<-|[<-|Hx]].
      * apply Qle_trans with (Qmax a b); [apply Q.le_max_l | apply Hle; left; reflexivity].
      * apply Qle_trans with (Qmax a b); [apply Q.le_max_r | apply Hle; left; reflexivity].
      * apply Hle. right. exact Hx.
    + destruct Hin as [E|Hin].
      * rewrite <- E.
        unfold Qmax, GenericMinMax.gmax.
        destruct (a ?= b); [left | right; left | left]; reflexivity.
      * right. right. exact Hin.
Qed.

(** [total_bounds] works component by component. *)
Lemma total_bounds_components (b : Geo.bbox) (bs : list Geo.bbox) :
  Geo.total_bounds b bs =
  (fold_left Qmin (List.map minx bs) (minx b), fold_left Qmin (List.map miny bs) (miny b),
   fold_left Qmax (List.map maxx bs) (maxx b), fold_left Qmax (List.map maxy bs) (maxy b)).
Proof.
  unfold Geo.total_bounds. revert b. induction bs as [|c bs IH]; intros b.
  - destruct b as [[[x0 y0] x1] y1]. reflexivity.
  - cbn [fold_left List.map]. rewrite IH.
    destruct b as [[[x0 y0] x1] y1], c as [[[u0 v0] u1] v1]. reflexivity.
Qed.

(** The bounds of a non-empty list of points are its coordinate extent. *)
Lemma total_bounds_points (p : Geo.point) (ps : list Geo.point) :
  spec_extent (Geo.total_bounds (Geo.point_bbox p) (List.map Geo.point_bbox ps)) (p :: ps).
Proof.
  rewrite total_bounds_components, !map_map.
  unfold spec_extent, minx, miny, maxx, maxy, Geo.point_bbox. cbn [fst snd].
  destruct (fold_min_spec (List.map fst ps) (fst p)) as [Lx Ix].
  destruct (fold_min_spec (List.map snd ps) (snd p)) as [Ly Iy].
  destruct (fold_max_spec (List.map fst ps) (fst p)) as [Ux Jx].
  destruct (fold_max_spec (List.map snd ps) (snd p)) as [Uy Jy].
  change (fst p :: List.map fst ps) with (List.map fst (p :: ps)) in *.
  change (snd p :: List.map snd ps) with (List.map snd (p :: ps)) in *.
  split; [|split; [|split; [|split]]].
  - intros q Hq. repeat split.
    + apply Lx. apply in_map. exact Hq.
    + apply Ux. apply in_map. exact Hq.
    + apply Ly. apply in_map. exact Hq.
    + apply Uy. apply in_map. exact Hq.
  - apply in_map_iff in Ix. destruct Ix as (q & E & Hq). exists q. auto.
  - apply in_map_iff in Jx. destruct Jx as (q & E & Hq). exists q. auto.
  - apply in_map_iff in Iy. destruct Iy as (q & E & Hq). exists q. auto.
  - apply in_map_iff in Jy. destruct Jy as (q & E & Hq). exists q. auto.
Qed.

(** One run of the hotspot script, by cases on what the disk holds. *)
Lemma hotspot_run (F : format) (G : Geo.lib) (C : csv (list Hotspot.table_row))
  (d : Hotspot.disk G) (county : string) (threshold : Q) (mode : Hotspot.map_style) :
  Hotspot.run F G C d county threshold mode =
  match Hotspot.points_at d (base ++ "/" ++ lower county ++ "_hotspot_forecast.geojson") with
  | inl e => inl e
  | inr pts =>
      match Hotspot.table_at d (base ++ "/" ++ lower county ++ "_hotspot_forecast.csv") with
      | inl e => inl e
      | inr df =>
          match Geo.to_crs (Hotspot.reproject G) pts with
          | inl e => inl e
          | inr g =>
              let boundary :=
                Hotspot.try_boundary G
                  (Hotspot.boundary_at d (base ++ "/" ++ lower county ++ "_boundary.geojson")) in
              let gdf := Hotspot.spatial_filter G boundary (Geo.features g) in
              match Geo.column "p_hotspot_next" g with
              | inl e => inl e
              | inr _ =>
                  inr (Hotspot.Page (Hotspot.flagged threshold gdf)
                         (Hotspot.layers F G mode boundary (Hotspot.gdf_view threshold gdf))
                         (Hotspot.center F (Hotspot.extent F G boundary gdf))
                         (firstn 20 (sort_desc Hotspot.t_p_hotspot_next df))
                         (to_csv C df, lower county ++ "_hotspot_forecast.csv"))
              end
          end
      end
  end.
Proof.
  unfold Hotspot.run. rewrite hotspot_load_data.
  destruct (Hotspot.points_at d _) as [e|pts]; [reflexivity|].
  destruct (Hotspot.table_at d _) as [e|df]; [reflexivity|].
  simpl. destruct (Geo.to_crs (Hotspot.reproject G) pts) as [e|g]; [reflexivity|].
  simpl. destruct (Geo.column "p_hotspot_next" g); reflexivity.
Qed.

(** One run of the integrated script. *)
Lemma combined_run (F : format) (G : Geo.lib) (C : csv Combined.view)
  (d : Combined.disk G) (county : string) (t1 t2 : Q) (m : Combined.layer_mode) :
  Combined.run F G C d county t1 t2 m =
  match Combined.table_at d (base ++ "/" ++ lower county ++ "_hotspot_enhanced.csv") with
  | inl e => inl e
  | inr df =>
      match Combined.points_at d (base ++ "/" ++ lower county ++ "_hotspot_forecast.geojson") with
      | inl e => inl e
      | inr pts =>
          match Geo.to_crs (Hotspot.reproject G) pts with
          | inl e => inl e
          | inr g =>
              let merged := Combined.merge df (Combined.lonlat (Geo.features g)) in
              let v := Combined.df_view F m t1 t2 merged in
              match Geo.column "cell_id" g with
              | inl e => inl e
              | inr _ =>
                  inr (Combined.Page v (Combined.weight_field m) (Combined.weights m v)
                         (Combined.center F merged)
                         (firstn 30
                            (sort_desc Combined.d_p_hotspot_next (Combined.display_cols v)))
                         (to_csv C v, county ++ "_filtered_combined_risk.csv"))
              end
          end
      end
  end.
Proof.
  unfold Combined.run. rewrite combined_load_data.
  destruct (Combined.table_at d _) as [e|df]; [reflexivity|].
  destruct (Combined.points_at d _) as [e|pts]; [reflexivity|].
  simpl. destruct (Geo.to_crs (Hotspot.reproject G) pts) as [e|g]; [reflexivity|].
  simpl. destruct (Geo.column "cell_id" g); reflexivity.
Qed.

(** *** Initial camera view *)

(** A counterexample for the integrated dashboard: with the boundary file
    present the view is not centred on the boundary's bounding box, and with
    the boundary file absent it is not centred on the midpoint of the data's
    extent.  The four points lie at latitudes 1, 1, 2, 4: their mean is 2,
    the midpoint of their extent 2.5, and the midpoint of the boundary's
    bounding box 1.5. *)
Lemma integrated_center_is_not_midpoint :
  (exists page lat,
     Combined.run binary64 Boxes.geometry Text.view (Wajir.combined_disk true) "Wajir"
       (Wajir.d 0.6) (Wajir.d 0.5) Combined.CombinedRisk = inr page /\
     fst (Combined.view_state page) = Some lat /\
     Hotspot.extent binary64 Boxes.geometry
       (boundary_of Boxes.geometry (inr Wajir.boundary)) (Geo.features Wajir.points)
     = (38, 0, 41, 3) /\
     ~ lat == Hotspot.midpoint binary64 0 3) /\
  (exists page lat,
     Combined.run binary64 Boxes.geometry Text.view (Wajir.combined_disk false) "Wajir"
       (Wajir.d 0.6) (Wajir.d 0.5) Combined.CombinedRisk = inr page /\
     fst (Combined.view_state page) = Some lat /\
     Hotspot.extent binary64 Boxes.geometry None (Geo.features Wajir.points)
     = (39, 1, 42, 4) /\
     ~ lat == Hotspot.midpoint binary64 1 4).
Proof.
  split.
  - eexists. eexists. split; [vm_compute; reflexivity|].
    split; [reflexivity|]. split; [reflexivity|].
    vm_compute. discriminate.
  - eexists. eexists. split; [vm_compute; reflexivity|].
    split; [reflexivity|]. split; [reflexivity|].
    vm_compute. discriminate.
Qed.

(** C5 (amended). In the hotspot dashboard the view is centred on the
    midpoint of an extent: the bounding box of the boundary when one is
    loaded, else the coordinate extent of the points when there are points,
    else the fixed extent (35, 2, 37, 5); in particular, when the boundary
    file cannot be read the extent is the coordinate extent of the full point
    data.  In the integrated dashboard the view is centred on the mean of the
    [lat] and [lon] columns of the merged table, whatever the boundary. *)
Theorem camera_center (F : format) (G : Geo.lib)
  (Ch : csv (list Hotspot.table_row)) (Cc : csv Combined.view)
  (dh : Hotspot.disk G) (dc : Combined.disk G) (county : string)
  (threshold : Q) (mode : Hotspot.map_style) (t1 t2 : Q) (m : Combined.layer_mode) :
  (forall boundary gdf,
     Hotspot.center F (Hotspot.extent F G boundary gdf)
     = (Hotspot.midpoint F (miny (Hotspot.extent F G boundary gdf))
          (maxy (Hotspot.extent F G boundary gdf)),
        Hotspot.midpoint F (minx (Hotspot.extent F G boundary gdf))
          (maxx (Hotspot.extent F G boundary gdf))) /\
     (forall p ps, Hotspot.parts boundary = p :: ps ->
        Hotspot.extent F G boundary gdf
        = Geo.total_bounds (Geo.bounds G p) (List.map (Geo.bounds G) ps)) /\
     (Hotspot.parts boundary = [] -> gdf <> [] ->
        spec_extent (Hotspot.extent F G boundary gdf) (List.map Hotspot.geometry gdf)) /\
     (Hotspot.parts boundary = [] -> gdf = [] ->
        Hotspot.extent F G boundary gdf = (lit F 35, lit F 2, lit F 37, lit F 5))) /\
  (forall page e,
     Hotspot.boundary_at dh (base ++ "/" ++ lower county ++ "_boundary.geojson") = inl e ->
     Hotspot.run F G Ch dh county threshold mode = inr page ->
     exists pts g,
       Hotspot.points_at dh (base ++ "/" ++ lower county ++ "_hotspot_forecast.geojson")
       = inr pts /\
       Geo.to_crs (Hotspot.reproject G) pts = inr g /\
       Hotspot.view_state page
       = Hotspot.center F (Hotspot.extent F G None (Geo.features g)) /\
       (Geo.features g <> [] ->
        spec_extent (Hotspot.extent F G None (Geo.features g))
          (List.map Hotspot.geometry (Geo.features g)))) /\
  (forall page,
     Combined.run F G Cc dc county t1 t2 m = inr page ->
     exists df pts g,
       Combined.table_at dc (base ++ "/" ++ lower county ++ "_hotspot_enhanced.csv") = inr df /\
       Combined.points_at dc (base ++ "/" ++ lower county ++ "_hotspot_forecast.geojson")
       = inr pts /\
       Geo.to_crs (Hotspot.reproject G) pts = inr g /\
       Combined.view_state page
       = (mean F (List.map Combined.lat (Combined.merge df (Combined.lonlat (Geo.features g)))),
          mean F (List.map Combined.lon (Combined.merge df (Combined.lonlat (Geo.features g)))))).
Proof.
  assert (Hpoints : forall boundary gdf, Hotspot.parts boundary = [] -> gdf <> [] ->
            spec_extent (Hotspot.extent F G boundary gdf) (List.map Hotspot.geometry gdf)).
  { intros boundary gdf Hb Hg. unfold Hotspot.extent. rewrite Hb.
    destruct gdf as [|r rs]; [congruence|].
    rewrite <- (map_map Hotspot.geometry Geo.point_bbox). apply total_bounds_points. }
  split; [|split].
  - intros boundary gdf. split; [|split; [|split]].
    + destruct (Hotspot.extent F G boundary gdf) as [[[x0 y0] x1] y1]. reflexivity.
    + intros p ps Hb. unfold Hotspot.extent. rewrite Hb. reflexivity.
    + apply Hpoints.
    + intros Hb ->. unfold Hotspot.extent. rewrite Hb. reflexivity.
  - intros page e Hb. rewrite hotspot_run, Hb.
    destruct (Hotspot.points_at dh _) as [e1|pts]; [discriminate|].
    destruct (Hotspot.table_at dh _) as [e2|df]; [discriminate|].
    destruct (Geo.to_crs (Hotspot.reproject G) pts) as [e3|g] eqn:Eg; [discriminate|].
    destruct (Geo.column _ g) as [e4|present]; [discriminate|].
    intros E. injection E as <-. exists pts, g. simpl.
    split; [reflexivity|]. split; [exact Eg|]. split; [reflexivity|].
    apply Hpoints. reflexivity.
  - intros page. rewrite combined_run.
    destruct (Combined.table_at dc _) as [e1|df]; [discriminate|].
    destruct (Combined.points_at dc _) as [e2|pts]; [discriminate|].
    destruct (Geo.to_crs (Hotspot.reproject G) pts) as [e3|g] eqn:Eg; [discriminate|].
    destruct (Geo.column _ g) as [e4|present]; [discriminate|].
    intros E. injection E as <-. exists df, pts, g. simpl.
    split; [reflexivity|]. split; [reflexivity|]. split; [exact Eg | reflexivity].
Qed.

Lemma camera_center_witness :
  Hotspot.boundary_at (Wajir.hotspot_disk false) "../data/processed/wajir_boundary.geojson"
  = inl (FileNotFoundError "../data/processed/wajir_boundary.geojson") /\
  (exists page,
     Hotspot.run binary64 Boxes.geometry Text.table (Wajir.hotspot_disk false) "Wajir"
       (Wajir.d 0.6) Hotspot.Heatmap = inr page /\
     fst (Hotspot.view_state page) == 2.5 /\ snd (Hotspot.view_state page) == 40.5) /\
  spec_extent (39, 1, 42, 4) (List.map Hotspot.geometry (Geo.features Wajir.points)).
Proof.
  split; [reflexivity|]. split.
  - eexists. split; [vm_compute; reflexivity|]. split; reflexivity.
  - destruct (proj1 (proj2 (camera_center binary64 Boxes.geometry Text.table Text.view
                 (Wajir.hotspot_disk false) (Wajir.combined_disk false) "Wajir" (Wajir.d 0.6)
                 Hotspot.Heatmap (Wajir.d 0.6) (Wajir.d 0.5) Combined.CombinedRisk))
                _ _ eq_refl eq_refl)
      as (pts & g & Ep & Eg & _ & Hext).
    vm_compute in Ep. injection Ep as <-.
    vm_compute in Eg. injection Eg as <-.
    apply Hext. discriminate.
Defined.

(** *** Grid colours and legend *)

(** C6. The grid layer colours a cell by four classes with inclusive lower
    bounds 0.40, 0.60 and 0.80, and the legend shows the same colour for the
    first three classes.  For the class from 0.80 the layer produces
    (220, 50, 47) whereas the legend swatch [#DC3230] is (220, 50, 48): at
    [p_hotspot_next = 0.9] the rendered and the documented colour differ. *)
Theorem grid_colors_and_legend (F : format) (p : fval) :
  Hotspot.get_fill_color F p
  = match spec_bucket F p with
    | Low => [150; 150; 150; 200]
    | Moderate => [255; 215; 0; 200]
    | High => [255; 127; 0; 200]
    | VeryHigh => [220; 50; 47; 200]
    end%Z /\
  legend_rgb Low = Some [150; 150; 150]%Z /\
  legend_rgb Moderate = Some [255; 215; 0]%Z /\
  legend_rgb High = Some [255; 127; 0]%Z /\
  legend_rgb VeryHigh = Some [220; 50; 48]%Z /\
  spec_bucket binary64 (Some (lit binary64 0.9)) = VeryHigh /\
  Hotspot.get_fill_color binary64 (Some (lit binary64 0.9)) = [220; 50; 47; 200]%Z /\
  Some (firstn 3 (Hotspot.get_fill_color binary64 (Some (lit binary64 0.9))))
  <> legend_rgb VeryHigh.
Proof.
  split; [|repeat split; try reflexivity].
  - unfold Hotspot.get_fill_color, spec_bucket.
    change (80 # 100) with 0.80. change (60 # 100) with 0.60. change (40 # 100) with 0.40.
    destruct (ge p (lit F 0.80)); [reflexivity|].
    destruct (ge p (lit F 0.60)); [reflexivity|].
    destruct (ge p (lit F 0.40)); reflexivity.
  - vm_compute. discriminate.
Qed.

(** The class boundaries are inclusive: the double 0.6 itself is "High". *)
Example boundary_is_inclusive :
  spec_bucket binary64 (Some (lit binary64 0.60)) = High /\
  Hotspot.get_fill_color binary64 (Some (lit binary64 0.60)) = [255; 127; 0; 200]%Z.
Proof. split; reflexivity. Qed.

(** *** Download *)

(** A counterexample in the hotspot dashboard: at threshold 0.6 two cells
    are flagged and drawn, and the text offered for download reads back as
    the four rows of the forecast table. *)
Lemma forecast_download_is_unfiltered :
  exists page df,
    Hotspot.run binary64 Boxes.geometry Text.table (Wajir.hotspot_disk true) "Wajir"
      (Wajir.d 0.6) Hotspot.GridCells = inr page /\
    read_csv Text.table (fst (Hotspot.download page)) = Some df /\
    length df = 4%nat /\
    Hotspot.subheader page = 2%nat /\
    List.map Hotspot.t_cell_id df <> [1; 2]%Z.
Proof.
  eexists. eexists. split; [vm_compute; reflexivity|].
  split; [vm_compute; reflexivity|].
  split; [reflexivity|]. split; [reflexivity|]. discriminate.
Qed.

(** The [compound_risk] column holds doubles, and one for each row. *)
Lemma df_view_column (m : Combined.layer_mode) (t1 t2 : Q) (df : list Combined.merged_row) :
  match Combined.compound_risk (Combined.df_view binary64 m t1 t2 df) with
  | Some col =>
      Forall Text.double col /\
      length col = length (Combined.rows (Combined.df_view binary64 m t1 t2 df))
  | None => True
  end /\
  (match Combined.compound_risk (Combined.df_view binary64 m t1 t2 df) with
   | Some _ => true
   | None => false
   end
   = match m with
     | Combined.CombinedRisk => true
     | _ => false
     end).
Proof.
  destruct m; cbn [Combined.df_view Combined.compound_risk Combined.rows];
    split; try exact I; try reflexivity.
  split; [|apply length_map]. unfold Combined.product. apply List.Forall_forall.
  intros x Hx. apply in_map_iff in Hx. destruct Hx as (r & <- & _).
  destruct (Combined.p_hotspot_next (Combined.risk r)) as [a|];
    destruct (Combined.anomaly_prob_norm (Combined.risk r)) as [b|]; try exact I.
  apply rnd64_idem.
Qed.

(** C3 (amended). In the integrated dashboard, for every dataset, thresholds
    and mode, the text offered for download, read back, gives exactly the
    rows and columns of the filtered view: its first line names the columns
    of the view (with [lon], [lat] and, in combined mode, [compound_risk]),
    it has one line for each row of the view, all of them and not only the
    thirty displayed, and the values read are the values of the view.  In
    the hotspot dashboard the download is the full forecast table, whatever
    the threshold: read back it gives every row of the table, while the
    flagged count shown is the number of points of the filtered layer.  The
    numbers of the frames are doubles or NaN, and their column names and
    text cells hold no carriage return. *)
Theorem download_contents (G : Geo.lib) (extra : list string)
  (dh : Hotspot.disk G) (dc : Combined.disk G) (county : string)
  (threshold : Q) (mode : Hotspot.map_style) (t1 t2 : Q) (m : Combined.layer_mode) :
  Forall Text.carriage_free extra ->
  (forall page,
     Combined.run binary64 G (Text.view_with extra) dc county t1 t2 m = inr page ->
     (exists df pts g,
        Combined.table_at dc (base ++ "/" ++ lower county ++ "_hotspot_enhanced.csv")
        = inr df /\
        Combined.points_at dc (base ++ "/" ++ lower county ++ "_hotspot_forecast.geojson")
        = inr pts /\
        Geo.to_crs (Hotspot.reproject G) pts = inr g /\
        Combined.deck page
        = Combined.df_view binary64 m t1 t2
            (Combined.merge df (Combined.lonlat (Geo.features g)))) /\
     snd (Combined.download page) = county ++ "_filtered_combined_risk.csv" /\
     (Forall Text.view_cells (Combined.rows (Combined.deck page)) ->
      (exists body,
         Text.records (fst (Combined.download page))
         = Some (Text.view_header extra
                   match m with
                   | Combined.CombinedRisk => true
                   | _ => false
                   end :: body) /\
         length body = length (Combined.rows (Combined.deck page))) /\
      (exists v,
         read_csv (Text.view_with extra) (fst (Combined.download page)) = Some v /\
         Text.same_view v (Combined.deck page)))) /\
  (forall page,
     Hotspot.run binary64 G (Text.table_with extra) dh county threshold mode = inr page ->
     exists pts df boundary g,
       Hotspot.load_data G dh county = inr (pts, df, boundary) /\
       Geo.to_crs (Hotspot.reproject G) pts = inr g /\
       snd (Hotspot.download page) = lower county ++ "_hotspot_forecast.csv" /\
       (Forall Text.table_cells df ->
        (exists body,
           Text.records (fst (Hotspot.download page))
           = Some (Text.table_header extra :: body) /\
           length body = length df) /\
        (exists df',
           read_csv (Text.table_with extra) (fst (Hotspot.download page)) = Some df' /\
           Forall2 Text.same_table_row df' df)) /\
       Hotspot.subheader page
       = length (Hotspot.gdf_view threshold
                   (Hotspot.spatial_filter G boundary (Geo.features g)))).
Proof.
  intros He. split.
  - intros page. rewrite combined_run.
    destruct (Combined.table_at dc _) as [e1|df]; [discriminate|].
    destruct (Combined.points_at dc _) as [e2|pts]; [discriminate|].
    destruct (Geo.to_crs (Hotspot.reproject G) pts) as [e3|g] eqn:Eg; [discriminate|].
    destruct (Geo.column _ g) as [e4|present]; [discriminate|].
    intros E. injection E as <-. cbn [Combined.deck Combined.download fst snd].
    set (merged := Combined.merge df (Combined.lonlat (Geo.features g))).
    destruct (df_view_column m t1 t2 merged) as [Hcol Hm].
    split; [exists df, pts, g; auto|]. split; [reflexivity|].
    intros Hrows. split.
    + rewrite <- Hm. apply TextFacts.view_lines; [exact He | exact Hrows |].
      destruct (Combined.compound_risk _); [exact (proj2 Hcol) | exact I].
    + apply TextFacts.view_round_trip; assumption.
  - intros page. rewrite hotspot_run, hotspot_load_data.
    destruct (Hotspot.points_at dh _) as [e1|pts]; [discriminate|].
    destruct (Hotspot.table_at dh _) as [e2|df]; [discriminate|].
    destruct (Geo.to_crs (Hotspot.reproject G) pts) as [e3|g] eqn:Eg; [discriminate|].
    destruct (Geo.column _ g) as [e4|present]; [discriminate|].
    intros E. injection E as <-. eexists pts, df, _, g.
    cbn [Hotspot.download Hotspot.subheader fst snd].
    split; [reflexivity|]. split; [exact Eg|]. split; [reflexivity|]. split.
    + intros Hdf. split.
      * apply TextFacts.table_lines; assumption.
      * apply TextFacts.table_round_trip; assumption.
    + unfold Hotspot.flagged, Hotspot.gdf_view. apply ListFacts.count_true_filter.
Qed.

Lemma download_contents_witness :
  exists page v,
    Combined.run binary64 Boxes.geometry Text.view (Wajir.combined_disk true) "Wajir"
      (Wajir.d 0.6) (Wajir.d 0.5) Combined.CombinedRisk = inr page /\
    Forall Text.view_cells (Combined.rows (Combined.deck page)) /\
    fst (Combined.download page)
    = Text.unlines
        [ ["cell_id"; "mid_date"; "p_hotspot_next"; "anomaly_prob_norm"; "lon"; "lat";
           "compound_risk"];
          ["1"; "2024-01-01"; "0.9"; "0.8"; "39.0"; "1.0"; "0.7200000000000001"] ] /\
    read_csv Text.view (fst (Combined.download page)) = Some v /\
    Text.same_view v (Combined.deck page) /\
    List.map (fun r => Combined.cell_id (Combined.risk r)) (Combined.rows v) = [1%Z].
Proof.
  destruct (Combined.run binary64 Boxes.geometry Text.view (Wajir.combined_disk true) "Wajir"
              (Wajir.d 0.6) (Wajir.d 0.5) Combined.CombinedRisk) as [e|page] eqn:E;
    [vm_compute in E; discriminate|].
  assert (Hd : Forall Text.view_cells (Combined.rows (Combined.deck page))).
  { vm_compute in E. injection E as <-. cbn [Combined.deck Combined.rows].
    repeat constructor. }
  destruct (proj2 (proj2 (proj2 (proj1 (download_contents Boxes.geometry []
              (Wajir.hotspot_disk true) (Wajir.combined_disk true) "Wajir"
              (Wajir.d 0.6) Hotspot.GridCells (Wajir.d 0.6) (Wajir.d 0.5)
              Combined.CombinedRisk (List.Forall_nil _)) page E)) Hd)) as (v & R & S).
  exists page, v. split; [reflexivity|]. split; [exact Hd|].
  split; [vm_compute in E; injection E as <-; vm_compute; reflexivity|].
  split; [exact R|]. split; [exact S|].
  vm_compute in E. injection E as <-. vm_compute in R. injection R as <-. reflexivity.
Defined.

(** *** The boundary in the integrated dashboard *)

(** C10. In the integrated dashboard the boundary has no effect on the page:
    two runs over disks that hold the same tabular and point files produce
    the same result, whatever their boundary files hold (the filtered view,
    the displayed table, the compound risk, the map weights, the view centre
    and the download are equal, and so is the error when a required file is
    missing). *)
Theorem boundary_has_no_effect (F : format) (G : Geo.lib) (C : csv Combined.view)
  (d1 d2 : Combined.disk G) (county : string) (t1 t2 : Q) (m : Combined.layer_mode) :
  (forall p, Combined.table_at d1 p = Combined.table_at d2 p) ->
  (forall p, Combined.points_at d1 p = Combined.points_at d2 p) ->
  Combined.run F G C d1 county t1 t2 m = Combined.run F G C d2 county t1 t2 m.
Proof.
  intros Ht Hp. rewrite !combined_run, Ht, Hp. reflexivity.
Qed.

Lemma boundary_has_no_effect_witness :
  (forall p, Combined.table_at (Wajir.combined_disk true) p
             = Combined.table_at (Wajir.combined_disk false) p) /\
  (forall p, Combined.points_at (Wajir.combined_disk true) p
             = Combined.points_at (Wajir.combined_disk false) p) /\
  Combined.boundary_at (Wajir.combined_disk true) "../data/processed/wajir_boundary.geojson"
  = inr Wajir.boundary /\
  Combined.boundary_at (Wajir.combined_disk false) "../data/processed/wajir_boundary.geojson"
  = inl (FileNotFoundError "../data/processed/wajir_boundary.geojson") /\
  Combined.run binary64 Boxes.geometry Text.view (Wajir.combined_disk true) "Wajir"
    (Wajir.d 0.6) (Wajir.d 0.5) Combined.CombinedRisk
  = Combined.run binary64 Boxes.geometry Text.view (Wajir.combined_disk false) "Wajir"
      (Wajir.d 0.6) (Wajir.d 0.5) Combined.CombinedRisk.
Proof.
  assert (Ht : forall p, Combined.table_at (Wajir.combined_disk true) p
                         = Combined.table_at (Wajir.combined_disk false) p)
    by (intros p; reflexivity).
  assert (Hp : forall p, Combined.points_at (Wajir.combined_disk true) p
                         = Combined.points_at (Wajir.combined_disk false) p)
    by (intros p; reflexivity).
  split; [exact Ht|]. split; [exact Hp|]. split; [reflexivity|]. split; [reflexivity|].
  exact (boundary_has_no_effect binary64 Boxes.geometry Text.view (Wajir.combined_disk true)
           (Wajir.combined_disk false) "Wajir" (Wajir.d 0.6) (Wajir.d 0.5)
           Combined.CombinedRisk Ht Hp).
Defined.

End PageSpec.

(** * Further properties of the two scripts *)

(** ** Sorting *)

Module SortFacts.
Import Float.
Local Open Scope list_scope.

(** [precedes x y]: [y] is NaN, or both are numbers and [x] is not below
    [y]. *)
Lemma precedes_true (x y : fval) :
  precedes x y = true <->
  y = None \/ exists a b, x = Some a /\ y = Some b /\ b <= a.
Proof.
  destruct x as [a|], y as [b|]; simpl.
  - rewrite Qle_bool_iff. split.
    + intros H. right. exists a, b. auto.
    + intros [E | (a' & b' & Ea & Eb & H)]; [discriminate|].
      injection Ea as ->. injection Eb as ->. exact H.
  - split; [auto | reflexivity].
  - split; [discriminate|].
    intros [E | (a' & b' & Ea & _)]; discriminate.
  - split; [auto | reflexivity].
Qed.

Lemma precedes_total (x y : fval) : precedes x y = false -> precedes y x = true.
Proof.
  destruct x as [a|], y as [b|]; simpl; try reflexivity; try discriminate.
  intros H. apply Qle_bool_iff.
  destruct (Qlt_le_dec a b) as [L|L]; [apply Qlt_le_weak; exact L|].
  apply Qle_bool_iff in L. congruence.
Qed.

Lemma precedes_trans (x y z : fval) :
  precedes x y = true -> precedes y z = true -> precedes x z = true.
Proof.
  destruct x as [a|], y as [b|], z as [c|]; simpl; try reflexivity; try discriminate.
  rewrite !Qle_bool_iff. intros H1 H2. apply Qle_trans with b; assumption.
Qed.

Section Sorting.
Context {A : Type} (key : A -> fval).

Lemma ranked_trans : Relations_1.Transitive (ranked key).
Proof.
  intros x y z. unfold ranked. apply precedes_trans.
Qed.

Lemma insert_desc_perm (r : A) (l : list A) : Permutation (insert_desc key r l) (r :: l).
Proof.
  induction l as [|x l IH]; simpl.
  - apply Permutation_refl.
  - destruct (precedes (key x) (key r)).
    + apply Permutation_trans with (x :: r :: l); [apply perm_skip; exact IH | apply perm_swap].
    + apply Permutation_refl.
Qed.

Lemma insert_desc_sorted (r : A) (l : list A) :
  Sorted (ranked key) l -> Sorted (ranked key) (insert_desc key r l).
Proof.
  induction l as [|x l IH]; simpl; intros Hs.
  - repeat constructor.
  - inversion Hs as [|? ? Hl Hh]; subst.
    destruct (precedes (key x) (key r)) eqn:E.
    + constructor; [apply IH; exact Hl|].
      destruct l as [|y l]; simpl.
      * constructor. exact E.
      * destruct (precedes (key y) (key r)).
        -- inversion Hh; subst. constructor. assumption.
        -- constructor. exact E.
    + constructor; [exact Hs|]. constructor. apply precedes_total. exact E.
Qed.

Lemma fold_insert_perm (l acc : list A) :
  Permutation (fold_left (fun acc r => insert_desc key r acc) l acc) (l ++ acc).
Proof.
  revert acc. induction l as [|r l IH]; intros acc; simpl.
  - apply Permutation_refl.
  - apply Permutation_trans with (l ++ insert_desc key r acc); [apply IH|].
    apply Permutation_trans with (l ++ r :: acc).
    + apply Permutation_app_head. apply insert_desc_perm.
    + apply Permutation_sym. apply Permutation_middle.
Qed.

Lemma fold_insert_sorted (l acc : list A) :
  Sorted (ranked key) acc ->
  Sorted (ranked key) (fold_left (fun acc r => insert_desc key r acc) l acc).
Proof.
  revert acc. induction l as [|r l IH]; intros acc Hs; simpl.
  - exact Hs.
  - apply IH. apply insert_desc_sorted. exact Hs.
Qed.

Lemma sort_desc_perm (l : list A) : Permutation (sort_desc key l) l.
Proof.
  unfold sort_desc. rewrite <- (app_nil_r l) at 2. apply fold_insert_perm.
Qed.

Lemma sort_desc_sorted (l : list A) : StronglySorted (ranked key) (sort_desc key l).
Proof.
  apply Sorted_StronglySorted; [apply ranked_trans|].
  unfold sort_desc. apply fold_insert_sorted. constructor.
Qed.

Lemma strongly_sorted_app (l1 l2 : list A) :
  StronglySorted (ranked key) (l1 ++ l2) ->
  StronglySorted (ranked key) l1 /\
  forall x y, In x l1 -> In y l2 -> ranked key x y.
Proof.
  induction l1 as [|a l1 IH]; simpl; intros Hs.
  - split; [constructor | intros x y []].
  - apply StronglySorted_inv in Hs. destruct Hs as [Hs Ha].
    destruct (IH Hs) as [Hs1 Hc]. rewrite List.Forall_forall in Ha. split.
    + constructor; [exact Hs1|]. apply List.Forall_forall.
      intros x Hx. apply Ha. apply in_or_app. left. exact Hx.
    + intros x y [<-|Hx] Hy.
      * apply Ha. apply in_or_app. right. exact Hy.
      * apply Hc; assumption.
Qed.

(** The first [n] rows of the sorted frame: what [sort_values(...).head(n)]
    shows, and what it leaves out. *)
Lemma head_of_sorted (n : nat) (l : list A) :
  length (firstn n (sort_desc key l)) = Nat.min n (length l) /\
  StronglySorted (ranked key) (firstn n (sort_desc key l)) /\
  Permutation l (firstn n (sort_desc key l) ++ skipn n (sort_desc key l)) /\
  (forall x y, In x (firstn n (sort_desc key l)) -> In y (skipn n (sort_desc key l)) ->
     ranked key x y).
Proof.
  pose proof (sort_desc_sorted l) as Hs.
  rewrite <- (firstn_skipn n (sort_desc key l)) in Hs.
  destruct (strongly_sorted_app _ _ Hs) as [H1 H2].
  split; [|split; [exact H1 | split; [|exact H2]]].
  - rewrite length_firstn, (Permutation_length (sort_desc_perm l)). reflexivity.
  - rewrite firstn_skipn. apply Permutation_sym. apply sort_desc_perm.
Qed.

End Sorting.

End SortFacts.

(** ** Scaling by two in binary64 *)

Module ScalingFacts.
Import Float FloatFacts.

Lemma pow2_succ (e : Z) : pow2 (e + 1) == 2 * pow2 e.
Proof.
  rewrite pow2_add. change (pow2 1) with 2. ring.
Qed.

Lemma binade_double (q : Q) : 0 < q -> binade (2 * q) = (binade q + 1)%Z.
Proof.
  intros Hq. destruct (binade_spec q Hq) as [Lo Up].
  apply binade_unique.
  - lra.
  - rewrite pow2_succ. lra.
  - rewrite pow2_succ. rewrite pow2_succ in Up. rewrite pow2_succ. lra.
Qed.

Lemma round_pos_double (q : Q) : 0 < q -> round_pos (2 * q) == 2 * round_pos q.
Proof.
  intros Hq. unfold round_pos. rewrite (binade_double q Hq).
  replace (binade q + 1 - 52)%Z with (binade q - 52 + 1)%Z by lia.
  set (u := (binade q - 52)%Z).
  assert (E : 2 * q / pow2 (u + 1) == q / pow2 u).
  { rewrite pow2_succ. field. apply pow2_nz. }
  rewrite (rne_comp _ _ E), pow2_succ. ring.
Qed.

(** Doubling and halving are exact. *)
Lemma rnd64_double (x : Q) : rnd64 (2 * x) == 2 * rnd64 x.
Proof.
  destruct (Qcompare_spec x 0) as [E|L|G].
  - rewrite (rnd64_zero x E), (rnd64_zero (2 * x)); [reflexivity | rewrite E; reflexivity].
  - rewrite (rnd64_neg x L), (rnd64_neg (2 * x)) by lra.
    assert (E : - (2 * x) == 2 * - x) by ring.
    assert (P : 0 < - (2 * x)) by lra.
    rewrite (round_pos_comp _ _ P E), round_pos_double by lra. ring.
  - rewrite (rnd64_pos x G), (rnd64_pos (2 * x)) by lra.
    apply round_pos_double. exact G.
Qed.

Lemma rnd64_half (x : Q) : rnd64 (x / 2) == rnd64 x / 2.
Proof.
  assert (E : x == 2 * (x / 2)) by field.
  assert (H : rnd64 x == 2 * rnd64 (x / 2)).
  { rewrite <- rnd64_double. apply rnd64_compat. exact E. }
  rewrite H. field.
Qed.

(** The midpoint of two doubles lies between them. *)
Lemma midpoint_between (lo hi : Q) :
  representable binary64 lo -> representable binary64 hi -> lo <= hi ->
  lo <= Hotspot.midpoint binary64 lo hi /\ Hotspot.midpoint binary64 lo hi <= hi.
Proof.
  unfold representable, Hotspot.midpoint, div, add. simpl. intros Rlo Rhi H.
  rewrite rnd64_half, rnd64_idem.
  assert (L : rnd64 (2 * lo) <= rnd64 (lo + hi)) by (apply rnd64_mono; lra).
  assert (U : rnd64 (lo + hi) <= rnd64 (2 * hi)) by (apply rnd64_mono; lra).
  rewrite rnd64_double, Rlo in L. rewrite rnd64_double, Rhi in U.
  split.
  - apply Qle_shift_div_l; [reflexivity | lra].
  - apply Qle_shift_div_r; [reflexivity | lra].
Qed.

End ScalingFacts.

(** ** The hotspot script as a whole *)

Module HotspotPipeline.
Import Float Hotspot FloatFacts ListFacts SortFacts PageSpec.
Local Open Scope list_scope.

(** X1. A failure of a required read is the result of the whole run, in
    the order of the source: in the hotspot script the exception of the
    point read, else that of the table read; in the integrated script the
    exception of the table read, else that of the point read.  Thresholds,
    view mode and the boundary file play no part in it. *)
Theorem required_read_failure_ends_run (F : format) (G : Geo.lib)
  (Ch : csv (list table_row)) (Cc : csv Combined.view)
  (dh : disk G) (dc : Combined.disk G) (county : string)
  (threshold : Q) (mode : map_style) (t1 t2 : Q) (m : Combined.layer_mode) :
  (forall e,
     points_at dh (base ++ "/" ++ lower county ++ "_hotspot_forecast.geojson")%string = inl e ->
     run F G Ch dh county threshold mode = inl e) /\
  (forall pts e,
     points_at dh (base ++ "/" ++ lower county ++ "_hotspot_forecast.geojson")%string
     = inr pts ->
     table_at dh (base ++ "/" ++ lower county ++ "_hotspot_forecast.csv")%string = inl e ->
     run F G Ch dh county threshold mode = inl e) /\
  (forall e,
     Combined.table_at dc (base ++ "/" ++ lower county ++ "_hotspot_enhanced.csv")%string
     = inl e ->
     Combined.run F G Cc dc county t1 t2 m = inl e) /\
  (forall df e,
     Combined.table_at dc (base ++ "/" ++ lower county ++ "_hotspot_enhanced.csv")%string
     = inr df ->
     Combined.points_at dc (base ++ "/" ++ lower county ++ "_hotspot_forecast.geojson")%string
     = inl e ->
     Combined.run F G Cc dc county t1 t2 m = inl e).
Proof.
  rewrite hotspot_run, combined_run. repeat split.
  - intros e ->. reflexivity.
  - intros pts e -> ->. reflexivity.
  - intros e ->. reflexivity.
  - intros df e -> ->. reflexivity.
Qed.

Lemma required_read_failure_ends_run_witness :
  Combined.run binary64 Boxes.geometry Text.view Wajir.no_table_disk "Wajir"
    (Wajir.d 0.6) (Wajir.d 0.5) Combined.CombinedRisk
  = inl (FileNotFoundError "../data/processed/wajir_hotspot_enhanced.csv").
Proof.
  exact (proj1 (proj2 (proj2
    (required_read_failure_ends_run binary64 Boxes.geometry Text.table Text.view
       (Wajir.hotspot_disk true) Wajir.no_table_disk "Wajir" (Wajir.d 0.6) Heatmap
       (Wajir.d 0.6) (Wajir.d 0.5) Combined.CombinedRisk)))
    (FileNotFoundError "../data/processed/wajir_hotspot_enhanced.csv") eq_refl).
Defined.

(** X14. A point file without features has no property columns: with both
    required files read and a coordinate reference system on the points,
    neither script produces a page.  The integrated script fails at the
    column selection of its merge, whatever the table, the thresholds, the
    view mode and the boundary file. *)
Theorem point_file_without_features (F : format) (G : Geo.lib)
  (Ch : csv (list table_row)) (Cc : csv Combined.view)
  (dh : disk G) (dc : Combined.disk G) (county : string)
  (threshold : Q) (mode : map_style) (t1 t2 : Q) (m : Combined.layer_mode) :
  (forall c df,
     points_at dh (base ++ "/" ++ lower county ++ "_hotspot_forecast.geojson")%string
     = inr (Geo.Frame (Some c) []) ->
     table_at dh (base ++ "/" ++ lower county ++ "_hotspot_forecast.csv")%string = inr df ->
     exists e, run F G Ch dh county threshold mode = inl e) /\
  (forall c df,
     Combined.table_at dc (base ++ "/" ++ lower county ++ "_hotspot_enhanced.csv")%string
     = inr df ->
     Combined.points_at dc (base ++ "/" ++ lower county ++ "_hotspot_forecast.geojson")%string
     = inr (Geo.Frame (Some c) []) ->
     Combined.run F G Cc dc county t1 t2 m = inl (KeyError "cell_id")).
Proof.
  rewrite hotspot_run, combined_run. split.
  - intros c df -> ->. unfold Geo.to_crs. cbn [Geo.crs Geo.features List.map].
    destruct (Z.eqb c 4326); eexists; reflexivity.
  - intros c df -> ->. unfold Geo.to_crs. cbn [Geo.crs Geo.features List.map].
    destruct (Z.eqb c 4326); reflexivity.
Qed.

Lemma point_file_without_features_witness :
  Combined.run binary64 Boxes.geometry Text.view Wajir.no_features_disk "Wajir"
    (Wajir.d 0.6) (Wajir.d 0.5) Combined.CombinedRisk
  = inl (KeyError "cell_id").
Proof.
  exact (proj2
    (point_file_without_features binary64 Boxes.geometry Text.table Text.view
       (Wajir.hotspot_disk true) Wajir.no_features_disk "Wajir" (Wajir.d 0.6) Heatmap
       (Wajir.d 0.6) (Wajir.d 0.5) Combined.CombinedRisk)
    4326%Z Wajir.enhanced eq_refl eq_refl).
Defined.

Lemma filter_repeat {A B : Type} (f : A -> bool) (r : A) (ms : list B) :
  List.filter f (List.map (fun _ => r) ms)
  = if f r then List.map (fun _ => r) ms else [].
Proof.
  induction ms as [|b ms IH]; simpl.
  - destruct (f r); reflexivity.
  - rewrite IH. destruct (f r); reflexivity.
Qed.

Lemma filter_sjoin {A : Type} (G : Geo.lib) (geom : A -> Geo.point) (f : A -> bool)
  (l : list A) (ps : list (Geo.polygon G)) :
  List.filter f (Geo.sjoin_within G geom l ps) = Geo.sjoin_within G geom (List.filter f l) ps.
Proof.
  unfold Geo.sjoin_within. induction l as [|r l IH]; cbn [flat_map].
  - reflexivity.
  - rewrite List.filter_app, IH, filter_repeat. cbn [List.filter].
    destruct (f r); cbn [flat_map]; reflexivity.
Qed.

Lemma filters_commute_rows (G : Geo.lib) (boundary : option (Geo.frame (Geo.polygon G)))
  (threshold : Q) (gdf : list point_row) :
  gdf_view threshold (spatial_filter G boundary gdf)
  = spatial_filter G boundary (gdf_view threshold gdf) /\
  (forall r, In r (gdf_view threshold (spatial_filter G boundary gdf)) ->
     In r gdf /\
     (exists v, p_hotspot_next r = Some v /\ threshold <= v) /\
     (parts boundary = [] \/
      exists u, In u (parts boundary) /\ Geo.within G (geometry r) u = true)).
Proof.
  unfold gdf_view, spatial_filter. split.
  - destruct (parts boundary) as [|u ps]; [reflexivity | apply filter_sjoin].
  - intros r. rewrite filter_In, ge_true.
    destruct (parts boundary) as [|u ps] eqn:E.
    + intros [H1 H2]. auto.
    + rewrite in_sjoin. intros [[H1 H3] H2]. auto.
Qed.

(** X2. The spatial filter and the threshold filter commute, and the cells
    drawn are exactly the points at or above the threshold that are within a
    part of the boundary (all such points when there is no boundary). *)
Theorem filters_commute (G : Geo.lib) (boundary : option (Geo.frame (Geo.polygon G)))
  (threshold : Q) (gdf : list point_row) :
  gdf_view threshold (spatial_filter G boundary gdf)
  = spatial_filter G boundary (gdf_view threshold gdf) /\
  (forall r, In r (gdf_view threshold (spatial_filter G boundary gdf)) <->
     In r gdf /\
     (exists v, p_hotspot_next r = Some v /\ threshold <= v) /\
     (parts boundary = [] \/
      exists u, In u (parts boundary) /\ Geo.within G (geometry r) u = true)).
Proof.
  unfold gdf_view, spatial_filter. split.
  - destruct (parts boundary) as [|u ps]; [reflexivity | apply filter_sjoin].
  - intros r. rewrite filter_In, ge_true.
    destruct (parts boundary) as [|u ps] eqn:E.
    + split; [intros [H1 H2]; auto | intros (H1 & H2 & _); auto].
    + rewrite in_sjoin. split.
      * intros [[H1 H3] H2]. auto.
      * intros (H1 & H2 & [H3|H3]); [discriminate | auto].
Qed.

(** X3. The number announced in the header is the number of cells drawn: in
    either map style the data layer has exactly that many positions, with
    one weight (heat map) or one colour (grid) each; the outline layer
    follows it exactly when the boundary has parts. *)
Theorem header_counts_drawn_cells (F : format) (G : Geo.lib) (C : csv (list table_row))
  (d : disk G) (county : string) (threshold : Q) (mode : map_style) (page : Hotspot.page) :
  run F G C d county threshold mode = inr page ->
  exists data outline,
    deck page = data :: outline /\
    (length outline <= 1)%nat /\
    match mode, data with
    | Heatmap, HeatmapLayer positions weights _ =>
        length positions = subheader page /\ length weights = subheader page
    | GridCells, GridCellLayer positions fill =>
        length positions = subheader page /\ length fill = subheader page
    | _, _ => False
    end.
Proof.
  rewrite hotspot_run.
  destruct (points_at d _) as [e1|pts]; [discriminate|].
  destruct (table_at d _) as [e2|df]; [discriminate|].
  destruct (Geo.to_crs (reproject G) pts) as [e3|g]; [discriminate|].
  destruct (Geo.column _ g) as [e4|present]; [discriminate|].
  intros E. injection E as <-. cbn [deck subheader]. unfold layers.
  eexists. eexists. split; [reflexivity|]. split.
  - destruct (parts _); simpl; lia.
  - unfold flagged. rewrite count_true_filter. fold (gdf_view threshold
      (spatial_filter G
         (try_boundary G (boundary_at d (base ++ "/" ++ lower county ++ "_boundary.geojson")%string))
         (Geo.features g))).
    destruct mode; rewrite !length_map; split; reflexivity.
Qed.

Lemma header_counts_drawn_cells_witness :
  exists page,
    run binary64 Boxes.geometry Text.table (Wajir.hotspot_disk true) "Wajir" (Wajir.d 0.6)
      GridCells = inr page /\
    subheader page = 2%nat /\
    deck page
    = [GridCellLayer [(39, 1); (39, 1)] [[220; 50; 47; 200]; [255; 127; 0; 200]]%Z;
       PolygonLayer [180; 180; 180]%Z].
Proof.
  destruct (run binary64 Boxes.geometry Text.table (Wajir.hotspot_disk true) "Wajir"
              (Wajir.d 0.6) GridCells) as [e|page] eqn:E; [vm_compute in E; discriminate|].
  exists page. split; [reflexivity|].
  destruct (header_counts_drawn_cells binary64 Boxes.geometry Text.table
              (Wajir.hotspot_disk true) "Wajir" (Wajir.d 0.6) GridCells page E)
    as (data & outline & _ & _ & _).
  vm_compute in E. injection E as <-. split; reflexivity.
Defined.

(** X4. Every cell of the grid layer has a probability that is a number at
    or above the threshold, so the threshold bounds the colours that can
    appear: from 0.40 on no cell is grey, from 0.60 on (the default) every
    cell is orange or red, from 0.80 on every cell is red.  The opacity is
    always 200. *)
Theorem threshold_bounds_grid_colors (F : format) (threshold : Q) (gdf : list point_row)
  (r : point_row) :
  In r (gdf_view threshold gdf) ->
  (exists v, p_hotspot_next r = Some v /\ threshold <= v) /\
  nth_error (get_fill_color F (p_hotspot_next r)) 3 = Some 200%Z /\
  (lit F 0.40 <= threshold ->
   get_fill_color F (p_hotspot_next r) <> [150; 150; 150; 200]%Z) /\
  (lit F 0.60 <= threshold ->
   get_fill_color F (p_hotspot_next r) = [255; 127; 0; 200]%Z \/
   get_fill_color F (p_hotspot_next r) = [220; 50; 47; 200]%Z) /\
  (lit F 0.80 <= threshold ->
   get_fill_color F (p_hotspot_next r) = [220; 50; 47; 200]%Z).
Proof.
  unfold gdf_view. rewrite filter_In. intros [_ Hge].
  split; [apply ge_true; exact Hge|]. split; [reflexivity|].
  unfold get_fill_color.
  change (80 # 100) with 0.80. change (60 # 100) with 0.60. change (40 # 100) with 0.40.
  split; [|split].
  - intros H. rewrite (ge_weaken _ _ _ H Hge).
    destruct (ge (p_hotspot_next r) (lit F 0.80));
      [discriminate | destruct (ge (p_hotspot_next r) (lit F 0.60)); discriminate].
  - intros H. rewrite (ge_weaken _ _ _ H Hge).
    destruct (ge (p_hotspot_next r) (lit F 0.80)); [right | left]; reflexivity.
  - intros H. rewrite (ge_weaken _ _ _ H Hge). reflexivity.
Qed.

Lemma threshold_bounds_grid_colors_witness :
  In (PointRow 2 (Some (Wajir.d 0.7)) (39, 1) [])
     (gdf_view (Wajir.d 0.6) (Geo.features Wajir.points)) /\
  lit binary64 0.60 <= Wajir.d 0.6 /\
  (get_fill_color binary64 (Some (Wajir.d 0.7)) = [255; 127; 0; 200]%Z \/
   get_fill_color binary64 (Some (Wajir.d 0.7)) = [220; 50; 47; 200]%Z).
Proof.
  assert (Hin : In (PointRow 2 (Some (Wajir.d 0.7)) (39, 1) [])
                   (gdf_view (Wajir.d 0.6) (Geo.features Wajir.points)))
    by (vm_compute; right; left; reflexivity).
  assert (Ht : lit binary64 0.60 <= Wajir.d 0.6) by (vm_compute; discriminate).
  split; [exact Hin|]. split; [exact Ht|].
  exact (proj1 (proj2 (proj2 (proj2
           (threshold_bounds_grid_colors binary64 (Wajir.d 0.6) (Geo.features Wajir.points)
              _ Hin)))) Ht).
Defined.

(** X5. Without a boundary, and with at least one point, the camera centre
    computed in binary64 lies inside the coordinate extent of the points
    (their coordinates being doubles): the two roundings of
    [(min + max) / 2] never push it out.  With neither boundary nor points
    the centre is latitude 3.5, longitude 36. *)
Theorem center_inside_extent (G : Geo.lib) (boundary : option (Geo.frame (Geo.polygon G)))
  (gdf : list point_row) :
  parts boundary = [] ->
  (gdf <> [] ->
   (forall r, In r gdf ->
      representable binary64 (fst (geometry r)) /\ representable binary64 (snd (geometry r))) ->
   (miny (extent binary64 G boundary gdf) <= fst (center binary64 (extent binary64 G boundary gdf))
    /\ fst (center binary64 (extent binary64 G boundary gdf))
       <= maxy (extent binary64 G boundary gdf)) /\
   (minx (extent binary64 G boundary gdf) <= snd (center binary64 (extent binary64 G boundary gdf))
    /\ snd (center binary64 (extent binary64 G boundary gdf))
       <= maxx (extent binary64 G boundary gdf))) /\
  (gdf = [] ->
   fst (center binary64 (extent binary64 G boundary gdf)) == 3.5 /\
   snd (center binary64 (extent binary64 G boundary gdf)) == 36).
Proof.
  intros Hb. split.
  - intros Hg Hrep.
    assert (Hext : spec_extent (extent binary64 G boundary gdf) (List.map geometry gdf)).
    { unfold extent. rewrite Hb. destruct gdf as [|r rs]; [congruence|].
      rewrite <- (map_map geometry Geo.point_bbox). apply total_bounds_points. }
    destruct (extent binary64 G boundary gdf) as [[[x0 y0] x1] y1].
    destruct Hext as (Hall & (p0 & Hp0 & E0) & (p1 & Hp1 & E1) & (q0 & Hq0 & F0)
                      & (q1 & Hq1 & F1)).
    unfold minx, miny, maxx, maxy in *. cbn [fst snd center] in *.
    assert (Rep : forall p, In p (List.map geometry gdf) ->
              representable binary64 (fst p) /\ representable binary64 (snd p)).
    { intros p Hp. apply in_map_iff in Hp. destruct Hp as (r & <- & Hr). apply Hrep. exact Hr. }
    split.
    + apply ScalingFacts.midpoint_between.
      * rewrite <- F0. apply Rep. exact Hq0.
      * rewrite <- F1. apply Rep. exact Hq1.
      * destruct (Hall q0 Hq0) as (_ & _ & _ & H). rewrite F0 in H. exact H.
    + apply ScalingFacts.midpoint_between.
      * rewrite <- E0. apply Rep. exact Hp0.
      * rewrite <- E1. apply Rep. exact Hp1.
      * destruct (Hall p0 Hp0) as (_ & H & _). rewrite E0 in H. exact H.
  - intros ->. unfold extent. rewrite Hb. split; vm_compute; reflexivity.
Qed.

Lemma center_inside_extent_witness :
  (1 <= fst (center binary64 (extent binary64 Boxes.geometry None (Geo.features Wajir.points)))
   /\ fst (center binary64 (extent binary64 Boxes.geometry None (Geo.features Wajir.points)))
      <= 4) /\
  (39 <= snd (center binary64 (extent binary64 Boxes.geometry None (Geo.features Wajir.points)))
   /\ snd (center binary64 (extent binary64 Boxes.geometry None (Geo.features Wajir.points)))
      <= 42).
Proof.
  assert (Hg : Geo.features Wajir.points <> []) by discriminate.
  assert (Hrep : forall r, In r (Geo.features Wajir.points) ->
            representable binary64 (fst (geometry r))
            /\ representable binary64 (snd (geometry r))).
  { intros r Hr. vm_compute in Hr.
    destruct Hr as [<-|[<-|[<-|[<-|[]]]]]; split; vm_compute; reflexivity. }
  exact (proj1 (center_inside_extent Boxes.geometry None (Geo.features Wajir.points) eq_refl)
           Hg Hrep).
Defined.

(** X6. The table of the hotspot page shows [min(20, n)] rows of the forecast
    table, the highest probabilities first and missing probabilities last:
    the rows shown are in non-increasing order, and no row left out ranks
    strictly above a row shown.  The table does not depend on the threshold,
    the map style or the boundary. *)
Theorem table_is_top_twenty (F : format) (G : Geo.lib) (C : csv (list table_row))
  (d : disk G) (county : string) (threshold : Q) (mode : map_style) (page : Hotspot.page) :
  run F G C d county threshold mode = inr page ->
  exists df rest,
    table_at d (base ++ "/" ++ lower county ++ "_hotspot_forecast.csv")%string = inr df /\
    length (table page) = Nat.min 20 (length df) /\
    Permutation df (table page ++ rest) /\
    StronglySorted (ranked t_p_hotspot_next) (table page) /\
    (forall x y, In x (table page) -> In y rest ->
       t_p_hotspot_next y = None \/
       exists a b, t_p_hotspot_next x = Some a /\ t_p_hotspot_next y = Some b /\ b <= a).
Proof.
  rewrite hotspot_run.
  destruct (points_at d _) as [e1|pts]; [discriminate|].
  destruct (table_at d _) as [e2|df]; [discriminate|].
  destruct (Geo.to_crs (reproject G) pts) as [e3|g]; [discriminate|].
  destruct (Geo.column _ g) as [e4|present]; [discriminate|].
  intros E. injection E as <-. cbn [table].
  destruct (head_of_sorted t_p_hotspot_next 20 df) as (Hlen & Hs & Hp & Hr).
  exists df, (skipn 20 (sort_desc t_p_hotspot_next df)).
  split; [reflexivity|]. split; [exact Hlen|]. split; [exact Hp|]. split; [exact Hs|].
  intros x y Hx Hy. apply precedes_true. apply Hr; assumption.
Qed.

Lemma table_is_top_twenty_witness :
  exists page,
    run binary64 Boxes.geometry Text.table (Wajir.hotspot_disk false) "Wajir" (Wajir.d 0.9)
      Heatmap = inr page /\
    List.map t_cell_id (table page) = [1; 2; 3; 4]%Z /\
    length (table page) = Nat.min 20 (length Wajir.forecast).
Proof.
  destruct (run binary64 Boxes.geometry Text.table (Wajir.hotspot_disk false) "Wajir"
              (Wajir.d 0.9) Heatmap) as [e|page] eqn:E; [vm_compute in E; discriminate|].
  exists page. split; [reflexivity|].
  destruct (table_is_top_twenty binary64 Boxes.geometry Text.table (Wajir.hotspot_disk false)
              "Wajir" (Wajir.d 0.9) Heatmap page E) as (df & rest & Edf & Hlen & _).
  vm_compute in Edf. injection Edf as <-. split; [|exact Hlen].
  vm_compute in E. injection E as <-. reflexivity.
Defined.

(** X7. Moving the sliders never moves the camera, in either script: two
    successful runs over the same files have the same view centre whatever
    the thresholds and view modes; in the hotspot script they also show the
    same table and offer the same download. *)
Theorem sliders_do_not_move_camera (F : format) (G : Geo.lib)
  (Ch : csv (list table_row)) (Cc : csv Combined.view)
  (dh : disk G) (dc : Combined.disk G) (county : string)
  (threshold threshold' : Q) (mode mode' : map_style)
  (t1 t2 t1' t2' : Q) (m m' : Combined.layer_mode) :
  (forall page page',
     run F G Ch dh county threshold mode = inr page ->
     run F G Ch dh county threshold' mode' = inr page' ->
     view_state page = view_state page' /\ table page = table page' /\
     download page = download page') /\
  (forall page page',
     Combined.run F G Cc dc county t1 t2 m = inr page ->
     Combined.run F G Cc dc county t1' t2' m' = inr page' ->
     Combined.view_state page = Combined.view_state page').
Proof.
  split.
  - intros page page'. rewrite !hotspot_run.
    destruct (points_at dh _) as [e1|pts]; [discriminate|].
    destruct (table_at dh _) as [e2|df]; [discriminate|].
    destruct (Geo.to_crs (reproject G) pts) as [e3|g]; [discriminate|].
    destruct (Geo.column _ g) as [e4|present]; [discriminate|].
    intros E E'. injection E as <-. injection E' as <-. auto.
  - intros page page'. rewrite !combined_run.
    destruct (Combined.table_at dc _) as [e1|df]; [discriminate|].
    destruct (Combined.points_at dc _) as [e2|pts]; [discriminate|].
    destruct (Geo.to_crs (reproject G) pts) as [e3|g]; [discriminate|].
    destruct (Geo.column _ g) as [e4|present]; [discriminate|].
    intros E E'. injection E as <-. injection E' as <-. reflexivity.
Qed.

(** X13. With a boundary file that loads and has parts, no cell is drawn
    outside the boundary, in either map style and at every threshold: every
    position of the data layer is within the union of the (reprojected)
    parts of the file, and within one of the parts themselves when their
    union could not be formed. *)
Theorem nothing_drawn_outside_boundary (F : format) (G : Geo.lib) (C : csv (list table_row))
  (d : disk G) (county : string) (threshold : Q) (mode : map_style) (page : Hotspot.page)
  (b0 b1 : Geo.frame (Geo.polygon G)) :
  run F G C d county threshold mode = inr page ->
  boundary_at d (base ++ "/" ++ lower county ++ "_boundary.geojson")%string = inr b0 ->
  Geo.to_crs (Geo.transform_polygon G) b0 = inr b1 ->
  Geo.features b1 <> [] ->
  forall data outline, deck page = data :: outline ->
    forall pos,
      In pos match data with
             | HeatmapLayer positions _ _ => positions
             | GridCellLayer positions _ => positions
             | PolygonLayer _ => []
             end ->
      match Geo.unary_union G (Geo.features b1) with
      | inr u => Geo.within G pos u = true
      | inl _ => exists part, In part (Geo.features b1) /\ Geo.within G pos part = true
      end.
Proof.
  rewrite hotspot_run. intros E Hb0 Hb1 Hne.
  destruct (points_at d _) as [e1|pts]; [discriminate|].
  destruct (table_at d _) as [e2|df]; [discriminate|].
  destruct (Geo.to_crs (reproject G) pts) as [e3|g]; [discriminate|].
  destruct (Geo.column _ g) as [e4|present]; [discriminate|].
  injection E as <-. rewrite Hb0. cbn [deck]. unfold layers.
  intros data outline Hd pos Hpos. injection Hd as <- _.
  pose proof (LoaderSpec.try_boundary_cases G (inr b0)) as Hcases.
  cbv beta iota in Hcases. rewrite Hb1 in Hcases.
  assert (Hview : forall r,
            In r (gdf_view threshold
                    (spatial_filter G (try_boundary G (inr b0)) (Geo.features g))) ->
            exists part, In part (parts (try_boundary G (inr b0))) /\
                         Geo.within G (geometry r) part = true).
  { intros r Hr. apply (proj2 (filters_commute_rows G _ threshold _) r) in Hr.
    destruct Hr as (_ & _ & [Hp | Hu]); [|exact Hu].
    destruct (Geo.features b1) as [|p ps] eqn:Ef; [congruence|].
    destruct (Geo.unary_union G (p :: ps)); rewrite Hcases in Hp; simpl in Hp;
      [rewrite Ef in Hp|]; discriminate. }
  assert (Hpos' : exists part, In part (parts (try_boundary G (inr b0))) /\
                               Geo.within G pos part = true).
  { destruct mode; apply in_map_iff in Hpos; destruct Hpos as (r & <- & Hr);
      apply Hview; exact Hr. }
  destruct Hpos' as (part & Hpart & Hw).
  destruct (Geo.features b1) as [|p ps] eqn:Ef; [congruence|].
  destruct (Geo.unary_union G (p :: ps)) as [e|u]; rewrite Hcases in Hpart; simpl in Hpart.
  - exists part. rewrite Ef in Hpart. auto.
  - destruct Hpart as [<-|[]]. exact Hw.
Qed.

Lemma nothing_drawn_outside_boundary_witness :
  exists page,
    run binary64 Boxes.geometry Text.table (Wajir.hotspot_disk true) "Wajir" (Wajir.d 0.2)
      Heatmap = inr page /\
    Geo.features Wajir.boundary <> [] /\
    Geo.within Boxes.geometry (40, 2) [(38, 0, 41, 3); (38.5, 0.5, 41, 3)] = true /\
    ~ In (42, 4) match deck page with
                 | HeatmapLayer positions _ _ :: _ => positions
                 | _ => []
                 end.
Proof.
  destruct (run binary64 Boxes.geometry Text.table (Wajir.hotspot_disk true) "Wajir"
              (Wajir.d 0.2) Heatmap) as [e|page] eqn:E; [vm_compute in E; discriminate|].
  exists page. split; [reflexivity|].
  assert (Hne : Geo.features Wajir.boundary <> []) by discriminate.
  split; [exact Hne|].
  pose proof (nothing_drawn_outside_boundary binary64 Boxes.geometry Text.table
                (Wajir.hotspot_disk true) "Wajir" (Wajir.d 0.2) Heatmap page
                Wajir.boundary Wajir.boundary E eq_refl eq_refl Hne) as W.
  vm_compute in E. injection E as <-.
  split.
  - apply (W _ _ eq_refl (40, 2)). right. right. left. reflexivity.
  - intros H. specialize (W _ _ eq_refl (42, 4) H). vm_compute in W. discriminate.
Defined.

End HotspotPipeline.

(** ** The integrated script as a whole *)

Module CombinedPipeline.
Import Float Combined FloatFacts ListFacts SortFacts CombinedSpec PageSpec.
Local Open Scope list_scope.

Lemma merge_length (df : list risk_row) (g : list geo_row) :
  (length df <= length (merge df g))%nat.
Proof.
  unfold merge. induction df as [|r df IH]; cbn [flat_map].
  - simpl. lia.
  - rewrite length_app. cbn [length].
    set (rest := flat_map _ df) in *. clearbody rest.
    destruct (matches r g) as [|q ms]; cbn [length List.map]; lia.
Qed.

Lemma merge_covers (df : list risk_row) (g : list geo_row) (r : risk_row) :
  In r df -> exists m, In m (merge df g) /\ risk m = r.
Proof.
  intros Hr. destruct (matches r g) as [|q ms] eqn:E.
  - exists (MergedRow r None None). split; [|reflexivity].
    apply in_merge. simpl. split; [exact Hr|]. right.
    split; [apply matches_none; exact E | auto].
  - assert (Hq : In q (matches r g)) by (rewrite E; left; reflexivity).
    apply filter_In in Hq. destruct Hq as [Hq Hid]. apply Z.eqb_eq in Hid.
    exists (MergedRow r (Some (g_lon q)) (Some (g_lat q))). split; [|reflexivity].
    apply in_merge. simpl. split; [exact Hr|]. left. exists q. auto.
Qed.

(** X8. The merge never loses a row of the table.  For a point frame with
    at least one row (each row carrying its [cell_id] and coordinates) the
    merged table has at least as many rows as the table; and when every
    [cell_id] has at most one point it is the table itself, row for row and
    in the same order, with coordinates added. *)
Theorem merge_preserves_table (df : list risk_row) (g : list geo_row) :
  g <> [] ->
  (length df <= length (merge df g))%nat /\
  (List.NoDup (List.map g_cell_id g) ->
   List.map risk (merge df g) = df /\ length (merge df g) = length df).
Proof.
  intros _. split; [apply merge_length|].
  intros Hnd. pose proof (merge_unique_geometry df g Hnd) as E.
  split; [exact E|]. rewrite <- E at 2. rewrite length_map. reflexivity.
Qed.

Lemma merge_preserves_table_witness :
  Wajir.coordinates <> [] /\
  List.NoDup (List.map g_cell_id Wajir.coordinates) /\
  List.map risk (merge Wajir.with_orphan Wajir.coordinates) = Wajir.with_orphan /\
  length (merge Wajir.with_orphan Wajir.coordinates) = 5%nat.
Proof.
  assert (Hne : Wajir.coordinates <> []) by discriminate.
  assert (Hnd : List.NoDup (List.map g_cell_id Wajir.coordinates)).
  { vm_compute. repeat constructor; simpl; intuition discriminate. }
  split; [exact Hne|]. split; [exact Hnd|].
  exact (proj2 (merge_preserves_table Wajir.with_orphan Wajir.coordinates Hne) Hnd).
Defined.

Lemma mask_risk (m : layer_mode) (t1 t2 : Q) (x : merged_row) :
  mask m t1 t2 x = mask m t1 t2 (MergedRow (risk x) None None).
Proof.
  destruct m; reflexivity.
Qed.

Lemma flagged_ids (m : layer_mode) (t1 t2 : Q) (table : list risk_row) (g : list geo_row)
  (c : Z) :
  c ∈ ids (filtered m t1 t2 (merge table g)) <->
  exists r, In r table /\ cell_id r = c /\ mask m t1 t2 (MergedRow r None None) = true.
Proof.
  rewrite in_ids. unfold filtered. split.
  - intros (x & Hx & Hid). apply filter_In in Hx. destruct Hx as [Hx Hm].
    exists (risk x). split; [apply (merge_risk table g); exact Hx|].
    split; [exact Hid | rewrite <- mask_risk; exact Hm].
  - intros (r & Hr & Hid & Hm).
    destruct (merge_covers table g r Hr) as (x & Hx & Ex).
    exists x. split; [|rewrite Ex; exact Hid].
    apply filter_In. split; [exact Hx|]. rewrite mask_risk, Ex. exact Hm.
Qed.

(** X9. Which cells are flagged does not depend on the point file: in every
    mode the [cell_id] set of the filtered view is the set of cells of the
    table that pass the mode's test, so a cell without geometry is flagged
    like any other and a different point file flags the same cells. *)
Theorem flagged_cells_ignore_geometry (m : layer_mode) (t1 t2 : Q)
  (table : list risk_row) (g g' : list geo_row) :
  (forall c, c ∈ ids (filtered m t1 t2 (merge table g)) <->
     exists r, In r table /\ cell_id r = c /\
       match m with
       | HotspotOnly => ge (p_hotspot_next r) t1 = true
       | MobilityOnly => ge (anomaly_prob_norm r) t2 = true
       | CombinedRisk =>
           ge (p_hotspot_next r) t1 = true /\ ge (anomaly_prob_norm r) t2 = true
       end) /\
  ids (filtered m t1 t2 (merge table g)) = ids (filtered m t1 t2 (merge table g')).
Proof.
  split.
  - intros c. rewrite flagged_ids. split; intros (r & Hr & Hid & Hm); exists r;
      (split; [exact Hr | split; [exact Hid|]]).
    + apply mask_true in Hm. exact Hm.
    + apply mask_true. exact Hm.
  - apply set_eq. intros c. rewrite !flagged_ids. reflexivity.
Qed.

(** X10. The heat map gets one weight per row of the filtered view, and no
    weight is NaN: in hotspot mode each is at least the hotspot threshold, in
    mobility mode at least the anomaly threshold, and in combined mode at
    least the rounded product of the two thresholds (which the sliders keep
    non-negative). *)
Theorem weights_are_bounded_below (F : format) (m : layer_mode) (t1 t2 : Q)
  (df : list merged_row) :
  lawful F -> 0 <= t1 -> 0 <= t2 ->
  length (weights m (df_view F m t1 t2 df)) = length (rows (df_view F m t1 t2 df)) /\
  forall w, In w (weights m (df_view F m t1 t2 df)) ->
    exists v, w = Some v /\
      match m with
      | HotspotOnly => t1 <= v
      | MobilityOnly => t2 <= v
      | CombinedRisk => rnd F (t1 * t2) <= v
      end.
Proof.
  intros HF H1 H2. destruct m; cbn [df_view weights rows compound_risk].
  - split; [apply length_map|]. intros w Hw. apply in_map_iff in Hw.
    destruct Hw as (r & <- & Hr). apply filter_In in Hr. destruct Hr as [_ Hm].
    apply ge_true in Hm. exact Hm.
  - split; [apply length_map|]. intros w Hw. apply in_map_iff in Hw.
    destruct Hw as (r & <- & Hr). apply filter_In in Hr. destruct Hr as [_ Hm].
    apply ge_true in Hm. exact Hm.
  - split; [apply length_map|]. intros w Hw. apply in_map_iff in Hw.
    destruct Hw as (r & <- & Hr). apply filter_In in Hr. destruct Hr as [_ Hm].
    apply mask_true in Hm. destruct Hm as [Hp Ha].
    apply ge_true in Hp. apply ge_true in Ha.
    destruct Hp as (p & Ep & Hp), Ha as (a & Ea & Ha). rewrite Ep, Ea. simpl.
    eexists. split; [reflexivity|]. apply (rnd_mono F HF).
    assert (P0 : 0 <= p) by (apply Qle_trans with t1; assumption).
    apply Qle_trans with (p * t2).
    + apply Qmult_le_compat_r; assumption.
    + rewrite (Qmult_comm p t2), (Qmult_comm p a). apply Qmult_le_compat_r; assumption.
Qed.

Lemma weights_are_bounded_below_witness :
  (0 <= Wajir.d 0.6 /\ 0 <= Wajir.d 0.5) /\
  weights CombinedRisk (df_view binary64 CombinedRisk (Wajir.d 0.6) (Wajir.d 0.5) Wajir.merged)
  = [Some (6485183463413515 # 9007199254740992)] /\
  exists v, Some (6485183463413515 # 9007199254740992) = Some v /\
            rnd binary64 (Wajir.d 0.6 * Wajir.d 0.5) <= v.
Proof.
  assert (H1 : 0 <= Wajir.d 0.6) by (vm_compute; discriminate).
  assert (H2 : 0 <= Wajir.d 0.5) by (vm_compute; discriminate).
  assert (E : weights CombinedRisk
                (df_view binary64 CombinedRisk (Wajir.d 0.6) (Wajir.d 0.5) Wajir.merged)
              = [Some (6485183463413515 # 9007199254740992)]) by (vm_compute; reflexivity).
  split; [split; assumption|]. split; [exact E|].
  apply (proj2 (weights_are_bounded_below binary64 CombinedRisk (Wajir.d 0.6) (Wajir.d 0.5)
                  Wajir.merged binary64_lawful H1 H2)).
  rewrite E. left. reflexivity.
Defined.

Lemma combine_map_self {A B : Type} (f : A -> B) (l : list A) :
  combine l (List.map f l) = List.map (fun x => (x, f x)) l.
Proof.
  induction l as [|a l IH]; simpl; [reflexivity | rewrite IH; reflexivity].
Qed.

(** The rows of [df_view[display_cols]], one per row of the view. *)
Lemma display_cols_view (F : format) (m : layer_mode) (t1 t2 : Q) (df : list merged_row) :
  display_cols (df_view F m t1 t2 df)
  = List.map
      (fun r => DisplayRow (cell_id (risk r)) (mid_date (risk r))
                  (p_hotspot_next (risk r)) (anomaly_prob_norm (risk r))
                  match m with
                  | CombinedRisk =>
                      Some (mul F (p_hotspot_next (risk r)) (anomaly_prob_norm (risk r)))
                  | _ => None
                  end)
      (filtered m t1 t2 df).
Proof.
  destruct m; cbn [df_view display_cols compound_risk rows]; try reflexivity.
  unfold product. rewrite combine_map_self, map_map. reflexivity.
Qed.

(** X11. The table of the integrated page shows [min(30, n)] of the [n] rows
    of the filtered view, highest hotspot probability first.  Every row shown
    is a row of the view, so it passes the tests of the mode; the
    [compound_risk] column is shown in combined mode only, and there it is
    the product of the two probabilities shown in the same row. *)
Theorem table_shows_filtered_rows (F : format) (G : Geo.lib) (C : csv view)
  (d : disk G) (county : string) (t1 t2 : Q) (m : layer_mode) (page : Combined.page) :
  run F G C d county t1 t2 m = inr page ->
  length (table page) = Nat.min 30 (length (rows (deck page))) /\
  StronglySorted (ranked d_p_hotspot_next) (table page) /\
  forall x, In x (table page) ->
    (exists r, In r (rows (deck page)) /\ mask m t1 t2 r = true /\
               d_cell_id x = cell_id (risk r) /\ d_mid_date x = mid_date (risk r) /\
               d_p_hotspot_next x = p_hotspot_next (risk r) /\
               d_anomaly_prob_norm x = anomaly_prob_norm (risk r)) /\
    d_compound_risk x
    = match m with
      | CombinedRisk => Some (mul F (d_p_hotspot_next x) (d_anomaly_prob_norm x))
      | _ => None
      end.
Proof.
  rewrite combined_run.
  destruct (table_at d _) as [e1|df]; [discriminate|].
  destruct (points_at d _) as [e2|pts]; [discriminate|].
  destruct (Geo.to_crs (Hotspot.reproject G) pts) as [e3|g]; [discriminate|].
  destruct (Geo.column _ g) as [e4|present]; [discriminate|].
  intros E. injection E as <-. cbn [table deck].
  set (merged := merge df (lonlat (Geo.features g))).
  destruct (head_of_sorted d_p_hotspot_next 30 (display_cols (df_view F m t1 t2 merged)))
    as (Hlen & Hs & Hp & _).
  assert (Hrows : rows (df_view F m t1 t2 merged) = filtered m t1 t2 merged)
    by (destruct m; reflexivity).
  split; [|split; [exact Hs|]].
  - rewrite Hlen, display_cols_view, length_map, Hrows. reflexivity.
  - intros x Hx.
    assert (Hin : In x (display_cols (df_view F m t1 t2 merged))).
    { apply (Permutation_in x (Permutation_sym Hp)). apply in_or_app. left. exact Hx. }
    rewrite display_cols_view in Hin. apply in_map_iff in Hin.
    destruct Hin as (r & <- & Hr). cbn [d_cell_id d_mid_date d_p_hotspot_next
                                          d_anomaly_prob_norm d_compound_risk].
    split; [|reflexivity].
    exists r. rewrite Hrows. split; [exact Hr|].
    apply filter_In in Hr. destruct Hr as [_ Hm]. auto.
Qed.

Lemma table_shows_filtered_rows_witness :
  exists page,
    run binary64 Boxes.geometry Text.view (Wajir.combined_disk true) "Wajir"
      (Wajir.d 0.5) (Wajir.d 0.5) HotspotOnly = inr page /\
    List.map d_cell_id (table page) = [1; 2; 3]%Z /\
    length (table page) = Nat.min 30 (length (rows (deck page))).
Proof.
  destruct (run binary64 Boxes.geometry Text.view (Wajir.combined_disk true) "Wajir"
              (Wajir.d 0.5) (Wajir.d 0.5) HotspotOnly) as [e|page] eqn:E;
    [vm_compute in E; discriminate|].
  exists page. split; [reflexivity|].
  pose proof (proj1 (table_shows_filtered_rows binary64 Boxes.geometry Text.view
                       (Wajir.combined_disk true) "Wajir" (Wajir.d 0.5) (Wajir.d 0.5)
                       HotspotOnly page E)) as Hlen.
  split; [|exact Hlen].
  vm_compute in E. injection E as <-. reflexivity.
Defined.

Lemma valid_nil (col : list fval) : valid col = [] <-> forall x, In x col -> x = None.
Proof.
  induction col as [|[v|] col IH]; simpl.
  - split; [intros _ x [] | reflexivity].
  - split; [discriminate|]. intros H. specialize (H (Some v) (or_introl eq_refl)). discriminate.
  - rewrite IH. split.
    + intros H x [<-|Hx]; [reflexivity | apply H; exact Hx].
    + intros H x Hx. apply H. right. exact Hx.
Qed.

Lemma mean_nan (F : format) (col : list fval) :
  mean F col = None <-> forall x, In x col -> x = None.
Proof.
  rewrite <- valid_nil. unfold mean. destruct (valid col); split; congruence.
Qed.

Lemma center_nan_iff (F : format) (table : list risk_row) (g : list geo_row) :
  (fst (center F (merge table g)) = None <->
   forall r q, In r table -> In q g -> g_cell_id q <> cell_id r) /\
  (snd (center F (merge table g)) = None <->
   forall r q, In r table -> In q g -> g_cell_id q <> cell_id r).
Proof.
  assert (Hnone : (forall r q, In r table -> In q g -> g_cell_id q <> cell_id r) ->
            forall x, In x (merge table g) -> lat x = None /\ lon x = None).
  { intros H x Hx. apply in_merge in Hx.
    destruct Hx as [Hr [(q & Hq & Hid & _) | (_ & Hlon & Hlat)]]; [|auto].
    exfalso. exact (H (risk x) q Hr Hq Hid). }
  assert (Hsome : forall r q, In r table -> In q g -> g_cell_id q = cell_id r ->
            In (MergedRow r (Some (g_lon q)) (Some (g_lat q))) (merge table g)).
  { intros r q Hr Hq Hid. apply in_merge. simpl. split; [exact Hr|]. left. exists q. auto. }
  unfold center. cbn [fst snd]. rewrite !mean_nan. split; split.
  - intros H r q Hr Hq Hid.
    specialize (H (Some (g_lat q))
                  (in_map lat _ _ (Hsome r q Hr Hq Hid))). discriminate.
  - intros H x Hx. apply in_map_iff in Hx. destruct Hx as (y & <- & Hy).
    apply (Hnone H y Hy).
  - intros H r q Hr Hq Hid.
    specialize (H (Some (g_lon q))
                  (in_map lon _ _ (Hsome r q Hr Hq Hid))). discriminate.
  - intros H x Hx. apply in_map_iff in Hx. destruct Hx as (y & <- & Hy).
    apply (Hnone H y Hy).
Qed.

(** X12. On a run of the integrated script that produces a page the point
    file has at least one feature, and the view centre is NaN exactly when
    no cell of the table has a point in the point file (in particular for an
    empty table); as soon as one cell has a point, both coordinates of the
    centre are numbers. *)
Theorem center_is_nan_without_geometry (F : format) (G : Geo.lib) (C : csv view)
  (d : disk G) (county : string) (t1 t2 : Q) (m : layer_mode) (page : Combined.page) :
  run F G C d county t1 t2 m = inr page ->
  exists df pts g,
    table_at d (base ++ "/" ++ lower county ++ "_hotspot_enhanced.csv")%string = inr df /\
    points_at d (base ++ "/" ++ lower county ++ "_hotspot_forecast.geojson")%string
    = inr pts /\
    Geo.to_crs (Hotspot.reproject G) pts = inr g /\
    Geo.features g <> [] /\
    (fst (view_state page) = None <->
     forall r q, In r df -> In q (Geo.features g) -> Hotspot.cell_id q <> cell_id r) /\
    (snd (view_state page) = None <->
     forall r q, In r df -> In q (Geo.features g) -> Hotspot.cell_id q <> cell_id r).
Proof.
  rewrite combined_run.
  destruct (table_at d _) as [e1|df]; [discriminate|].
  destruct (points_at d _) as [e2|pts]; [discriminate|].
  destruct (Geo.to_crs (Hotspot.reproject G) pts) as [e3|g] eqn:Eg; [discriminate|].
  destruct (Geo.column _ g) as [e4|present] eqn:Ec; [discriminate|].
  intros E. injection E as <-. exists df, pts, g. cbn [view_state].
  split; [reflexivity|]. split; [reflexivity|]. split; [exact Eg|]. split.
  { unfold Geo.column in Ec. destruct (Geo.features g); [discriminate Ec | discriminate]. }
  assert (Hpts : (forall r q, In r df -> In q (lonlat (Geo.features g)) ->
                              g_cell_id q <> cell_id r) <->
                 (forall r q, In r df -> In q (Geo.features g) ->
                              Hotspot.cell_id q <> cell_id r)).
  { unfold lonlat. split.
    - intros H r q Hr Hq.
      exact (H r _ Hr (in_map (fun p => GeoRow (Hotspot.cell_id p) _ _) _ q Hq)).
    - intros H r q Hr Hq. apply in_map_iff in Hq. destruct Hq as (p & <- & Hp).
      exact (H r p Hr Hp). }
  rewrite <- Hpts. apply center_nan_iff.
Qed.

Lemma center_is_nan_without_geometry_witness :
  exists page,
    run binary64 Boxes.geometry Text.view (Wajir.combined_disk true) "Wajir"
      (Wajir.d 0.6) (Wajir.d 0.5) CombinedRisk = inr page /\
    fst (view_state page) <> None.
Proof.
  destruct (run binary64 Boxes.geometry Text.view (Wajir.combined_disk true) "Wajir"
              (Wajir.d 0.6) (Wajir.d 0.5) CombinedRisk) as [e|page] eqn:E;
    [vm_compute in E; discriminate|].
  exists page. split; [reflexivity|].
  destruct (center_is_nan_without_geometry binary64 Boxes.geometry Text.view
              (Wajir.combined_disk true) "Wajir" (Wajir.d 0.6) (Wajir.d 0.5) CombinedRisk
              page E) as (df & pts & g & Ed & Ep & Eg & _ & Hlat & _).
  vm_compute in Ed. injection Ed as <-. vm_compute in Ep. injection Ep as <-.
  vm_compute in Eg. injection Eg as <-.
  intros HN. eapply (proj1 Hlat HN); [left; reflexivity | left; reflexivity | reflexivity].
Defined.

(** The centre of a table without any geometry, computed. *)
Example center_of_orphans :
  center binary64 (merge [Wajir.orphan] Wajir.coordinates) = (None, None).
Proof. reflexivity. Qed.

End CombinedPipeline.
